(** * MicroPostingPlatform backend: credential verifier, cache-aside reads,
      post model and the in-memory store, as a shallow embedding.

    The development follows the backend sources:
    - [utils/validators.js]            -> Module [Validators], on top of
                                          Modules [JsStr] and [Regex]
    - [utils/errors.js]                -> Module [Errors]
    - [config/env.js]                  -> Module [Env]
    - [services/crypto.service.js], [services/database.service.js],
      [services/cache.service.js], [models/User.model.js],
      [models/Post.model.js]           -> Section [Backend]

    Conventions.  A JavaScript string is a [string] whose characters are
    UTF-16 code units in the Latin-1 range; [String.length] is the JS
    [.length].  A JS number that the code treats as an integer is a [Z].
    An [async] function is a computation in the monad [M] of state and
    exceptions; awaited calls run to completion one after the other.
    [Date.now()], [randomUUID()], bcrypt, jsonwebtoken and
    [encodeURIComponent] are outside the repository: the clock and the id
    generator are oracles read through a counter kept in the state, the
    others are parameters.  The logger has no effect on the state and is
    left out. *)

From Stdlib Require Import ZArith Lia String Ascii List Bool Sorted.
From stdpp Require Import gmap strings list fin_maps pretty.
Import ListNotations.

Local Open Scope string_scope.
Local Open Scope list_scope.
Local Open Scope Z_scope.

(** ** JavaScript string primitives used by the sources *)
Module JsStr.

Definition chars (s : string) : list ascii := list_ascii_of_string s.
Definition str (l : list ascii) : string := string_of_list_ascii l.

Definition code (c : ascii) : N := N_of_ascii c.

(** The regular-expression class [\s], which is also the set stripped by
    [String.prototype.trim] (WhiteSpace and LineTerminator), restricted
    to code units below 256: TAB, LF, VT, FF, CR, SPACE, NBSP. *)
Definition is_space (c : ascii) : bool :=
  let n := code c in
  ((9 <=? n)%N && (n <=? 13)%N) || (n =? 32)%N || (n =? 160)%N.

(** Line terminators, which the regular-expression dot does not match. *)
Definition is_line_terminator (c : ascii) : bool :=
  let n := code c in (n =? 10)%N || (n =? 13)%N.

Fixpoint trimStartL (l : list ascii) : list ascii :=
  match l with
  | [] => []
  | c :: l' => if is_space c then trimStartL l' else l
  end.

Definition trimEndL (l : list ascii) : list ascii := rev (trimStartL (rev l)).

Definition trimL (l : list ascii) : list ascii := trimEndL (trimStartL l).

(** [s.trim()] *)
Definition trim (s : string) : string := str (trimL (chars s)).

(** [c.toLowerCase()] on one code unit: A-Z, and the Latin-1 capitals
    U+00C0..U+00DE except the multiplication sign U+00D7. *)
Definition lowerChar (c : ascii) : ascii :=
  let n := code c in
  if ((65 <=? n)%N && (n <=? 90)%N)
     || ((192 <=? n)%N && (n <=? 222)%N && negb (n =? 215)%N)
  then ascii_of_N (n + 32) else c.

(** [c.toUpperCase()] on one code unit: a-z and the Latin-1 small
    letters U+00E0..U+00FE except the division sign U+00F7.  The capitals
    of U+00B5 and U+00FF lie outside Latin-1 and these two are left as
    they are; U+00DF, whose capital is two code units long, is handled in
    [upperL]. *)
Definition upperChar (c : ascii) : ascii :=
  let n := code c in
  if ((97 <=? n)%N && (n <=? 122)%N)
     || ((224 <=? n)%N && (n <=? 254)%N && negb (n =? 247)%N)
  then ascii_of_N (n - 32) else c.

Fixpoint upperL (l : list ascii) : list ascii :=
  match l with
  | [] => []
  | c :: l' =>
      if (code c =? 223)%N then "S"%char :: "S"%char :: upperL l'
      else upperChar c :: upperL l'
  end.

Definition toLowerCase (s : string) : string := str (map lowerChar (chars s)).
Definition toUpperCase (s : string) : string := str (upperL (chars s)).

(** [s.replace('*', '.*')]: only the first occurrence is replaced. *)
Fixpoint replaceFirstStarL (l : list ascii) : list ascii :=
  match l with
  | [] => []
  | c :: l' =>
      if Ascii.eqb c "*" then "."%char :: "*"%char :: l'
      else c :: replaceFirstStarL l'
  end.

Definition replaceFirstStar (s : string) : string :=
  str (replaceFirstStarL (chars s)).

End JsStr.

(** ** Regular expressions

    The sources use three kinds of regular expression: the anchored
    [EMAIL_REGEX] and [UUID_REGEX] of [validators.js], the global
    replacements of [sanitizeText], and the unanchored expression that
    [CacheService.deletePattern] builds from a key pattern.  The
    anchored expressions and the one of [deletePattern] are matched
    here by Brzozowski derivatives over code units; the two
    replacements, each over a single character class, are written as
    list functions in [Validators]. *)
Module Regex.

Inductive regex : Type :=
| Void
| Eps
| Cls (p : ascii -> bool)
| Cat (r1 r2 : regex)
| Alt (r1 r2 : regex)
| Star (r : regex).

Fixpoint nullable (r : regex) : bool :=
  match r with
  | Void => false
  | Eps => true
  | Cls _ => false
  | Cat r1 r2 => nullable r1 && nullable r2
  | Alt r1 r2 => nullable r1 || nullable r2
  | Star _ => true
  end.

Fixpoint deriv (c : ascii) (r : regex) : regex :=
  match r with
  | Void => Void
  | Eps => Void
  | Cls p => if p c then Eps else Void
  | Cat r1 r2 =>
      if nullable r1 then Alt (Cat (deriv c r1) r2) (deriv c r2)
      else Cat (deriv c r1) r2
  | Alt r1 r2 => Alt (deriv c r1) (deriv c r2)
  | Star r1 => Cat (deriv c r1) (Star r1)
  end.

(** The whole input is matched: an expression written [^r$]. *)
Fixpoint matchesL (r : regex) (l : list ascii) : bool :=
  match l with
  | [] => nullable r
  | c :: l' => matchesL (deriv c r) l'
  end.

Definition anyChar : regex := Cls (fun _ => true).

(** [regex.test(s)] for an expression without anchors: some substring
    of the input is matched. *)
Definition searchL (r : regex) (l : list ascii) : bool :=
  matchesL (Cat (Star anyChar) (Cat r (Star anyChar))) l.

Definition test_anchored (r : regex) (s : string) : bool :=
  matchesL r (JsStr.chars s).
Definition test (r : regex) (s : string) : bool :=
  searchL r (JsStr.chars s).

(** Derived forms. *)
Definition chr (c : ascii) : regex := Cls (Ascii.eqb c).
Definition plus (r : regex) : regex := Cat r (Star r).
(** The dot: any code unit except a line terminator. *)
Definition dot : regex := Cls (fun c => negb (JsStr.is_line_terminator c)).

Fixpoint rep (n : nat) (r : regex) : regex :=
  match n with
  | O => Eps
  | S n' => Cat r (rep n' r)
  end.

(** The syntax characters of the pattern grammar. *)
Definition is_syntax_char (c : ascii) : bool :=
  existsb (Ascii.eqb c) (JsStr.chars "^$\.*+?()[]{}|").

(** [new RegExp(source)] for the fragment the cache patterns live in:
    literal characters and the dot, each optionally followed by a
    star.  A source outside the fragment gives [None]. *)
Fixpoint parseL (l : list ascii) : option regex :=
  match l with
  | [] => Some Eps
  | c :: l' =>
      let atom :=
        if Ascii.eqb c "." then Some dot
        else if is_syntax_char c then None
        else Some (chr c) in
      match atom with
      | None => None
      | Some a =>
          match l' with
          | c' :: l'' =>
              if Ascii.eqb c' "*"
              then match parseL l'' with
                   | Some r => Some (Cat (Star a) r)
                   | None => None
                   end
              else match parseL l' with
                   | Some r => Some (Cat a r)
                   | None => None
                   end
          | [] => Some (Cat a Eps)
          end
      end
  end.

Definition parse (source : string) : option regex := parseL (JsStr.chars source).

(** *** Denotation and correctness of the matcher *)

Inductive Matches : regex -> list ascii -> Prop :=
| MEps : Matches Eps []
| MCls p c : p c = true -> Matches (Cls p) [c]
| MCat r1 r2 l1 l2 :
    Matches r1 l1 -> Matches r2 l2 -> Matches (Cat r1 r2) (l1 ++ l2)
| MAltL r1 r2 l : Matches r1 l -> Matches (Alt r1 r2) l
| MAltR r1 r2 l : Matches r2 l -> Matches (Alt r1 r2) l
| MStarNil r : Matches (Star r) []
| MStarApp r l1 l2 :
    Matches r l1 -> Matches (Star r) l2 -> Matches (Star r) (l1 ++ l2).

(** Every code unit of a matched input is accepted by some class of
    the expression. *)
Fixpoint classes_within (P : ascii -> Prop) (r : regex) : Prop :=
  match r with
  | Void | Eps => True
  | Cls p => forall c, p c = true -> P c
  | Cat r1 r2 | Alt r1 r2 => classes_within P r1 /\ classes_within P r2
  | Star r1 => classes_within P r1
  end.

End Regex.

(** ** Values crossing the HTTP boundary

    Request bodies are parsed JSON: a field the code expects to be a
    string may hold anything.  The validators only ask [typeof v ===
    'string'], so one constructor stands for every other value. *)
Inductive JsVal : Type :=
| JStr (s : string)
| JOther.

(** A numeric argument of [validatePagination]: omitted, an integer, or
    any other value (NaN from [parseInt], a fraction, a non-number). *)
Inductive JsNum : Type :=
| NUndefined
| NInt (z : Z)
| NOther.

(** ** [utils/errors.js] *)
Module Errors.

Inductive ErrorClass : Type :=
| CValidationError
| CInvalidCredentialsError
| CUnauthorizedError
| CForbiddenError
| CNotFoundError
| CConflictError
| CAccountLockedError
| CRateLimitError.

(** An [AppError] instance: the subclass and the four fields its
    constructor sets. *)
Record AppError : Type := mkAppError {
  errClass : ErrorClass;
  message : string;
  code : string;
  statusCode : Z;
  isOperational : bool;
}.

Definition AppError_new (cls : ErrorClass) (message code : string) (statusCode : Z) : AppError :=
  mkAppError cls message code statusCode true.

Definition ValidationError (message : string) : AppError :=
  AppError_new CValidationError message "VALIDATION_ERROR" 400.
Definition InvalidCredentialsError (message : string) : AppError :=
  AppError_new CInvalidCredentialsError message "INVALID_CREDENTIALS" 401.
Definition UnauthorizedError (message : string) : AppError :=
  AppError_new CUnauthorizedError message "UNAUTHORIZED" 401.
Definition ForbiddenError (message : string) : AppError :=
  AppError_new CForbiddenError message "FORBIDDEN" 403.
Definition NotFoundError (resource : string) : AppError :=
  AppError_new CNotFoundError (resource +:+ " not found") "NOT_FOUND" 404.
Definition ConflictError (message : string) : AppError :=
  AppError_new CConflictError message "CONFLICT" 409.
Definition AccountLockedError (message : string) : AppError :=
  AppError_new CAccountLockedError message "ACCOUNT_LOCKED" 423.
Definition RateLimitError (message : string) : AppError :=
  AppError_new CRateLimitError message "RATE_LIMIT_EXCEEDED" 429.

(** The constructors called without an argument. *)
Definition InvalidCredentialsError_default : AppError :=
  InvalidCredentialsError "Invalid email or password".
Definition AccountLockedError_default : AppError :=
  AccountLockedError "Account temporarily locked due to multiple failed login attempts".

(** What a call can throw: an [AppError], a [TypeError] of the
    runtime, or a construct this development does not cover. *)
Inductive Exn : Type :=
| EApp (e : AppError)
| ETypeError (msg : string)
| EUnmodelled (what : string).

Inductive Outcome (A : Type) : Type :=
| Returned (a : A)
| Thrown (e : Exn).
Arguments Returned {A} a.
Arguments Thrown {A} e.

End Errors.
Import Errors.

(** ** [config/env.js] *)
Module Env.

Record Config : Type := mkConfig {
  maxFailedLoginAttempts : Z;
  accountLockoutDurationMs : Z;
  cacheTTL : Z;
}.

(** [parseInt(process.env.X, 10) || d]: the variable read as an integer
    ([None] when unset or not a number, which [parseInt] turns into
    NaN); NaN and 0 are falsy and give the default. *)
Definition intOr (v : option Z) (d : Z) : Z :=
  match v with
  | Some n => if n =? 0 then d else n
  | None => d
  end.

Definition load (env : string -> option Z) : Config :=
  {| maxFailedLoginAttempts := intOr (env "MAX_FAILED_LOGIN_ATTEMPTS") 5;
     accountLockoutDurationMs := intOr (env "ACCOUNT_LOCKOUT_DURATION_MS") (15 * 60 * 1000);
     cacheTTL := intOr (env "CACHE_TTL_SECONDS") 300 |}.

(** The configuration of a process started with none of the variables set. *)
Definition default : Config := load (fun _ => None).

End Env.

(** ** [utils/validators.js] *)
Module Validators.
Import Regex.

Definition MAX_POST_LENGTH : Z := 280.
Definition MIN_PASSWORD_LENGTH : Z := 8.
Definition MIN_DISPLAY_NAME_LENGTH : Z := 2.

Definition jsLength (s : string) : Z := Z.of_nat (String.length s).

(** The class [[^\s@]]. *)
Definition notSpaceNorAt (c : ascii) : bool :=
  negb (JsStr.is_space c) && negb (Ascii.eqb c "@").

(** [/^[^\s@]+@[^\s@]+\.[^\s@]+$/] *)
Definition EMAIL_REGEX : regex :=
  Cat (plus (Cls notSpaceNorAt))
    (Cat (chr "@")
      (Cat (plus (Cls notSpaceNorAt))
        (Cat (chr ".") (plus (Cls notSpaceNorAt))))).

(** The class [[0-9a-f]] under the [i] flag. *)
Definition hexDigit (c : ascii) : bool :=
  let n := JsStr.code c in
  ((48 <=? n)%N && (n <=? 57)%N)
  || ((97 <=? n)%N && (n <=? 102)%N)
  || ((65 <=? n)%N && (n <=? 70)%N).

(** The class [[89ab]] under the [i] flag. *)
Definition variantDigit (c : ascii) : bool :=
  existsb (Ascii.eqb c) (JsStr.chars "89abAB").

(** [/^[0-9a-f]{8}-[0-9a-f]{4}-4[0-9a-f]{3}-[89ab][0-9a-f]{3}-[0-9a-f]{12}$/i] *)
Definition UUID_REGEX : regex :=
  Cat (rep 8 (Cls hexDigit))
    (Cat (chr "-")
      (Cat (rep 4 (Cls hexDigit))
        (Cat (chr "-")
          (Cat (chr "4")
            (Cat (rep 3 (Cls hexDigit))
              (Cat (chr "-")
                (Cat (Cls variantDigit)
                  (Cat (rep 3 (Cls hexDigit))
                    (Cat (chr "-") (rep 12 (Cls hexDigit))))))))))).

Definition isValidEmail (email : JsVal) : bool :=
  match email with
  | JStr s => test_anchored EMAIL_REGEX s
  | JOther => false
  end.

Definition isNonEmptyString (v : JsVal) : bool :=
  match v with
  | JStr s => 0 <? jsLength (JsStr.trim s)
  | JOther => false
  end.

Definition isValidId (id : JsVal) : bool :=
  match id with
  | JStr s => test_anchored UUID_REGEX s
  | JOther => false
  end.

(** [text.replace(/\s+/g, ' ')]: every maximal run of white space
    becomes one space; [inRun] tells that the previous code unit was
    white space. *)
Fixpoint collapseSpaces (inRun : bool) (l : list ascii) : list ascii :=
  match l with
  | [] => []
  | c :: l' =>
      if JsStr.is_space c
      then (if inRun then collapseSpaces true l' else " "%char :: collapseSpaces true l')
      else c :: collapseSpaces false l'
  end.

(** [text.replace(/[<>]/g, '')] *)
Definition removeAngleBrackets (l : list ascii) : list ascii :=
  List.filter (fun c => negb (Ascii.eqb c "<" || Ascii.eqb c ">")) l.

Definition sanitizeText (text : JsVal) : string :=
  match text with
  | JOther => ""
  | JStr s =>
      JsStr.str (JsStr.trimL (collapseSpaces false (removeAngleBrackets (JsStr.chars s))))
  end.

Definition clamp (value min max : Z) : Z := Z.min (Z.max value min) max.

Record Pagination : Type := mkPagination {
  pgLimit : Z;
  pgOffset : Z;
  pgOrder : string;
}.

(** [['ASC', 'DESC'].includes(s)] *)
Definition isAscOrDesc (s : string) : bool :=
  String.eqb s "ASC" || String.eqb s "DESC".

(** [order] is [undefined] ([None]) or any value.  The code calls
    [order.toUpperCase()] on every value that is not [undefined]: on a
    value that is not a string the call throws a [TypeError], whatever
    the limit and the offset are.  The message is the one for a value
    without the method, such as the array or the object the query parser
    gives for a repeated parameter; the engine words it differently for
    [null]. *)
Definition validatePagination (limit offset : JsNum) (order : option JsVal)
  : Outcome Pagination :=
  let errLimit :=
    match limit with
    | NUndefined => []
    | NInt n => if (n <? 1) || (100 <? n)
                then ["Limit must be an integer between 1 and 100"] else []
    | NOther => ["Limit must be an integer between 1 and 100"]
    end in
  let errOffset :=
    match offset with
    | NUndefined => []
    | NInt n => if n <? 0 then ["Offset must be a non-negative integer"] else []
    | NOther => ["Offset must be a non-negative integer"]
    end in
  match order with
  | Some JOther => Thrown (ETypeError "order.toUpperCase is not a function")
  | _ =>
      let errOrder :=
        match order with
        | Some (JStr o) => if isAscOrDesc (JsStr.toUpperCase o) then []
                           else ["Order must be ASC or DESC"]
        | _ => []
        end in
      let errors := errLimit ++ errOffset ++ errOrder in
      if (0 <? Z.of_nat (List.length errors))
      then Thrown (EApp (ValidationError (String.concat ", " errors)))
      else
        Returned
          {| pgLimit :=
               match limit with
               | NInt n => if n =? 0 then 20 else clamp n 1 100
               | _ => 20
               end;
             pgOffset :=
               match offset with
               | NInt n => if n =? 0 then 0 else n
               | _ => 0
               end;
             pgOrder :=
               match order with
               | Some (JStr o) => if String.eqb o "" then "DESC" else JsStr.toUpperCase o
               | _ => "DESC"
               end |}
  end.

Definition validateRegistration (email password displayName : JsVal)
  : Outcome unit :=
  let e1 := if isValidEmail email then [] else ["Invalid email format"] in
  let e2 :=
    match password with
    | JStr p =>
        if negb (isNonEmptyString password) || (jsLength p <? MIN_PASSWORD_LENGTH)
        then ["Password must be at least 8 characters"] else []
    | JOther => ["Password must be at least 8 characters"]
    end in
  let e3 :=
    match displayName with
    | JStr d =>
        if negb (isNonEmptyString displayName) || (jsLength d <? MIN_DISPLAY_NAME_LENGTH)
        then ["Display name must be at least 2 characters"] else []
    | JOther => ["Display name must be at least 2 characters"]
    end in
  let errors := e1 ++ e2 ++ e3 in
  if (0 <? Z.of_nat (List.length errors))
  then Thrown (EApp (ValidationError (String.concat ", " errors)))
  else Returned tt.

Definition validateLogin (email password : JsVal) : Outcome unit :=
  if negb (isValidEmail email) || negb (isNonEmptyString password)
  then Thrown (EApp (ValidationError "Invalid email or password"))
  else Returned tt.

Definition validatePostContent (content : JsVal) : Outcome unit :=
  if negb (isNonEmptyString content)
  then Thrown (EApp (ValidationError "Post content cannot be empty"))
  else
    match content with
    | JStr s =>
        if MAX_POST_LENGTH <? jsLength s
        then Thrown (EApp (ValidationError "Post content must be less than 280 characters"))
        else Returned tt
    | JOther => Returned tt
    end.

End Validators.

(** ** Records of the store and of the cache *)

(** A timestamp field.  The code stores [Date] objects; after a
    [JSON.parse(JSON.stringify(...))] round trip the same field holds the
    ISO-8601 string of the instant, which has no [getTime] method. *)
Inductive JsTime : Type :=
| TNull
| TDate (ms : Z)
| TIso (ms : Z).

(** Truthiness of a timestamp field: only [null] is falsy. *)
Definition timeTruthy (t : JsTime) : bool :=
  match t with TNull => false | _ => true end.

(** [t === null] *)
Definition timeIsNull (t : JsTime) : bool :=
  match t with TNull => true | _ => false end.

(** [JSON.parse(JSON.stringify(t))] *)
Definition jsonTime (t : JsTime) : JsTime :=
  match t with
  | TNull => TNull
  | TDate ms => TIso ms
  | TIso ms => TIso ms
  end.

Record User : Type := mkUser {
  userId : string;
  email : string;
  displayName : string;
  avatarUrl : string;
  passwordHash : string;
  status : string;
  failedLoginCount : Z;
  lockedUntil : JsTime;
  userCreatedAt : JsTime;
  userDeletedAt : JsTime;
}.

Record Post : Type := mkPost {
  postId : string;
  postUserId : string;
  content : string;
  postCreatedAt : JsTime;
  postDeletedAt : JsTime;
}.

Definition jsonUser (u : User) : User :=
  mkUser (userId u) (email u) (displayName u) (avatarUrl u) (passwordHash u)
    (status u) (failedLoginCount u)
    (jsonTime (lockedUntil u)) (jsonTime (userCreatedAt u)) (jsonTime (userDeletedAt u)).

Definition jsonPost (p : Post) : Post :=
  mkPost (postId p) (postUserId p) (content p)
    (jsonTime (postCreatedAt p)) (jsonTime (postDeletedAt p)).

(** The object literal passed to [DB.updateUser]: [UserModel] only
    ever patches these two fields. *)
Record UserPatch : Type := mkUserPatch {
  patchFailedLoginCount : option Z;
  patchLockedUntil : option JsTime;
}.

Definition applyPatch (u : User) (d : UserPatch) : User :=
  mkUser (userId u) (email u) (displayName u) (avatarUrl u) (passwordHash u)
    (status u)
    (default (failedLoginCount u) (patchFailedLoginCount d))
    (default (lockedUntil u) (patchLockedUntil d))
    (userCreatedAt u) (userDeletedAt u).

Record SafeUser : Type := mkSafeUser {
  suId : string;
  suEmail : string;
  suDisplayName : string;
  suAvatarUrl : string;
}.

Record PublicProfile : Type := mkPublicProfile {
  ppId : string;
  ppDisplayName : string;
  ppAvatarUrl : string;
  ppCreatedAt : JsTime;
}.

(** A cached value.  The cache is untyped: a reader returns whatever it
    finds under its key, and the feed embeds whatever [UserModel.getById]
    returned as the author. *)
#[local] Unset Elimination Schemes.
Inductive CVal : Type :=
| VProfile (p : PublicProfile)
| VProfiles (ps : list PublicProfile)
| VPosts (ps : list Post)
| VPostWithAuthor (p : Post) (author : CVal)
| VFeed (ps : list (Post * CVal)).
#[local] Set Elimination Schemes.

Record CacheItem : Type := mkCacheItem {
  value : CVal;
  expiresAt : Z;
}.

(** Calls of the [DB] object, in the order they were made. *)
Inductive DbCall : Type :=
| CallFindUserByEmail (email : string)
| CallFindUserById (id : string)
| CallFindAllUsers
| CallCreateUser (email : string)
| CallUpdateUser (id : string)
| CallFindPosts
| CallFindPostById (id : string)
| CallCreatePost (userId : string)
| CallSoftDeletePost (id : string)
| CallTransaction.

(** The state of the process: the two module-level arrays of
    [database.service.js], the [Map] of the cache singleton, the calls
    made on [DB] so far, and how many times the clock and the id
    generator have been read. *)
Record World : Type := mkWorld {
  users : list User;
  posts : list Post;
  cache : gmap string CacheItem;
  dbLog : list DbCall;
  clockReads : nat;
  idsDrawn : nat;
}.

Definition setUsers (us : list User) (w : World) : World :=
  mkWorld us (posts w) (cache w) (dbLog w) (clockReads w) (idsDrawn w).
Definition setPosts (ps : list Post) (w : World) : World :=
  mkWorld (users w) ps (cache w) (dbLog w) (clockReads w) (idsDrawn w).
Definition setCache (c : gmap string CacheItem) (w : World) : World :=
  mkWorld (users w) (posts w) c (dbLog w) (clockReads w) (idsDrawn w).
Definition addCall (c : DbCall) (w : World) : World :=
  mkWorld (users w) (posts w) (cache w) (dbLog w ++ [c]) (clockReads w) (idsDrawn w).
Definition tickClock (w : World) : World :=
  mkWorld (users w) (posts w) (cache w) (dbLog w) (S (clockReads w)) (idsDrawn w).
Definition tickIds (w : World) : World :=
  mkWorld (users w) (posts w) (cache w) (dbLog w) (clockReads w) (S (idsDrawn w)).

(** ** The monad of the embedding: state and exceptions.  A thrown
    exception keeps the state reached so far, as in JavaScript. *)
Definition M (A : Type) : Type := World -> Outcome A * World.

Definition ret {A} (a : A) : M A := fun w => (Returned a, w).

Definition bind {A B} (m : M A) (k : A -> M B) : M B :=
  fun w =>
    match m w with
    | (Returned a, w') => k a w'
    | (Thrown e, w') => (Thrown e, w')
    end.

Definition throw {A} (e : Exn) : M A := fun w => (Thrown e, w).

Definition throwApp {A} (e : AppError) : M A := throw (EApp e).

(** [try { m } catch (error) { h(error) }] *)
Definition tryCatch {A} (m : M A) (h : Exn -> M A) : M A :=
  fun w =>
    match m w with
    | (Returned a, w') => (Returned a, w')
    | (Thrown e, w') => h e w'
    end.

Definition getWorld : M World := fun w => (Returned w, w).
Definition modify (f : World -> World) : M unit := fun w => (Returned tt, f w).

(** A validator of [validators.js] run for its exception. *)
Definition liftOutcome {A} (o : Outcome A) : M A := fun w => (o, w).

Fixpoint mapM {A B} (f : A -> M B) (l : list A) : M (list B) :=
  match l with
  | [] => ret []
  | a :: l' => bind (f a) (fun b => bind (mapM f l') (fun bs => ret (b :: bs)))
  end.

Declare Scope js_scope.
Delimit Scope js_scope with js.
Notation "x <- c1 ;; c2" := (bind c1 (fun x => c2))
  (at level 100, c1 at next level, c2 at level 200, right associativity) : js_scope.
Notation "c1 ;; c2" := (bind c1 (fun _ => c2))
  (at level 100, c2 at level 200, right associativity) : js_scope.
Local Open Scope js_scope.

(** ** Helpers for the array methods the store uses *)

(** [l.findIndex(P)], with [None] for -1. *)
Fixpoint findIndex {A} (P : A -> bool) (l : list A) : option nat :=
  match l with
  | [] => None
  | a :: l' => if P a then Some O else option_map S (findIndex P l')
  end.

(** [l.slice(start, end)] for integer arguments. *)
Definition jsSlice {A} (start stop : Z) (l : list A) : list A :=
  let len := Z.of_nat (List.length l) in
  let k := if start <? 0 then Z.max (len + start) 0 else Z.min start len in
  let fin := if stop <? 0 then Z.max (len + stop) 0 else Z.min stop len in
  take (Z.to_nat (fin - k)) (drop (Z.to_nat k) l).

(** Whether [t.getTime()] is defined: on [Date] objects only. *)
Definition isDate (t : JsTime) : bool :=
  match t with TDate _ => true | _ => false end.

(** [new Date(t)] compared as a number: the instant of a [Date] or of
    an ISO string. *)
Definition instantOf (t : JsTime) : Z :=
  match t with TNull => 0 | TDate ms => ms | TIso ms => ms end.

(** Stable insertion of [x] in front of the first element it does not
    compare greater than; [cmp a b] is the comparator's result. *)
Fixpoint insertBy {A} (cmp : A -> A -> Z) (x : A) (l : list A) : list A :=
  match l with
  | [] => [x]
  | y :: l' => if cmp x y <=? 0 then x :: y :: l' else y :: insertBy cmp x l'
  end.

(** [l.sort(cmp)]: [Array.prototype.sort] is stable since ES2019. *)
Fixpoint sortBy {A} (cmp : A -> A -> Z) (l : list A) : list A :=
  match l with
  | [] => []
  | x :: l' => insertBy cmp x (sortBy cmp l')
  end.

(** The options object of [DB.findPosts]. *)
Record FindPostsOptions : Type := mkFindPostsOptions {
  whereUserId : option string;
  whereDeletedAtNull : bool;
  orderByCreatedAt : option string;
  optLimit : option Z;
  optOffset : option Z;
}.

(** The arrow functions the store passes to [find], [findIndex] and
    [filter]. *)
Definition matchesEmail (email_ : string) (u : User) : bool :=
  String.eqb (email u) email_ && negb (timeTruthy (userDeletedAt u)).

Definition hasUserId (id : string) (u : User) : bool := String.eqb (userId u) id.

Definition hasPostId (id : string) (p : Post) : bool := String.eqb (postId p) id.

Definition notDeleted (p : Post) : bool := timeIsNull (postDeletedAt p).

(** The double quote, for the one seed post that contains it. *)
Definition dquote : string := String (ascii_of_nat 34) EmptyString.

(** ** Concrete data for the closed examples

    A toy instance of every parameter, and small stores. *)
Module Demo.

Definition clock (n : nat) : Z := 1700000000000 + 1000 * Z.of_nat n.

Definition uuid (n : nat) : string :=
  "00000000-0000-4000-8000-0000000000"
    +:+ (if (n <? 10)%nat then "0" +:+ pretty n else pretty n).

Definition bcryptHash (password : string) : string := "$2b$12$" +:+ password.

Definition bcryptCompare (password hash : string) : bool :=
  String.eqb (bcryptHash password) hash.

Definition jwtSign (userId email : string) : string :=
  "jwt." +:+ userId +:+ "." +:+ email.

Definition encodeURIComponent (s : string) : string := s.

Definition aliceId : string := "11111111-1111-4111-8111-111111111111".
Definition bobId : string := "22222222-2222-4222-8222-222222222222".

Definition alice : User :=
  mkUser aliceId "alice@example.com" "Alice Chen"
    "https://api.dicebear.com/7.x/avataaars/svg?seed=alice"
    (bcryptHash "password123") "ACTIVE" 0 TNull (TDate 1600000000000) TNull.

Definition bob : User :=
  mkUser bobId "bob@example.com" "Bob Smith"
    "https://api.dicebear.com/7.x/avataaars/svg?seed=bob"
    (bcryptHash "password123") "ACTIVE" 0 TNull (TDate 1600000000001) TNull.

(** Alice after the lock was written: five failures, locked for a
    quarter of an hour from the first clock reading. *)
Definition aliceLocked : User :=
  applyPatch alice (mkUserPatch (Some 5) (Some (TDate (clock 0 + 900000)))).

Definition post1Id : string := "aaaaaaaa-aaaa-4aaa-8aaa-aaaaaaaaaaa1".
Definition post2Id : string := "aaaaaaaa-aaaa-4aaa-8aaa-aaaaaaaaaaa2".

Definition post1 : Post := mkPost post1Id aliceId "first post" (TDate 1650000000000) TNull.
Definition post2 : Post := mkPost post2Id bobId "second post" (TDate 1650000000001) TNull.

Definition world : World := mkWorld [alice; bob] [post1; post2] ∅ [] 0 0.

Definition lockedWorld : World := mkWorld [aliceLocked; bob] [post1; post2] ∅ [] 0 0.

(** A store whose cache holds one entry that expires at the first clock
    reading. *)
Definition cachedItem : CacheItem := mkCacheItem (VProfiles []) (clock 0).

Definition cachedWorld : World :=
  mkWorld [alice; bob] [post1; post2] {[ "users:all" := cachedItem ]} [] 0 0.

(** A store whose cache holds the first page of the feed. *)
Definition feedCachedWorld : World :=
  mkWorld [alice; bob] [post1; post2]
    {[ "posts:feed:page:0" := mkCacheItem (VFeed []) (clock 9) ]} [] 0 0.

(** An id generator that is injective on all of [nat]. *)
Definition serial (n : nat) : string := "id-" +:+ pretty n.

(** The process at its start: nothing stored, nothing cached. *)
Definition emptyWorld : World := mkWorld [] [] ∅ [] 0 0.

(** Alice after a lockout whose lock has expired before the first clock
    reading. *)
Definition aliceExpired : User :=
  applyPatch alice (mkUserPatch (Some 5) (Some (TDate (clock 0 - 1)))).

Definition expiredWorld : World := mkWorld [aliceExpired; bob] [post1; post2] ∅ [] 0 0.

(** A cache that holds Bob's profile, the list of users, Bob's first
    page and the first page of the feed. *)
Definition busyCache : gmap string CacheItem :=
  {[ "user:" +:+ bobId := mkCacheItem (VProfiles []) (clock 9);
     "users:all" := mkCacheItem (VProfiles []) (clock 9);
     "posts:user:" +:+ bobId +:+ ":page:0" := mkCacheItem (VPosts []) (clock 9);
     "posts:feed:page:0" := mkCacheItem (VFeed []) (clock 9) ]}.

Definition busyWorld : World := mkWorld [alice; bob] [post1; post2] busyCache [] 0 0.

End Demo.

Section Backend.

(** The [n]-th value read from the system clock, in milliseconds. *)
Variable clock : nat -> Z.
(** The [n]-th identifier returned by [crypto.randomUUID]. *)
Variable uuid : nat -> string.
(** [bcrypt.compare], with a rejected promise read as [false]. *)
Variable bcryptCompare : string -> string -> bool.
(** [bcrypt.hash] at the configured number of rounds. *)
Variable bcryptHash : string -> string.
(** [jwt.sign] of the payload [{userId, email}] with the configured
    secret and options.  The library also stamps the time of the call
    ([iat], [exp]) into the token, which this function of the payload
    leaves out: it stands for the token issued at one moment, and the
    statements compare the tokens of calls made at the same moment
    only. *)
Variable jwtSign : string -> string -> string.
(** The built-in [encodeURIComponent]. *)
Variable encodeURIComponent : string -> string.
Variable config : Env.Config.

(** *** [services/crypto.service.js] *)

Definition Date_now : M Z :=
  fun w => (Returned (clock (clockReads w)), tickClock w).

Definition generateId : M string :=
  fun w => (Returned (uuid (idsDrawn w)), tickIds w).

Definition hashPassword (password : string) : M string :=
  ret (bcryptHash password).

Definition verifyPassword (password hash : string) : bool :=
  bcryptCompare password hash.

Definition DUMMY_PASSWORD_HASH : string :=
  "$2b$12$dummyhashfortimingatttackpreventionxxxxxxxxxxxxxxxxxxxxxx".

Definition generateToken (userId email : string) : string :=
  jwtSign userId email.

(** *** [services/database.service.js] *)

Definition hours (n : Z) : Z := n * 60 * 60 * 1000.
Definition days (n : Z) : Z := n * 24 * 60 * 60 * 1000.

Definition seedUser (id email name seed hash : string) (createdAt : Z) : User :=
  mkUser id email name
    ("https://api.dicebear.com/7.x/avataaars/svg?seed=" +:+ seed)
    hash "ACTIVE" 0 TNull (TDate createdAt) TNull.

(** The emoji that end two of the seed texts are kept as their UTF-8
    bytes; nothing below depends on the seed texts. *)
Definition initializeData : M unit :=
  w <- getWorld ;;
  if 0 <? Z.of_nat (List.length (users w)) then ret tt
  else
    now <- Date_now ;;
    passwordHash <- hashPassword "password123" ;;
    u0 <- generateId ;;
    u1 <- generateId ;;
    u2 <- generateId ;;
    modify (setUsers
      [ seedUser u0 "alice@example.com" "Alice Chen" "alice" passwordHash (now - days 30);
        seedUser u1 "bob@example.com" "Bob Smith" "bob" passwordHash (now - days 25);
        seedUser u2 "charlie@example.com" "Charlie Davis" "charlie" passwordHash (now - days 20) ]) ;;
    p0 <- generateId ;;
    p1 <- generateId ;;
    p2 <- generateId ;;
    p3 <- generateId ;;
    p4 <- generateId ;;
    modify (setPosts
      [ mkPost p0 u0
          "Just deployed my first microservice! The architecture is clean and scalable. 🚀"
          (TDate (now - hours 2)) TNull;
        mkPost p1 u1
          "TypeScript + React is such a powerful combination for building modern web apps."
          (TDate (now - hours 5)) TNull;
        mkPost p2 u0
          "Remember: Clean code is not about making code shorter, it's about making it clearer."
          (TDate (now - hours 24)) TNull;
        mkPost p3 u2
          ("Just finished reading " +:+ dquote +:+ "Clean Architecture" +:+ dquote
             +:+ " by Robert Martin. Highly recommended!")
          (TDate (now - hours 48)) TNull;
        mkPost p4 u1
          "Cache invalidation and naming things - the two hardest problems in computer science. 😅"
          (TDate (now - hours 72)) TNull ]).

Definition DB_findUserByEmail (email_ : string) : M (option User) :=
  modify (addCall (CallFindUserByEmail email_)) ;;
  initializeData ;;
  w <- getWorld ;;
  ret (List.find (matchesEmail email_) (users w)).

(** [whereNotDeleted] is the option [{ where: { deletedAt: null } }]. *)
Definition DB_findUserById (id : string) (whereNotDeleted : bool) : M (option User) :=
  modify (addCall (CallFindUserById id)) ;;
  initializeData ;;
  w <- getWorld ;;
  ret (List.find
         (fun u =>
            if negb (hasUserId id u) then false
            else if whereNotDeleted && negb (timeIsNull (userDeletedAt u)) then false
            else true)
         (users w)).

Definition DB_findAllUsers : M (list User) :=
  modify (addCall CallFindAllUsers) ;;
  initializeData ;;
  w <- getWorld ;;
  ret (List.filter (fun u => negb (timeTruthy (userDeletedAt u))) (users w)).

Definition DB_createUser (email_ displayName_ passwordHash_ status_ avatarUrl_ : string)
  : M User :=
  modify (addCall (CallCreateUser email_)) ;;
  initializeData ;;
  id <- generateId ;;
  now <- Date_now ;;
  let newUser :=
    mkUser id email_ displayName_ avatarUrl_ passwordHash_ status_ 0 TNull (TDate now) TNull in
  w <- getWorld ;;
  modify (setUsers (users w ++ [newUser])) ;;
  ret newUser.

Definition DB_updateUser (id : string) (data : UserPatch) : M (option User) :=
  modify (addCall (CallUpdateUser id)) ;;
  initializeData ;;
  w <- getWorld ;;
  match findIndex (hasUserId id) (users w) with
  | None => ret None
  | Some index =>
      match users w !! index with
      | None => ret None
      | Some u =>
          let u' := applyPatch u data in
          modify (setUsers (<[index := u']> (users w))) ;;
          ret (Some u')
      end
  end.

(** The comparator of [DB.findPosts]: [diff] for ['ASC'], [-diff] for
    any other order.  It calls [getTime] on both [createdAt] fields, so
    sorting two or more posts throws a [TypeError] as soon as one of
    them does not hold a [Date]: every element of such an array takes
    part in a comparison.  With fewer than two elements the comparator
    is never called.  The message of the [TypeError] names the operand
    the engine meets first; [DB_findPosts] keeps the one for [a]. *)
Definition compareCreatedAt (order : string) (a b : Post) : Z :=
  let diff := instantOf (postCreatedAt a) - instantOf (postCreatedAt b) in
  if String.eqb order "ASC" then diff else - diff.

Definition DB_findPosts (options : FindPostsOptions) : M (list Post) :=
  modify (addCall CallFindPosts) ;;
  initializeData ;;
  w <- getWorld ;;
  let result := posts w in
  let result :=
    match whereUserId options with
    | Some uid =>
        if String.eqb uid "" then result
        else List.filter (fun p => String.eqb (postUserId p) uid) result
    | None => result
    end in
  let result :=
    if whereDeletedAtNull options
    then List.filter notDeleted result
    else result in
  sorted <-
    match orderByCreatedAt options with
    | Some order =>
        if String.eqb order "" then ret result
        else if (2 <=? Z.of_nat (List.length result))
                && existsb (fun p => negb (isDate (postCreatedAt p))) result
        then throw (ETypeError "a.createdAt.getTime is not a function")
        else ret (sortBy (compareCreatedAt order) result)
    | None => ret result
    end ;;
  let offset := default 0 (optOffset options) in
  let limit := default 20 (optLimit options) in
  ret (jsSlice offset (offset + limit) sorted).

Definition DB_findPostById (id : string) : M (option Post) :=
  modify (addCall (CallFindPostById id)) ;;
  initializeData ;;
  w <- getWorld ;;
  ret (List.find (hasPostId id) (posts w)).

Definition DB_createPost (userId_ content_ : string) : M Post :=
  modify (addCall (CallCreatePost userId_)) ;;
  initializeData ;;
  id <- generateId ;;
  now <- Date_now ;;
  let newPost := mkPost id userId_ content_ (TDate now) TNull in
  w <- getWorld ;;
  modify (setPosts (posts w ++ [newPost])) ;;
  ret newPost.

Definition DB_softDeletePost (id : string) : M unit :=
  modify (addCall (CallSoftDeletePost id)) ;;
  initializeData ;;
  w <- getWorld ;;
  match findIndex (hasPostId id) (posts w) with
  | None => ret tt
  | Some index =>
      match posts w !! index with
      | None => ret tt
      | Some p =>
          now <- Date_now ;;
          modify (setPosts
            (<[index := mkPost (postId p) (postUserId p) (content p)
                          (postCreatedAt p) (TDate now)]> (posts w)))
      end
  end.

(** The write handle passed to a transaction callback. *)
Record Tx : Type := mkTx {
  tx_userExists : string -> M bool;
  tx_insertPost : string -> string -> M Post;
  tx_findPostByIdForUpdate : string -> M (option Post);
  tx_softDeletePost : string -> M unit;
}.

Definition theTx : Tx :=
  {| tx_userExists := fun userId_ =>
       w <- getWorld ;;
       ret (existsb
              (fun u => hasUserId userId_ u
                        && negb (timeTruthy (userDeletedAt u))
                        && String.eqb (status u) "ACTIVE")
              (users w));
     tx_insertPost := DB_createPost;
     tx_findPostByIdForUpdate := DB_findPostById;
     tx_softDeletePost := DB_softDeletePost |}.

Definition DB_transaction {A} (callback : Tx -> M A) : M A :=
  modify (addCall CallTransaction) ;;
  initializeData ;;
  w0 <- getWorld ;;
  let postSnapshot := map jsonPost (posts w0) in
  let userSnapshot := map jsonUser (users w0) in
  tryCatch (callback theTx)
    (fun error =>
       modify (setPosts postSnapshot) ;;
       modify (setUsers userSnapshot) ;;
       throw error).

(** *** [services/cache.service.js] *)

(** [this.ttl], in milliseconds. *)
Definition cacheTtlMs : Z := Env.cacheTTL config * 1000.

Definition cache_get (key : string) : M (option CVal) :=
  w <- getWorld ;;
  match cache w !! key with
  | None => ret None
  | Some item =>
      now <- Date_now ;;
      if expiresAt item <? now
      then modify (fun w => setCache (delete key (cache w)) w) ;; ret None
      else ret (Some (value item))
  end.

Definition cache_set (key : string) (v : CVal) (customTTL : option Z) : M unit :=
  let ttlMs :=
    match customTTL with
    | Some t => if t =? 0 then cacheTtlMs else t * 1000
    | None => cacheTtlMs
    end in
  now <- Date_now ;;
  modify (fun w => setCache (<[key := mkCacheItem v (now + ttlMs)]> (cache w)) w).

Definition cache_delete (key : string) : M unit :=
  modify (fun w => setCache (delete key (cache w)) w).

(** Deleting the current key while iterating over [Map.keys()] is
    safe, so the loop removes exactly the keys the expression finds. *)
Definition cache_deletePattern (pattern : string) : M unit :=
  match Regex.parse (JsStr.replaceFirstStar pattern) with
  | None => throw (EUnmodelled "RegExp source outside the modelled fragment")
  | Some regex =>
      modify (fun w =>
        setCache (filter (fun kv => Regex.test regex kv.1 = false) (cache w)) w)
  end.

Definition cacheKeys_user (userId_ : string) : string := "user:" +:+ userId_.
Definition cacheKeys_allUsers : string := "users:all".
Definition cacheKeys_userPosts (userId_ : string) (page : Z) : string :=
  "posts:user:" +:+ userId_ +:+ ":page:" +:+ pretty page.
Definition cacheKeys_post (postId_ : string) : string := "post:" +:+ postId_.
Definition cacheKeys_feed (page : Z) : string := "posts:feed:page:" +:+ pretty page.

(** The read path every cached accessor spells out:
    [cached = await cache.get(key); if (cached) return cached;]
    then the load from the store, [await cache.set(key, v); return v].
    Every cached value is an object or an array, hence truthy. *)
Definition cacheAside (key : string) (loader : M CVal) : M CVal :=
  cached <- cache_get key ;;
  match cached with
  | Some v => ret v
  | None =>
      v <- loader ;;
      cache_set key v None ;;
      ret v
  end.

(** *** [models/User.model.js] *)

Record AuthResult : Type := mkAuthResult {
  arUser : SafeUser;
  arToken : string;
}.

Definition toSafeUser (u : User) : SafeUser :=
  mkSafeUser (userId u) (email u) (displayName u) (avatarUrl u).

Definition toPublicProfile (u : User) : PublicProfile :=
  mkPublicProfile (userId u) (displayName u) (avatarUrl u) (userCreatedAt u).

Definition recordFailedLogin (userId_ : string) : M unit :=
  found <- DB_findUserById userId_ false ;;
  match found with
  | None => ret tt
  | Some user =>
      let newCount := failedLoginCount user + 1 in
      updates <-
        (if Env.maxFailedLoginAttempts config <=? newCount
         then
           now <- Date_now ;;
           ret (mkUserPatch (Some newCount)
                  (Some (TDate (now + Env.accountLockoutDurationMs config))))
         else ret (mkUserPatch (Some newCount) None)) ;;
      DB_updateUser userId_ updates ;;
      ret tt
  end.

Definition resetFailedLogin (userId_ : string) : M unit :=
  DB_updateUser userId_ (mkUserPatch (Some 0) (Some TNull)) ;;
  ret tt.

(** [email.toLowerCase().trim()] *)
Definition normalizeEmail (e : string) : string := JsStr.trim (JsStr.toLowerCase e).

Definition authenticate (email_ password : JsVal) : M AuthResult :=
  liftOutcome (Validators.validateLogin email_ password) ;;
  match email_, password with
  | JStr e, JStr pw =>
      let normalizedEmail := normalizeEmail e in
      user <- DB_findUserByEmail normalizedEmail ;;
      let hash :=
        match user with
        | Some u => passwordHash u
        | None => DUMMY_PASSWORD_HASH
        end in
      let isValidPassword := verifyPassword pw hash in
      locked <-
        match user with
        | Some u =>
            if timeTruthy (lockedUntil u)
            then now <- Date_now ;; ret (now <? instantOf (lockedUntil u))
            else ret false
        | None => ret false
        end ;;
      if (locked : bool) then throwApp AccountLockedError_default
      else
        match user with
        | None => throwApp InvalidCredentialsError_default
        | Some u =>
            if negb (String.eqb (status u) "ACTIVE") || negb isValidPassword
            then
              recordFailedLogin (userId u) ;;
              throwApp InvalidCredentialsError_default
            else
              resetFailedLogin (userId u) ;;
              ret (mkAuthResult (toSafeUser u) (generateToken (userId u) (email u)))
        end
  | _, _ => throw (ETypeError "email.toLowerCase is not a function")
  end.

Definition register (email_ password displayName_ : JsVal) : M AuthResult :=
  liftOutcome (Validators.validateRegistration email_ password displayName_) ;;
  match email_, password, displayName_ with
  | JStr e, JStr pw, JStr dn =>
      let normalizedEmail := normalizeEmail e in
      existingUser <- DB_findUserByEmail normalizedEmail ;;
      match existingUser with
      | Some _ => throwApp (ConflictError "Email already registered")
      | None =>
          hash <- hashPassword pw ;;
          user <- DB_createUser normalizedEmail (JsStr.trim dn) hash "ACTIVE"
                    ("https://api.dicebear.com/7.x/avataaars/svg?seed="
                       +:+ encodeURIComponent dn) ;;
          cache_delete cacheKeys_allUsers ;;
          ret (mkAuthResult (toSafeUser user) (generateToken (userId user) (email user)))
      end
  | _, _, _ => throw (ETypeError "email.toLowerCase is not a function")
  end.

Definition UserModel_getById (id : string) : M CVal :=
  if negb (Validators.isValidId (JStr id))
  then throwApp (ValidationError "Invalid user ID")
  else
    cacheAside (cacheKeys_user id)
      (found <- DB_findUserById id true ;;
       match found with
       | None => throwApp (NotFoundError "User")
       | Some user => ret (VProfile (toPublicProfile user))
       end).

Definition UserModel_getAll : M CVal :=
  cacheAside cacheKeys_allUsers
    (us <- DB_findAllUsers ;;
     ret (VProfiles (map toPublicProfile us))).

(** *** [models/Post.model.js] *)

(** The page number is [Math.floor(offset / limit)], a computation on
    doubles, printed by [String] in the key.  It is the integer quotient
    and its decimal digits for every offset up to
    [Number.MAX_SAFE_INTEGER], the limit being between 1 and 100. *)
Definition PostModel_getByUserId (userId_ : string) (limit offset : JsNum)
    (order : option JsVal) : M CVal :=
  if negb (Validators.isValidId (JStr userId_))
  then throwApp (ValidationError "Invalid userId")
  else
    pg <- liftOutcome (Validators.validatePagination limit offset order) ;;
    let page := Validators.pgOffset pg / Validators.pgLimit pg in
    cacheAside (cacheKeys_userPosts userId_ page)
      (ps <- DB_findPosts
               (mkFindPostsOptions (Some userId_) true (Some (Validators.pgOrder pg))
                  (Some (Validators.pgLimit pg)) (Some (Validators.pgOffset pg))) ;;
       ret (VPosts ps)).

(** The author look-ups of the feed are run one after the other.
    [Promise.all] starts them together: that changes the order of the
    entries in the log of calls and the clock readings stamped on the
    cached profiles, not the values looked up.  The page number is
    computed as in [getByUserId]. *)
Definition PostModel_getAllWithAuthors (limit offset : JsNum) (order : option JsVal)
  : M CVal :=
  pg <- liftOutcome (Validators.validatePagination limit offset order) ;;
  let page := Validators.pgOffset pg / Validators.pgLimit pg in
  cacheAside (cacheKeys_feed page)
    (ps <- DB_findPosts
             (mkFindPostsOptions None true (Some (Validators.pgOrder pg))
                (Some (Validators.pgLimit pg)) (Some (Validators.pgOffset pg))) ;;
     postsWithAuthors <-
       mapM (fun post =>
               tryCatch
                 (author <- UserModel_getById (postUserId post) ;;
                  ret (Some (post, author)))
                 (fun _ => ret None))
            ps ;;
     let validPosts := omap id postsWithAuthors in
     ret (VFeed validPosts)).

Definition PostModel_getById (postId_ : string) : M CVal :=
  if negb (Validators.isValidId (JStr postId_))
  then throwApp (ValidationError "Invalid post ID")
  else
    cacheAside (cacheKeys_post postId_)
      (found <- DB_findPostById postId_ ;;
       match found with
       | None => throwApp (NotFoundError "Post")
       | Some post =>
           if timeTruthy (postDeletedAt post) then throwApp (NotFoundError "Post")
           else
             author <- UserModel_getById (postUserId post) ;;
             ret (VPostWithAuthor post author)
       end).

Definition PostModel_create (userId_ : string) (content_ : JsVal) : M Post :=
  if negb (Validators.isValidId (JStr userId_))
  then throwApp (ValidationError "Invalid userId")
  else
    liftOutcome (Validators.validatePostContent content_) ;;
    let sanitizedContent := Validators.sanitizeText content_ in
    post <- DB_transaction (fun tx =>
      userExists <- tx_userExists tx userId_ ;;
      if negb userExists then throwApp (NotFoundError "User")
      else
        newPost <- tx_insertPost tx userId_ sanitizedContent ;;
        ret newPost) ;;
    cache_deletePattern ("posts:user:" +:+ userId_ +:+ ":*") ;;
    cache_deletePattern "posts:feed:*" ;;
    ret post.

Definition PostModel_deleteOwned (postId_ userId_ : string) : M bool :=
  if negb (Validators.isValidId (JStr postId_)) || negb (Validators.isValidId (JStr userId_))
  then throwApp (ValidationError "Invalid post or user ID")
  else
    result <- DB_transaction (fun tx =>
      found <- tx_findPostByIdForUpdate tx postId_ ;;
      match found with
      | None => throwApp (NotFoundError "Post")
      | Some post =>
          if timeTruthy (postDeletedAt post) then throwApp (NotFoundError "Post")
          else if negb (String.eqb (postUserId post) userId_)
          then throwApp (ForbiddenError "You can only delete your own posts")
          else
            tx_softDeletePost tx postId_ ;;
            ret true
      end) ;;
    cache_delete (cacheKeys_post postId_) ;;
    cache_deletePattern ("posts:user:" +:+ userId_ +:+ ":*") ;;
    cache_deletePattern "posts:feed:*" ;;
    ret result.

(** *** More of [services/cache.service.js] *)

Definition cache_clear : M unit :=
  modify (fun w => setCache ∅ w).

(** [{ size, ttl }], the second in seconds. *)
Record CacheStats : Type := mkCacheStats {
  statSize : Z;
  statTtl : Z;
}.

Definition cache_getStats : M CacheStats :=
  w <- getWorld ;;
  ret (mkCacheStats (Z.of_nat (size (cache w))) (cacheTtlMs / 1000)).

(** *** More of [services/database.service.js] *)

(** [DB.findOnePost]: the options with [limit: 1], and [results[0] ||
    null]. *)
Definition DB_findOnePost (options : FindPostsOptions) : M (option Post) :=
  results <- DB_findPosts
               (mkFindPostsOptions (whereUserId options) (whereDeletedAtNull options)
                  (orderByCreatedAt options) (Some 1) (optOffset options)) ;;
  ret (head results).

(** [{ users, posts, activePosts }] *)
Record DbStats : Type := mkDbStats {
  statUsers : Z;
  statPosts : Z;
  statActivePosts : Z;
}.

Definition getDbStats : M DbStats :=
  w <- getWorld ;;
  ret (mkDbStats
         (Z.of_nat (List.length (users w)))
         (Z.of_nat (List.length (posts w)))
         (Z.of_nat (List.length
                      (List.filter (fun p => negb (timeTruthy (postDeletedAt p))) (posts w))))).

(** ** Vocabulary of the statements *)

(** The effect of [DB.updateUser] on the array when ids are unique. *)
Definition patchUserById (id : string) (d : UserPatch) (us : list User) : list User :=
  map (fun x => if hasUserId id x then applyPatch x d else x) us.


(** Whether the lock check of [authenticate] fires for the record [u]
    when the clock shows [now]. *)
Definition lockedAt (now : Z) (u : User) : bool :=
  timeTruthy (lockedUntil u) && (now <? instantOf (lockedUntil u)).



(** A key matches the glob [pre*]. *)
Definition hasPrefix (pre key : string) : Prop := exists rest, key = pre +:+ rest.

(** The expression that matches the code units [l] and then [r]. *)
Definition litThen (l : list ascii) (r : Regex.regex) : Regex.regex :=
  fold_right (fun c acc => Regex.Cat (Regex.chr c) acc) r l.

(** A code unit that stands for itself in a pattern. *)
Definition plainChar (c : ascii) : Prop := Regex.is_syntax_char c = false.

(** The code units a [UUID_REGEX] match is made of. *)
Definition uuidChar (c : ascii) : bool := Validators.hexDigit c || Ascii.eqb c "-".

(** The record [softDeletePost] writes in place of [p]. *)
Definition markDeleted (now : Z) (p : Post) : Post :=
  mkPost (postId p) (postUserId p) (content p) (postCreatedAt p) (TDate now).

(** The literal part of the two patterns the post model deletes by. *)
Definition feedPrefix : list ascii := JsStr.chars "posts:feed:".

Definition userPostsPrefix (userId_ : string) : list ascii :=
  JsStr.chars "posts:user:" ++ JsStr.chars userId_ ++ [":"%char].

(** The entries [deletePattern] keeps for the pattern [l*]. *)
Definition keptBy (l : list ascii) (kv : string * CacheItem) : Prop :=
  Regex.test (litThen l (Regex.Cat (Regex.Star Regex.dot) Regex.Eps)) kv.1 = false.

#[local] Instance keptBy_dec (l : list ascii) (kv : string * CacheItem) :
  Decision (keptBy l kv) := bool_eq_dec _ _.

(** The cache after the two pattern deletions of a post write. *)
Definition invalidatePosts (userId_ : string) (m : gmap string CacheItem)
  : gmap string CacheItem :=
  filter (keptBy feedPrefix) (filter (keptBy (userPostsPrefix userId_)) m).

(** The post records a cached value carries. *)
Definition postsOf (v : CVal) : list Post :=
  match v with
  | VPosts ps => ps
  | VPostWithAuthor p _ => [p]
  | VFeed ps => map fst ps
  | VProfile _ | VProfiles _ => []
  end.

(** The value shows the post with id [pid]. *)
Definition mentions (pid : string) (v : CVal) : Prop :=
  In pid (map postId (postsOf v)).

(** The keys under which the readers cache a copy of the post [q]. *)
Definition keyCovers (q : Post) (key : string) : Prop :=
  key = cacheKeys_post (postId q)
  \/ hasPrefix "posts:feed:" key
  \/ hasPrefix ("posts:user:" +:+ postUserId q +:+ ":") key.

(** Every copy of a post in the cache sits under one of its keys and
    has the id and the author of a record of the store. *)
Definition CacheCoherent (w : World) : Prop :=
  forall (key : string) (item : CacheItem) (q : Post),
    cache w !! key = Some item ->
    In q (postsOf (value item)) ->
    keyCovers q key
    /\ exists p, In p (posts w) /\ postId p = postId q /\ postUserId p = postUserId q.

(** Every post the value [v] carries may be cached under [key] and is a
    copy of a record of [P0]. *)
Definition Covered (P0 : list Post) (key : string) (v : CVal) : Prop :=
  forall q, In q (postsOf v) ->
    keyCovers q key
    /\ exists p, In p P0 /\ postId p = postId q /\ postUserId p = postUserId q.

(** A seeded store whose posts are [P0] and whose cache is coherent. *)
Definition Settled (P0 : list Post) (w : World) : Prop :=
  users w <> [] /\ posts w = P0 /\ CacheCoherent w.

(** The post with id [pid] is marked deleted in the store and no cached
    value shows it. *)
Definition Gone (pid : string) (w : World) : Prop :=
  users w <> []
  /\ (forall q, In q (posts w) -> postId q = pid -> postDeletedAt q <> TNull)
  /\ (forall key item, cache w !! key = Some item -> ~ mentions pid (value item)).

(** A read of the public interface. *)
Inductive Read : Type :=
| ReadFeed (limit offset : JsNum) (order : option JsVal)
| ReadUserPosts (userId_ : string) (limit offset : JsNum) (order : option JsVal)
| ReadPost (postId_ : string)
| ReadUser (userId_ : string)
| ReadAllUsers.

Definition runRead (r : Read) : M CVal :=
  match r with
  | ReadFeed limit offset order => PostModel_getAllWithAuthors limit offset order
  | ReadUserPosts userId_ limit offset order =>
      PostModel_getByUserId userId_ limit offset order
  | ReadPost postId_ => PostModel_getById postId_
  | ReadUser userId_ => UserModel_getById userId_
  | ReadAllUsers => UserModel_getAll
  end.

Fixpoint runReads (rs : list Read) (w : World) : list (Outcome CVal) * World :=
  match rs with
  | [] => ([], w)
  | r :: rest =>
      let (o, w1) := runRead r w in
      let (os, w2) := runReads rest w1 in
      (o :: os, w2)
  end.

(** [m] preserves the invariant [I], and what it returns satisfies
    [Q]. *)
Definition Keeps {A} (I : World -> Prop) (m : M A) (Q : A -> Prop) : Prop :=
  forall w, I w ->
    I (snd (m w)) /\ forall a, fst (m w) = Returned a -> Q a.

(** The key holds an entry that has not expired at the next clock
    reading. *)
Definition freshEntry (key : string) (w : World) : Prop :=
  exists item, cache w !! key = Some item /\ clock (clockReads w) <= expiresAt item.

(** The state [cache.get] leaves behind on a miss: an expired entry is
    evicted, which costs one clock reading. *)
Definition afterMiss (key : string) (w : World) : World :=
  match cache w !! key with
  | Some _ => setCache (delete key (cache w)) (tickClock w)
  | None => w
  end.

(** The loader's result put in the cache with the configured TTL. *)
Definition storeLoaded (key : string) (r : Outcome CVal * World) : Outcome CVal * World :=
  match r with
  | (Returned v, w2) =>
      (Returned v,
       setCache
         (<[key := mkCacheItem v (clock (clockReads w2) + Env.cacheTTL config * 1000)]>
            (cache w2))
         (tickClock w2))
  | (Thrown e, w2) => (Thrown e, w2)
  end.

(** The shape [collapseSpaces] leaves behind: the only white space is
    the space character, never twice in a row; [inRun] tells that the
    previous code unit was a space. *)
Fixpoint singleSpaced (inRun : bool) (l : list ascii) : bool :=
  match l with
  | [] => true
  | c :: l' =>
      if JsStr.is_space c
      then negb inRun && Ascii.eqb c " " && singleSpaced true l'
      else singleSpaced false l'
  end.

(** The class [[<>]]. *)
Definition isAngle (c : ascii) : bool := Ascii.eqb c "<" || Ascii.eqb c ">".

(** The code units [l] occur, one after the other, somewhere in [key]. *)
Definition containsL (l : list ascii) (key : string) : Prop :=
  exists pre post, JsStr.chars key = pre ++ l ++ post.

(** [l] is what [s] begins with. *)
Fixpoint startsWithL (l s : list ascii) : Prop :=
  match l, s with
  | [], _ => True
  | c :: l', a :: s' => c = a /\ startsWithL l' s'
  | _ :: _, [] => False
  end.

(** [l] begins at some position of [s]. *)
Fixpoint occursInL (l s : list ascii) : Prop :=
  startsWithL l s
  \/ match s with
     | [] => False
     | _ :: s' => occursInL l s'
     end.

(** The decimal digits and the minus sign, of which [String(n)] is made
    for an integer [n] below 10^21 in absolute value. *)
Definition isNumeralChar (c : ascii) : bool :=
  let n := JsStr.code c in ((48 <=? n)%N && (n <=? 57)%N) || (n =? 45)%N.

(** The keys a write to the posts of [userId_] has no reason to touch:
    the profile keys, the key of a single post, and the pages of the
    other users. *)
Definition unrelatedKey (userId_ key : string) : Prop :=
  (exists id, Validators.isValidId (JStr id) = true /\ key = cacheKeys_user id)
  \/ key = cacheKeys_allUsers
  \/ (exists id, Validators.isValidId (JStr id) = true /\ key = cacheKeys_post id)
  \/ (exists other page,
        Validators.isValidId (JStr other) = true /\ other <> userId_
        /\ key = cacheKeys_userPosts other page).

(** The [where] part of the options of [DB.findPosts], as one test. *)
Definition matchesOptions (o : FindPostsOptions) (p : Post) : bool :=
  match whereUserId o with
  | Some uid => String.eqb uid "" || String.eqb (postUserId p) uid
  | None => true
  end
  && (negb (whereDeletedAtNull o) || notDeleted p).

(** [p] may come before [q] in a listing ordered by [createdAt]:
    oldest first for ['ASC'], newest first otherwise. *)
Definition inOrder (order : string) (p q : Post) : Prop :=
  if String.eqb order "ASC"
  then instantOf (postCreatedAt p) <= instantOf (postCreatedAt q)
  else instantOf (postCreatedAt q) <= instantOf (postCreatedAt p).

(** Every class of the expression gives the same answer on [c] and on
    [f c]. *)
Fixpoint classesRespect (f : ascii -> ascii) (r : Regex.regex) : Prop :=
  match r with
  | Regex.Void | Regex.Eps => True
  | Regex.Cls p => forall c, p (f c) = p c
  | Regex.Cat r1 r2 | Regex.Alt r1 r2 => classesRespect f r1 /\ classesRespect f r2
  | Regex.Star r1 => classesRespect f r1
  end.

(** The record [register] stores for valid input: the [n]-th identifier
    and the clock reading [now]. *)
Definition registeredUser (e pw dn : string) (id : string) (now : Z) : User :=
  mkUser id (normalizeEmail e) (JsStr.trim dn)
    ("https://api.dicebear.com/7.x/avataaars/svg?seed=" +:+ encodeURIComponent dn)
    (bcryptHash pw) "ACTIVE" 0 TNull (TDate now) TNull.

(** The test of [tx.userExists]: the record has the id, is not deleted
    and is ACTIVE. *)
Definition liveActiveUser (userId_ : string) (u : User) : bool :=
  hasUserId userId_ u && negb (timeTruthy (userDeletedAt u)) && String.eqb (status u) "ACTIVE".

(** The record [create] stores: the next identifier, the sanitized
    content, the clock reading. *)
Definition createdPost (userId_ : string) (content_ : JsVal) (w : World) : Post :=
  mkPost (uuid (idsDrawn w)) userId_ (Validators.sanitizeText content_)
    (TDate (clock (clockReads w))) TNull.

(** The two arrays after a rollback. *)
Definition rolledBack (w0 w : World) : Prop :=
  users w = map jsonUser (users w0) /\ posts w = map jsonPost (posts w0).

(** What [getDbStats] reports in the state [w]. *)
Definition statsOf (w : World) : DbStats :=
  mkDbStats
    (Z.of_nat (List.length (users w)))
    (Z.of_nat (List.length (posts w)))
    (Z.of_nat (List.length
                 (List.filter (fun p => negb (timeTruthy (postDeletedAt p))) (posts w)))).

(** A record that is not deleted. *)
Definition isLive (u : User) : bool := negb (timeTruthy (userDeletedAt u)).

(** The addresses of the live records, in store order. *)
Definition liveEmails (us : list User) : list string := map email (List.filter isLive us).

(** What the consistency of the store depends on: of a user the id, the
    address and whether the record is deleted; of a post the id and the
    author. *)
Definition userShape (u : User) : string * string * bool :=
  (userId u, email u, timeTruthy (userDeletedAt u)).
Definition postShape (p : Post) : string * string := (postId p, postUserId p).

(** A store of that shape is consistent when every author is the id of
    a user, the live addresses are pairwise distinct, every address is
    in the form [normalizeEmail] gives, and the ids of users and posts
    were drawn at pairwise distinct readings of the id generator, among
    the first [n]. *)
Definition OkShape (us : list (string * string * bool)) (ps : list (string * string)) (n : nat)
  : Prop :=
  Forall (fun s => In s.2 (map (fun t => t.1.1) us)) ps
  /\ NoDup (map (fun t => t.1.2) (List.filter (fun t => negb t.2) us))
  /\ Forall (fun t => normalizeEmail t.1.2 = t.1.2) us
  /\ exists idxs : list nat,
       NoDup idxs
       /\ Forall (fun i => (i < n)%nat) idxs
       /\ Permutation (map (fun t => t.1.1) us ++ map fst ps) (map uuid idxs).

Definition StoreOk (w : World) : Prop :=
  OkShape (map userShape (users w)) (map postShape (posts w)) (idsDrawn w).

(** A request to the models, as a controller issues it. *)
Inductive Request : Type :=
| ReqRegister (email_ password displayName_ : JsVal)
| ReqLogin (email_ password : JsVal)
| ReqCreatePost (userId_ : string) (content_ : JsVal)
| ReqDeletePost (postId_ userId_ : string)
| ReqRead (r : Read).

(** The state a request leaves, whatever its outcome. *)
Definition handle (rq : Request) (w : World) : World :=
  match rq with
  | ReqRegister e pw dn => snd (register e pw dn w)
  | ReqLogin e pw => snd (authenticate e pw w)
  | ReqCreatePost uid c => snd (PostModel_create uid c w)
  | ReqDeletePost pid uid => snd (PostModel_deleteOwned pid uid w)
  | ReqRead r => snd (runRead r w)
  end.

Definition handleAll (rqs : list Request) (w : World) : World :=
  fold_left (fun w rq => handle rq w) rqs w.

(** The test of [DB.findUserById] with [deletedAt: null]. *)
Definition liveWithId (id : string) (u : User) : bool :=
  hasUserId id u && timeIsNull (userDeletedAt u).

(** What [UserModel.getById] loads for a well-formed id: the public
    profile of the first record with that id that is not deleted. *)
Definition authorOf (us : list User) (userId_ : string) : option CVal :=
  if Validators.isValidId (JStr userId_)
  then option_map (fun u => VProfile (toPublicProfile u)) (List.find (liveWithId userId_) us)
  else None.

(** What it throws where the store gives no author. *)
Definition authorError (userId_ : string) : Exn :=
  EApp (if Validators.isValidId (JStr userId_)
        then NotFoundError "User"
        else ValidationError "Invalid user ID").

(** An element of the feed: the post with its author, if there is one. *)
Definition withAuthor (us : list User) (p : Post) : option (Post * CVal) :=
  option_map (fun a => (p, a)) (authorOf us (postUserId p)).

(** Every entry cached under the key of a well-formed user id holds
    what the store gives for that id. *)
Definition profilesCoherent (w : World) : Prop :=
  forall id item,
    cache w !! cacheKeys_user id = Some item ->
    Validators.isValidId (JStr id) = true ->
    authorOf (users w) id = Some (value item).

(** [Number.MAX_SAFE_INTEGER].  The code computes the page number as
    [Math.floor(offset / limit)] on doubles and prints it with [String].
    For an offset up to this bound and a limit between 1 and 100 that
    is the integer quotient and its decimal digits, as the models of
    the listings have it; beyond the bound the rounding of the division
    can give the next page.  The statements about the key of a page
    keep to offsets within the bound. *)
Definition MAX_SAFE_INTEGER : Z := 9007199254740991.

(** ** Properties *)

(** *** Strings *)

Lemma chars_str l : JsStr.chars (JsStr.str l) = l.
Proof. apply list_ascii_of_string_of_list_ascii. Qed.

Lemma str_chars s : JsStr.str (JsStr.chars s) = s.
Proof. apply string_of_list_ascii_of_string. Qed.

Lemma chars_length s : List.length (JsStr.chars s) = String.length s.
Proof. unfold JsStr.chars. induction s; simpl; congruence. Qed.

Lemma chars_app s t : JsStr.chars (s +:+ t) = JsStr.chars s ++ JsStr.chars t.
Proof. unfold JsStr.chars. induction s as [|c s IH]; simpl; [done|]. by rewrite IH. Qed.

Lemma trimStartL_length l : (List.length (JsStr.trimStartL l) <= List.length l)%nat.
Proof. induction l as [|c l IH]; simpl; [lia|]. destruct (JsStr.is_space c); simpl; lia. Qed.

Lemma trimL_length l : (List.length (JsStr.trimL l) <= List.length l)%nat.
Proof.
  unfold JsStr.trimL, JsStr.trimEndL. rewrite length_rev.
  etransitivity; [apply trimStartL_length|]. rewrite length_rev.
  apply trimStartL_length.
Qed.

(** Trimming a list without white space is the identity. *)
Lemma trimStartL_nospace l :
  Forall (fun c => JsStr.is_space c = false) l -> JsStr.trimStartL l = l.
Proof. destruct 1 as [|c l Hc _]; simpl; [done|]. by rewrite Hc. Qed.

Lemma trimL_nospace l :
  Forall (fun c => JsStr.is_space c = false) l -> JsStr.trimL l = l.
Proof.
  intros H. unfold JsStr.trimL, JsStr.trimEndL. rewrite (trimStartL_nospace l H).
  rewrite trimStartL_nospace, rev_involutive; [done|].
  by apply Forall_rev.
Qed.

(** *** The matcher agrees with the denotation *)

Import Regex.

#[local] Hint Constructors Matches : core.

Lemma nullable_Matches r : nullable r = true <-> Matches r [].
Proof.
  induction r as [| |p|r1 IH1 r2 IH2|r1 IH1 r2 IH2|r IH]; simpl.
  - split; [discriminate|inversion 1].
  - split; auto.
  - split; [discriminate|inversion 1].
  - rewrite andb_true_iff, IH1, IH2. split.
    + intros [H1 H2]. change (@nil ascii) with (@nil ascii ++ []). auto.
    + intros H. inversion H as [| |? ? l1 l2 H1 H2| | | |]; subst.
      destruct l1, l2; try discriminate. auto.
  - rewrite orb_true_iff, IH1, IH2. split.
    + intros [H|H]; auto.
    + inversion 1; subst; auto.
  - split; auto.
Qed.

Lemma Matches_Star_cons r c l :
  Matches (Star r) (c :: l) ->
  exists l1 l2, l = l1 ++ l2 /\ Matches r (c :: l1) /\ Matches (Star r) l2.
Proof.
  intros H. remember (Star r) as r' eqn:Er. remember (c :: l) as l' eqn:El.
  revert l El.
  induction H as [| | | | | |r0 l1 l2 H1 _ H2 IH2]; intros l0 El; try discriminate.
  inversion Er; subst r0. destruct l1 as [|c1 l1]; simpl in El.
  - apply IH2; auto.
  - inversion El; subst. eauto.
Qed.

Lemma deriv_Matches c r l : Matches (deriv c r) l <-> Matches r (c :: l).
Proof.
  revert l.
  induction r as [| |p|r1 IH1 r2 IH2|r1 IH1 r2 IH2|r IH]; intros l; simpl.
  - split; inversion 1.
  - split; inversion 1.
  - destruct (p c) eqn:Hp; split; inversion 1; subst; auto; congruence.
  - destruct (nullable r1) eqn:Hn; split.
    + inversion 1 as [| | |? ? ? HL|? ? ? HR| |]; subst.
      * inversion HL; subst.
        change (c :: ?a ++ ?b) with ((c :: a) ++ b). constructor; [by apply IH1|done].
      * apply nullable_Matches in Hn.
        change (c :: l) with ([] ++ c :: l). constructor; [done|by apply IH2].
    + intros H. inversion H as [| |? ? l1 l2 H1 H2 [E1 E2] E| | | |]; subst.
      destruct l1 as [|c1 l1]; simpl in E.
      * subst l2. apply MAltR. by apply IH2.
      * inversion E; subst. apply MAltL. constructor; [by apply IH1|done].
    + inversion 1; subst.
      change (c :: ?a ++ ?b) with ((c :: a) ++ b). constructor; [by apply IH1|done].
    + intros H. inversion H as [| |? ? l1 l2 H1 H2 [E1 E2] E| | | |]; subst.
      destruct l1 as [|c1 l1]; simpl in E.
      * apply nullable_Matches in H1. congruence.
      * inversion E; subst. constructor; [by apply IH1|done].
  - split.
    + inversion 1; subst; [apply MAltL; by apply IH1|apply MAltR; by apply IH2].
    + inversion 1; subst; [apply MAltL; by apply IH1|apply MAltR; by apply IH2].
  - split.
    + inversion 1; subst.
      change (c :: ?a ++ ?b) with ((c :: a) ++ b). constructor; [by apply IH|done].
    + intros H. apply Matches_Star_cons in H as (l1 & l2 & -> & H1 & H2).
      constructor; [by apply IH|done].
Qed.

Theorem matchesL_Matches r l : matchesL r l = true <-> Matches r l.
Proof.
  revert r. induction l as [|c l IH]; intros r; simpl.
  - apply nullable_Matches.
  - rewrite IH. apply deriv_Matches.
Qed.

Lemma Matches_Star_any l : Matches (Star anyChar) l.
Proof.
  induction l as [|c l IH]; [constructor|].
  change (c :: l) with ([c] ++ l). constructor; [by constructor|done].
Qed.

(** A match of [r] anywhere in the input is found by the search. *)
Lemma searchL_intro r pre mid post :
  Matches r mid -> searchL r (pre ++ mid ++ post) = true.
Proof.
  intros H. apply matchesL_Matches.
  constructor; [apply Matches_Star_any|].
  constructor; [done|apply Matches_Star_any].
Qed.

Lemma Matches_classes P r l :
  classes_within P r -> Matches r l -> Forall P l.
Proof.
  intros HP H. induction H; simpl in HP; auto.
  - destruct HP. apply Forall_app; auto.
  - destruct HP; auto.
  - destruct HP; auto.
  - apply Forall_app; auto.
Qed.

(** *** The store *)

(** The store is seeded by the first call only. *)
Lemma initializeData_seeded (w : World) :
  users w <> [] -> initializeData w = (Returned tt, w).
Proof.
  intros H. unfold initializeData, bind, getWorld.
  destruct (users w) as [|u us] eqn:E; [done|]. reflexivity.
Qed.

Lemma DB_findUserByEmail_seeded (e : string) (w : World) :
  users w <> [] ->
  DB_findUserByEmail e w
  = (Returned (List.find (matchesEmail e) (users w)), addCall (CallFindUserByEmail e) w).
Proof.
  intros H. unfold DB_findUserByEmail, bind, modify.
  rewrite initializeData_seeded by done. reflexivity.
Qed.

Lemma DB_findUserById_seeded (id : string) (b : bool) (w : World) :
  users w <> [] ->
  DB_findUserById id b w
  = (Returned (List.find
                 (fun u =>
                    if negb (hasUserId id u) then false
                    else if b && negb (timeIsNull (userDeletedAt u)) then false
                    else true) (users w)),
     addCall (CallFindUserById id) w).
Proof.
  intros H. unfold DB_findUserById, bind, modify.
  rewrite initializeData_seeded by done. reflexivity.
Qed.

(** *** Input validation of [authenticate] *)

(** An attempt whose input fails [validateLogin] throws the
    validator's error and touches nothing: no call reaches the store. *)
Lemma authenticate_invalid_input (email_ password : JsVal) (w : World) :
  Validators.isValidEmail email_ = false \/ Validators.isNonEmptyString password = false ->
  authenticate email_ password w
  = (Thrown (EApp (ValidationError "Invalid email or password")), w).
Proof.
  intros H. unfold authenticate, bind, liftOutcome, Validators.validateLogin.
  destruct H as [-> | ->]; simpl; [reflexivity|].
  by rewrite orb_true_r.
Qed.

(** *** Updating one user of a store with unique ids *)

Lemma hasUserId_true id u : hasUserId id u = true <-> userId u = id.
Proof. unfold hasUserId. apply String.eqb_eq. Qed.

Lemma patchUserById_absent id d us :
  ~ In id (map userId us) -> patchUserById id d us = us.
Proof.
  induction us as [|a us IH]; simpl; [done|]. intros H.
  destruct (hasUserId id a) eqn:E.
  - apply hasUserId_true in E. tauto.
  - f_equal. apply IH. tauto.
Qed.


Lemma patchUserById_find_email e id d us :
  List.find (matchesEmail e) (patchUserById id d us)
  = option_map (fun x => if hasUserId id x then applyPatch x d else x)
      (List.find (matchesEmail e) us).
Proof.
  induction us as [|a us IH]; simpl; [done|].
  replace (matchesEmail e (if hasUserId id a then applyPatch a d else a))
    with (matchesEmail e a) by (by destruct (hasUserId id a)).
  destruct (matchesEmail e a); [done|apply IH].
Qed.

Lemma findIndex_patch id d us :
  NoDup (map userId us) ->
  match findIndex (hasUserId id) us with
  | None => True
  | Some i =>
      exists u, us !! i = Some u /\ userId u = id
                /\ <[i := applyPatch u d]> us = patchUserById id d us
  end.
Proof.
  induction us as [|a us IH]; simpl; [done|]. intros Hnd.
  apply NoDup_cons in Hnd as [Ha Hnd].
  destruct (hasUserId id a) eqn:E.
  - apply hasUserId_true in E. exists a. split; [done|]. split; [done|].
    simpl. f_equal. symmetry. apply patchUserById_absent.
    rewrite <- list_elem_of_In. by subst id.
  - specialize (IH Hnd). destruct (findIndex (hasUserId id) us) as [i|]; simpl; [|done].
    destruct IH as (u & Hu & Hid & Hins). exists u. split; [done|]. split; [done|].
    simpl. by f_equal.
Qed.

Lemma findIndex_None_find {A} (P : A -> bool) (l : list A) :
  findIndex P l = None <-> List.find P l = None.
Proof.
  induction l as [|a l IH]; simpl; [done|].
  destruct (P a); [split; discriminate|].
  destruct (findIndex P l); simpl.
  - split; [discriminate|]. intros H. apply IH in H. discriminate.
  - split; [|done]. intros _. by apply IH.
Qed.

(** With unique ids, looking a user of the store up by its id finds it. *)
Lemma find_unique_id (P : User -> bool) (us : list User) (u : User) :
  NoDup (map userId us) -> In u us -> P u = true ->
  (forall x, P x = true -> userId x = userId u) ->
  List.find P us = Some u.
Proof.
  induction us as [|a us IH]; simpl; [done|]. intros Hnd Hin HP Huniq.
  apply NoDup_cons in Hnd as [Ha Hnd].
  destruct (P a) eqn:E.
  - destruct Hin as [->|Hin]; [done|]. exfalso. apply Ha.
    rewrite (Huniq a E). apply list_elem_of_In. by apply in_map.
  - destruct Hin as [->|Hin]; [congruence|]. by apply IH.
Qed.

Lemma DB_updateUser_seeded (u : User) (d : UserPatch) (w : World) :
  NoDup (map userId (users w)) -> In u (users w) ->
  DB_updateUser (userId u) d w
  = (Returned (Some (applyPatch u d)),
     setUsers (patchUserById (userId u) d (users w)) (addCall (CallUpdateUser (userId u)) w)).
Proof.
  intros Hnd Hin. unfold DB_updateUser, bind, modify.
  rewrite initializeData_seeded by (simpl; by destruct (users w)).
  simpl. pose proof (findIndex_patch (userId u) d (users w) Hnd) as Hix.
  destruct (findIndex (hasUserId (userId u)) (users w)) as [i|] eqn:Ei.
  - destruct Hix as (u' & Hu' & Hid & Hins). rewrite Hu'. simpl.
    assert (u' = u) as ->.
    { assert (List.find (hasUserId (userId u)) (users w) = Some u) as Hf.
      { apply find_unique_id; auto; [by apply hasUserId_true|].
        intros x Hx. by apply hasUserId_true in Hx. }
      assert (List.find (hasUserId (userId u)) (users w) = Some u') as Hf'.
      { apply find_unique_id; auto.
        - apply list_elem_of_In. by eapply list_elem_of_lookup_2.
        - by apply hasUserId_true.
        - intros x Hx. apply hasUserId_true in Hx. congruence. }
      congruence. }
    by rewrite Hins.
  - exfalso. apply findIndex_None_find in Ei.
    eapply find_none in Ei; [|exact Hin].
    assert (hasUserId (userId u) u = true) by by apply hasUserId_true. congruence.
Qed.

(** [DB.updateUser] returns whatever the store holds. *)
Lemma DB_updateUser_returns (id : string) (d : UserPatch) (w : World) :
  exists r w', DB_updateUser id d w = (Returned r, w').
Proof.
  unfold DB_updateUser, bind, modify.
  destruct (initializeData _) as [[[]|e] w1] eqn:E.
  - simpl. destruct (findIndex _ _) as [i|]; [|by eexists _, _].
    destruct (users w1 !! i); by eexists _, _.
  - exfalso. revert E. unfold initializeData, bind, getWorld, modify, Date_now,
      hashPassword, generateId, ret. simpl.
    by destruct (0 <? _).
Qed.

Lemma initializeData_returns (w : World) :
  exists w', initializeData w = (Returned tt, w').
Proof.
  unfold initializeData, bind, getWorld, modify, Date_now, hashPassword, generateId, ret.
  simpl. destruct (0 <? _); by eexists.
Qed.

Lemma DB_findUserById_returns (id : string) (b : bool) (w : World) :
  exists r w', DB_findUserById id b w = (Returned r, w').
Proof.
  unfold DB_findUserById, bind, modify.
  destruct (initializeData_returns (addCall (CallFindUserById id) w)) as [w1 ->].
  by eexists _, _.
Qed.

(** *** Failed-attempt bookkeeping *)

Lemma recordFailedLogin_returns (id : string) (w : World) :
  exists w', recordFailedLogin id w = (Returned tt, w').
Proof.
  unfold recordFailedLogin, bind.
  destruct (DB_findUserById_returns id false w) as (r & w1 & ->).
  destruct r as [user|]; [|by eexists].
  destruct (Env.maxFailedLoginAttempts config <=? failedLoginCount user + 1).
  - unfold Date_now, ret. simpl.
    destruct (DB_updateUser_returns id
                (mkUserPatch (Some (failedLoginCount user + 1))
                   (Some (TDate (clock (clockReads w1) + Env.accountLockoutDurationMs config))))
                (tickClock w1)) as (r & w2 & ->).
    by eexists.
  - unfold ret. simpl.
    destruct (DB_updateUser_returns id
                (mkUserPatch (Some (failedLoginCount user + 1)) None) w1) as (r & w2 & ->).
    by eexists.
Qed.

Lemma resetFailedLogin_returns (id : string) (w : World) :
  exists w', resetFailedLogin id w = (Returned tt, w').
Proof.
  unfold resetFailedLogin, bind.
  destruct (DB_updateUser_returns id (mkUserPatch (Some 0) (Some TNull)) w) as (r & w1 & ->).
  by eexists.
Qed.



(** *** The outcome of [authenticate] *)

(** What [authenticate] answers on input that passes [validateLogin],
    by cases on the record found and on the clock. *)
Lemma authenticate_outcome (e pw : string) (w : World) :
  users w <> [] ->
  Validators.isValidEmail (JStr e) = true ->
  Validators.isNonEmptyString (JStr pw) = true ->
  fst (authenticate (JStr e) (JStr pw) w)
  = match List.find (matchesEmail (normalizeEmail e)) (users w) with
    | None => Thrown (EApp InvalidCredentialsError_default)
    | Some u =>
        if lockedAt (clock (clockReads w)) u
        then Thrown (EApp AccountLockedError_default)
        else if negb (String.eqb (status u) "ACTIVE")
                || negb (verifyPassword pw (passwordHash u))
        then Thrown (EApp InvalidCredentialsError_default)
        else Returned (mkAuthResult (toSafeUser u) (generateToken (userId u) (email u)))
    end.
Proof.
  intros Hseed He Hpw.
  unfold authenticate, bind, liftOutcome, Validators.validateLogin.
  rewrite He, Hpw. simpl.
  rewrite DB_findUserByEmail_seeded by done.
  destruct (List.find _ (users w)) as [u|]; [|reflexivity].
  unfold lockedAt. destruct (timeTruthy (lockedUntil u)); simpl.
  - unfold Date_now, ret. simpl.
    destruct (clock (clockReads w) <? instantOf (lockedUntil u)); [reflexivity|].
    destruct (negb (String.eqb (status u) "ACTIVE")
              || negb (verifyPassword pw (passwordHash u))).
    + destruct (recordFailedLogin_returns (userId u)
                  (tickClock (addCall (CallFindUserByEmail (normalizeEmail e)) w)))
        as [w' ->]. reflexivity.
    + destruct (resetFailedLogin_returns (userId u)
                  (tickClock (addCall (CallFindUserByEmail (normalizeEmail e)) w)))
        as [w' ->]. reflexivity.
  - unfold ret.
    destruct (negb (String.eqb (status u) "ACTIVE")
              || negb (verifyPassword pw (passwordHash u))).
    + destruct (recordFailedLogin_returns (userId u)
                  (addCall (CallFindUserByEmail (normalizeEmail e)) w))
        as [w' ->]. reflexivity.
    + destruct (resetFailedLogin_returns (userId u)
                  (addCall (CallFindUserByEmail (normalizeEmail e)) w))
        as [w' ->]. reflexivity.
Qed.

(** C10: an attempt on a record whose [lockedUntil] is in the future
    throws [AccountLocked] whatever the password, and writes nothing: the
    [users] array, hence [failedLoginCount] and [lockedUntil] of the
    record, the posts and the cache are as before, and the only call made
    on the store is the look-up by e-mail. *)
Theorem locked_attempt_leaves_record_unchanged (e pw : string) (u : User) (w : World) :
  Validators.isValidEmail (JStr e) = true ->
  Validators.isNonEmptyString (JStr pw) = true ->
  List.find (matchesEmail (normalizeEmail e)) (users w) = Some u ->
  lockedUntil u <> TNull ->
  clock (clockReads w) < instantOf (lockedUntil u) ->
  exists w',
    authenticate (JStr e) (JStr pw) w = (Thrown (EApp AccountLockedError_default), w')
    /\ users w' = users w
    /\ List.find (matchesEmail (normalizeEmail e)) (users w') = Some u
    /\ posts w' = posts w
    /\ cache w' = cache w
    /\ dbLog w' = dbLog w ++ [CallFindUserByEmail (normalizeEmail e)].
Proof.
  intros He Hpw Hfind Hlock Hnow.
  assert (users w <> []) as Hseed by (intros E; by rewrite E in Hfind).
  exists (tickClock (addCall (CallFindUserByEmail (normalizeEmail e)) w)).
  split; [|by repeat split].
  unfold authenticate, bind, liftOutcome, Validators.validateLogin.
  rewrite He, Hpw. simpl.
  rewrite DB_findUserByEmail_seeded by done. rewrite Hfind.
  destruct (lockedUntil u) as [|ms|ms] eqn:El; [done| |]; simpl in *;
    unfold Date_now; simpl;
    apply Z.ltb_lt in Hnow; by rewrite Hnow.
Qed.

(** *** Consecutive failures *)






(** *** Anti-enumeration *)

(** C2, amended: on a password that passes [validateLogin], an attempt
    on an e-mail address without a record and an attempt with a wrong
    password on the address of a record that is not locked at that moment
    are answered with the same error, the [InvalidCredentials] error with
    code [INVALID_CREDENTIALS], status 401 and the default message. *)
Theorem unknown_email_same_as_wrong_password
    (e1 e2 pw : string) (u : User) (w1 w2 : World) :
  Validators.isValidEmail (JStr e1) = true ->
  Validators.isValidEmail (JStr e2) = true ->
  Validators.isNonEmptyString (JStr pw) = true ->
  users w1 <> [] ->
  List.find (matchesEmail (normalizeEmail e1)) (users w1) = None ->
  List.find (matchesEmail (normalizeEmail e2)) (users w2) = Some u ->
  verifyPassword pw (passwordHash u) = false ->
  lockedAt (clock (clockReads w2)) u = false ->
  fst (authenticate (JStr e1) (JStr pw) w1) = fst (authenticate (JStr e2) (JStr pw) w2)
  /\ fst (authenticate (JStr e1) (JStr pw) w1)
     = Thrown (EApp (mkAppError CInvalidCredentialsError "Invalid email or password"
                       "INVALID_CREDENTIALS" 401 true)).
Proof.
  intros He1 He2 Hpw Hseed1 Hnone Hsome Hwrong Hunlocked.
  assert (users w2 <> []) as Hseed2 by (intros E; by rewrite E in Hsome).
  rewrite (authenticate_outcome e1 pw w1 Hseed1 He1 Hpw), Hnone.
  rewrite (authenticate_outcome e2 pw w2 Hseed2 He2 Hpw), Hsome, Hunlocked, Hwrong.
  by rewrite orb_true_r.
Qed.

(** C7: input that fails [validateLogin] is rejected before any call
    reaches the store: the state, and with it the log of calls, is as
    before.  The error thrown is the validator's [ValidationError], code
    [VALIDATION_ERROR] and status 400, not [InvalidCredentials]. *)
Theorem invalid_login_input_rejected_before_lookup
    (email_ password : JsVal) (w : World) :
  Validators.isValidEmail email_ = false \/ Validators.isNonEmptyString password = false ->
  authenticate email_ password w
  = (Thrown (EApp (mkAppError CValidationError "Invalid email or password"
                     "VALIDATION_ERROR" 400 true)), w)
  /\ dbLog (snd (authenticate email_ password w)) = dbLog w
  /\ fst (authenticate email_ password w) <> Thrown (EApp InvalidCredentialsError_default).
Proof.
  intros H. rewrite (authenticate_invalid_input _ _ _ H). by repeat split.
Qed.

(** *** Pagination *)

Lemma clamp_in_range (n lo hi : Z) : lo <= n <= hi -> Validators.clamp n lo hi = n.
Proof. unfold Validators.clamp. lia. Qed.

Lemma isAscOrDesc_nonempty (o : string) :
  Validators.isAscOrDesc (JsStr.toUpperCase o) = true -> String.eqb o "" = false.
Proof. destruct o; [vm_compute; discriminate|done]. Qed.

(** C8, amended: an omitted limit becomes 20 and a supplied limit is
    accepted only when it is an integer between 1 and 100, where the
    clamp leaves it as it is; an omitted offset becomes 0 and a supplied
    offset is accepted only when it is an integer that is not negative;
    an omitted order becomes DESC and a supplied order is accepted only
    when it is a string whose upper-case form is ASC or DESC, which is
    then the order returned.  A supplied order that is not a string
    throws a [TypeError], whatever the limit and the offset are; any
    other input that is not accepted throws a [ValidationError]. *)
Theorem validatePagination_accepts_in_range_only
    (limit offset : JsNum) (order : option JsVal) :
  let limitOk :=
    match limit with
    | NUndefined => true
    | NInt n => (1 <=? n) && (n <=? 100)
    | NOther => false
    end in
  let offsetOk :=
    match offset with
    | NUndefined => true
    | NInt n => 0 <=? n
    | NOther => false
    end in
  let orderOk :=
    match order with
    | None => true
    | Some (JStr o) => Validators.isAscOrDesc (JsStr.toUpperCase o)
    | Some JOther => false
    end in
  (limitOk && offsetOk && orderOk = true ->
   Validators.validatePagination limit offset order
   = Returned
       (Validators.mkPagination
          match limit with NInt n => Validators.clamp n 1 100 | _ => 20 end
          match offset with NInt n => n | _ => 0 end
          match order with Some (JStr o) => JsStr.toUpperCase o | _ => "DESC" end)
   /\ match limit with NInt n => Validators.clamp n 1 100 = n | _ => True end)
  /\ (limitOk && offsetOk && orderOk = false ->
      order <> Some JOther ->
      exists msg, Validators.validatePagination limit offset order
                  = Thrown (EApp (ValidationError msg)))
  /\ (order = Some JOther ->
      exists msg, Validators.validatePagination limit offset order
                  = Thrown (ETypeError msg)).
Proof.
  cbv zeta. split; [|split].
  - intros H. apply andb_true_iff in H as [H Ho]. apply andb_true_iff in H as [Hl Hf].
    assert (match limit with
            | NUndefined => []
            | NInt n => if (n <? 1) || (100 <? n)
                        then ["Limit must be an integer between 1 and 100"] else []
            | NOther => ["Limit must be an integer between 1 and 100"]
            end = []) as El.
    { destruct limit as [|n|]; [done| |done].
      apply andb_true_iff in Hl as [H1 H2]. apply Z.leb_le in H1, H2.
      assert ((n <? 1) = false) as -> by (apply Z.ltb_ge; lia).
      assert ((100 <? n) = false) as -> by (apply Z.ltb_ge; lia). done. }
    assert (match offset with
            | NUndefined => []
            | NInt n => if n <? 0 then ["Offset must be a non-negative integer"] else []
            | NOther => ["Offset must be a non-negative integer"]
            end = []) as Ef.
    { destruct offset as [|n|]; [done| |done].
      apply Z.leb_le in Hf. assert ((n <? 0) = false) as -> by (apply Z.ltb_ge; lia). done. }
    assert (Validators.validatePagination limit offset order
            = Returned
                (Validators.mkPagination
                   match limit with
                   | NInt n => if n =? 0 then 20 else Validators.clamp n 1 100
                   | _ => 20
                   end
                   match offset with NInt n => if n =? 0 then 0 else n | _ => 0 end
                   match order with
                   | Some (JStr o) => JsStr.toUpperCase o
                   | _ => "DESC"
                   end)) as ->.
    { unfold Validators.validatePagination. rewrite El, Ef.
      destruct order as [[o|]|]; [|discriminate|reflexivity].
      rewrite Ho. simpl. by rewrite (isAscOrDesc_nonempty o Ho). }
    split.
    + f_equal. f_equal.
      * destruct limit as [|n|]; try done.
        apply andb_true_iff in Hl as [H1 H2]. apply Z.leb_le in H1, H2.
        assert ((n =? 0) = false) as -> by (apply Z.eqb_neq; lia). done.
      * destruct offset as [|n|]; try done. destruct (Z.eqb_spec n 0); congruence.
    + destruct limit as [|n|]; try done.
      apply andb_true_iff in Hl as [H1 H2]. apply Z.leb_le in H1, H2.
      apply clamp_in_range. lia.
  - intros H Hstr.
    set (errOrder :=
           match order with
           | Some (JStr o) => if Validators.isAscOrDesc (JsStr.toUpperCase o) then []
                              else ["Order must be ASC or DESC"]
           | _ => []
           end).
    set (errLimit :=
           match limit with
           | NUndefined => []
           | NInt n => if (n <? 1) || (100 <? n)
                       then ["Limit must be an integer between 1 and 100"] else []
           | NOther => ["Limit must be an integer between 1 and 100"]
           end).
    set (errOffset :=
           match offset with
           | NUndefined => []
           | NInt n => if n <? 0 then ["Offset must be a non-negative integer"] else []
           | NOther => ["Offset must be a non-negative integer"]
           end).
    assert (errLimit ++ errOffset ++ errOrder <> []) as Hne.
    { intros E. apply app_eq_nil in E as [E1 E]. apply app_eq_nil in E as [E2 E3].
      assert (match limit with
              | NUndefined => true
              | NInt n => (1 <=? n) && (n <=? 100)
              | NOther => false
              end = true) as Hl.
      { subst errLimit. destruct limit as [|n|]; [done| |done].
        destruct (n <? 1) eqn:A; [done|]. destruct (100 <? n) eqn:B; [done|].
        apply Z.ltb_ge in A, B. apply andb_true_iff. split; apply Z.leb_le; lia. }
      assert (match offset with
              | NUndefined => true
              | NInt n => 0 <=? n
              | NOther => false
              end = true) as Hf.
      { subst errOffset. destruct offset as [|n|]; [done| |done].
        destruct (n <? 0) eqn:A; [done|]. apply Z.ltb_ge in A. apply Z.leb_le. lia. }
      assert (match order with
              | None => true
              | Some (JStr o) => Validators.isAscOrDesc (JsStr.toUpperCase o)
              | Some JOther => false
              end = true) as Ho.
      { subst errOrder. destruct order as [[o|]|]; [|done|done].
        by destruct (Validators.isAscOrDesc (JsStr.toUpperCase o)). }
      rewrite Hl, Hf, Ho in H. discriminate. }
    assert (Validators.validatePagination limit offset order
            = Thrown (EApp (ValidationError
                              (String.concat ", " (errLimit ++ errOffset ++ errOrder)))))
      as ->; [|by eexists].
    unfold Validators.validatePagination. fold errLimit errOffset.
    destruct order as [[o|]|]; [|done|]; fold errOrder;
      destruct (errLimit ++ errOffset ++ errOrder) as [|m ms]; done.
  - intros ->. by eexists.
Qed.

(** *** Post content *)

Lemma collapseSpaces_length (b : bool) (l : list ascii) :
  (List.length (Validators.collapseSpaces b l) <= List.length l)%nat.
Proof.
  revert b. induction l as [|c l IH]; intros b; simpl; [lia|].
  destruct (JsStr.is_space c).
  - destruct b; simpl; specialize (IH true); lia.
  - simpl. specialize (IH false). lia.
Qed.

Lemma removeAngleBrackets_length (l : list ascii) :
  (List.length (Validators.removeAngleBrackets l) <= List.length l)%nat.
Proof.
  unfold Validators.removeAngleBrackets.
  induction l as [|c l IH]; simpl; [lia|].
  destruct (negb _); simpl; lia.
Qed.

(** Sanitizing never lengthens the text. *)
Lemma sanitizeText_length (s : string) :
  Validators.jsLength (Validators.sanitizeText (JStr s)) <= Validators.jsLength s.
Proof.
  unfold Validators.jsLength, Validators.sanitizeText.
  rewrite <- !chars_length, chars_str.
  pose proof (trimL_length
                (Validators.collapseSpaces false
                   (Validators.removeAngleBrackets (JsStr.chars s)))).
  pose proof (collapseSpaces_length false (Validators.removeAngleBrackets (JsStr.chars s))).
  pose proof (removeAngleBrackets_length (JsStr.chars s)).
  lia.
Qed.

(** Content of 280 code units that is not blank passes the validator. *)
Lemma validatePostContent_accepts_280 (s : string) :
  Validators.isNonEmptyString (JStr s) = true ->
  Validators.jsLength s = 280 ->
  Validators.validatePostContent (JStr s) = Returned tt.
Proof.
  intros Hne Hlen. unfold Validators.validatePostContent.
  rewrite Hne, Hlen. reflexivity.
Qed.

(** Content of more than 280 code units is refused. *)
Lemma validatePostContent_rejects_long (s : string) :
  280 < Validators.jsLength s ->
  exists msg, Validators.validatePostContent (JStr s) = Thrown (EApp (ValidationError msg)).
Proof.
  intros Hlen. unfold Validators.validatePostContent.
  destruct (Validators.isNonEmptyString (JStr s)); simpl; [|eauto].
  apply Z.ltb_lt in Hlen. unfold Validators.MAX_POST_LENGTH. rewrite Hlen. eauto.
Qed.

(** A refused content stops [create] before the store is touched. *)
Lemma PostModel_create_rejects_long (userId_ s : string) (w : World) :
  Validators.isValidId (JStr userId_) = true ->
  280 < Validators.jsLength s ->
  exists msg, PostModel_create userId_ (JStr s) w = (Thrown (EApp (ValidationError msg)), w).
Proof.
  intros Hid Hlen. destruct (validatePostContent_rejects_long s Hlen) as [msg Hmsg].
  exists msg. unfold PostModel_create, bind, liftOutcome. by rewrite Hid, Hmsg.
Qed.

(** What [create] persists is the sanitized content, of at most 280
    code units. *)
Lemma PostModel_create_content (userId_ : string) (c : JsVal) (w w' : World) (p : Post) :
  PostModel_create userId_ c w = (Returned p, w') ->
  content p = Validators.sanitizeText c
  /\ Validators.jsLength (content p) <= 280
  /\ In p (posts w').
Proof.
  unfold PostModel_create.
  destruct (negb (Validators.isValidId (JStr userId_))); [discriminate|].
  unfold bind at 1. unfold liftOutcome.
  destruct (Validators.validatePostContent c) as [[]|err] eqn:Hv; [|discriminate].
  unfold bind at 1.
  destruct (DB_transaction _ w) as [[q|err] w1] eqn:Htx; [|discriminate].
  intros Hrest.
  assert (content q = Validators.sanitizeText c /\ In q (posts w1)) as [Hq Hin].
  { revert Htx. unfold DB_transaction, bind, modify, tryCatch, theTx, getWorld. simpl.
    destruct (initializeData_returns (addCall CallTransaction w)) as [w0 ->].
    unfold ret. simpl.
    destruct (negb (existsb _ (users w0))); simpl; [discriminate|].
    unfold DB_createPost, bind, modify.
    destruct (initializeData_returns (addCall (CallCreatePost userId_) w0)) as [w2 ->].
    unfold generateId, Date_now, getWorld, ret. simpl.
    intros [= <- <-]. simpl. split; [done|]. apply in_or_app. right. by left. }
  assert (p = q /\ posts w' = posts w1) as [-> Hposts].
  { revert Hrest. unfold bind, cache_deletePattern, modify, throw, ret.
    destruct (Regex.parse (JsStr.replaceFirstStar ("posts:user:" +:+ userId_ +:+ ":*")));
      [|discriminate]. simpl.
    by intros [= -> <-]. }
  rewrite Hposts. split; [done|]. split; [|done].
  rewrite Hq. destruct c as [s|]; [|by vm_compute].
  pose proof (sanitizeText_length s).
  revert Hv. unfold Validators.validatePostContent.
  destruct (negb (Validators.isNonEmptyString (JStr s))); [discriminate|].
  destruct (Validators.MAX_POST_LENGTH <? Validators.jsLength s) eqn:E; [discriminate|].
  apply Z.ltb_ge in E. unfold Validators.MAX_POST_LENGTH in E. lia.
Qed.

(** C6: the validator runs on the raw content and the sanitizer after
    it, so content made of angle brackets only is accepted and persisted
    as the empty string: here [create] called by Alice with ["<>"]. *)
Theorem create_persists_content_sanitized_to_empty :
  Validators.validatePostContent (JStr "<>") = Returned tt
  /\ Validators.sanitizeText (JStr "<>") = ""
  /\ exists p w',
       PostModel_create Demo.aliceId (JStr "<>") Demo.world = (Returned p, w')
       /\ In p (posts w')
       /\ content p = ""
       /\ Validators.jsLength (content p) = 0.
Proof.
  split; [by vm_compute|]. split; [by vm_compute|].
  eexists _, _. split; [vm_compute; reflexivity|].
  split; [|by vm_compute]. simpl. right. right. by left.
Qed.

(** *** Transactions *)

(** When the callback throws, the two arrays are replaced by the JSON
    copies taken when the transaction began, and the error is rethrown. *)
Lemma DB_transaction_rollback {A} (callback : Tx -> M A) (w w1 : World) (e : Exn) :
  users w <> [] ->
  callback theTx (addCall CallTransaction w) = (Thrown e, w1) ->
  DB_transaction callback w
  = (Thrown e, setUsers (map jsonUser (users w)) (setPosts (map jsonPost (posts w)) w1)).
Proof.
  intros Hseed Hcb. unfold DB_transaction, bind, modify, tryCatch, getWorld, throw.
  rewrite initializeData_seeded by done. simpl. by rewrite Hcb.
Qed.

(** The copy is the original only where no field holds a [Date]. *)
Lemma jsonPost_fixpoint (p : Post) :
  jsonPost p = p <-> isDate (postCreatedAt p) = false /\ isDate (postDeletedAt p) = false.
Proof.
  destruct p as [i u c [|a|a] [|d|d]]; unfold jsonPost; simpl; split;
    try done; try (intros [? ?]; done); intros [=].
Qed.

(** C9: Bob's attempt to delete Alice's post throws [Forbidden] inside
    the transaction, which rolls back.  The error reaches the caller, but
    the arrays that come back are JSON copies: every [Date] is now an ISO
    string, so the store differs from the one the transaction began with,
    and the next feed read, which sorts by [createdAt.getTime()], throws
    a [TypeError] where it returned the feed before. *)
Theorem rollback_replaces_dates_by_strings :
  let r := PostModel_deleteOwned Demo.post1Id Demo.bobId Demo.world in
  fst r = Thrown (EApp (ForbiddenError "You can only delete your own posts"))
  /\ posts (snd r) = map jsonPost (posts Demo.world)
  /\ users (snd r) = map jsonUser (users Demo.world)
  /\ posts (snd r) <> posts Demo.world
  /\ users (snd r) <> users Demo.world
  /\ (exists feed,
        fst (PostModel_getAllWithAuthors NUndefined NUndefined None Demo.world)
        = Returned (VFeed feed) /\ List.length feed = 2%nat)
  /\ fst (PostModel_getAllWithAuthors NUndefined NUndefined None (snd r))
     = Thrown (ETypeError "a.createdAt.getTime is not a function").
Proof.
  cbv zeta. split; [by vm_compute|]. split; [by vm_compute|]. split; [by vm_compute|].
  split; [vm_compute; discriminate|]. split; [vm_compute; discriminate|].
  split; [|by vm_compute].
  eexists. split; [vm_compute; reflexivity|reflexivity].
Qed.

(** *** The cache-aside read path *)

Lemma cacheAside_hit (key : string) (loader : M CVal) (item : CacheItem) (w : World) :
  cache w !! key = Some item ->
  clock (clockReads w) <= expiresAt item ->
  cacheAside key loader w = (Returned (value item), tickClock w).
Proof.
  intros Hk Hnow. unfold cacheAside, cache_get, bind, getWorld. cbv beta iota. rewrite Hk.
  unfold Date_now. cbv beta iota.
  assert ((expiresAt item <? clock (clockReads w)) = false) as -> by (apply Z.ltb_ge; lia).
  reflexivity.
Qed.

Lemma cacheAside_miss (key : string) (loader : M CVal) (w : World) :
  ~ freshEntry key w ->
  cacheAside key loader w = storeLoaded key (loader (afterMiss key w)).
Proof.
  intros Hstale. unfold cacheAside, cache_get, bind, getWorld, afterMiss. cbv beta iota.
  destruct (cache w !! key) as [item|] eqn:Hk.
  - unfold Date_now. cbv beta iota.
    destruct (expiresAt item <? clock (clockReads w)) eqn:Hexp.
    + unfold modify, ret. simpl. unfold storeLoaded, cache_set, bind, Date_now, modify.
      destruct (loader _) as [[v|e] w2]; reflexivity.
    + exfalso. apply Hstale. exists item. split; [done|]. apply Z.ltb_ge in Hexp. lia.
  - unfold ret. unfold storeLoaded, cache_set, bind, Date_now, modify.
    destruct (loader w) as [[v|e] w2]; reflexivity.
Qed.


(** [UserModel.getById] on a fresh entry: no call reaches the store. *)
Lemma UserModel_getById_cached (id : string) (item : CacheItem) (w : World) :
  Validators.isValidId (JStr id) = true ->
  cache w !! cacheKeys_user id = Some item ->
  clock (clockReads w) <= expiresAt item ->
  UserModel_getById id w = (Returned (value item), tickClock w).
Proof.
  intros Hid Hk Hle. unfold UserModel_getById. rewrite Hid. simpl.
  by apply cacheAside_hit.
Qed.

(** [UserModel.getById] on a miss: the store is asked once and the
    profile is cached under the user's key. *)
Lemma UserModel_getById_loaded (id : string) (u : User) (w : World) :
  Validators.isValidId (JStr id) = true ->
  users w <> [] ->
  ~ freshEntry (cacheKeys_user id) w ->
  List.find (fun x => if negb (hasUserId id x) then false
                      else if true && negb (timeIsNull (userDeletedAt x)) then false
                      else true) (users w) = Some u ->
  exists w',
    UserModel_getById id w = (Returned (VProfile (toPublicProfile u)), w')
    /\ dbLog w' = dbLog w ++ [CallFindUserById id]
    /\ cache w' !! cacheKeys_user id
       = Some (mkCacheItem (VProfile (toPublicProfile u))
                 (clock (clockReads (afterMiss (cacheKeys_user id) w))
                  + Env.cacheTTL config * 1000)).
Proof.
  intros Hid Hseed Hstale Hfind. unfold UserModel_getById. rewrite Hid.
  change (negb true) with false. cbv iota. rewrite (cacheAside_miss _ _ w Hstale).
  assert (users (afterMiss (cacheKeys_user id) w) = users w
          /\ dbLog (afterMiss (cacheKeys_user id) w) = dbLog w) as [Hu Hlog].
  { unfold afterMiss. by destruct (cache w !! cacheKeys_user id). }
  unfold bind. rewrite DB_findUserById_seeded by by rewrite Hu.
  rewrite Hu, Hfind. simpl. eexists. split; [reflexivity|]. simpl.
  split; [by rewrite Hlog|]. apply lookup_insert_eq.
Qed.

(** *** Key patterns *)

Ltac each_code_unit c :=
  destruct c as [[|] [|] [|] [|] [|] [|] [|] [|]].

Lemma plainChar_not_star (c : ascii) : plainChar c -> Ascii.eqb c "*" = false.
Proof. unfold plainChar. each_code_unit c; vm_compute; congruence. Qed.

Lemma plainChar_not_dot (c : ascii) : plainChar c -> Ascii.eqb c "." = false.
Proof. unfold plainChar. each_code_unit c; vm_compute; congruence. Qed.

Lemma uuidChar_plain (c : ascii) : uuidChar c = true -> plainChar c.
Proof. unfold plainChar. each_code_unit c; vm_compute; congruence. Qed.

Lemma replaceFirstStarL_plain (l : list ascii) :
  Forall plainChar l ->
  JsStr.replaceFirstStarL (l ++ ["*"%char]) = l ++ ["."%char; "*"%char].
Proof.
  induction 1 as [|c l Hc _ IH]; simpl; [done|].
  by rewrite (plainChar_not_star c Hc), IH.
Qed.

Lemma parseL_plain (l : list ascii) :
  Forall plainChar l ->
  Regex.parseL (l ++ ["."%char; "*"%char])
  = Some (litThen l (Regex.Cat (Regex.Star Regex.dot) Regex.Eps)).
Proof.
  induction 1 as [|c l Hc Hl IH]; [reflexivity|].
  change ((c :: l) ++ ["."%char; "*"%char]) with (c :: (l ++ ["."%char; "*"%char])).
  cbn [Regex.parseL]. rewrite (plainChar_not_dot c Hc), Hc.
  destruct Hl as [|c2 l2 Hc2 Hl2].
  - reflexivity.
  - change ((c2 :: l2) ++ ["."%char; "*"%char])
      with (c2 :: (l2 ++ ["."%char; "*"%char])) in *.
    cbv beta iota. rewrite (plainChar_not_star c2 Hc2). by rewrite IH.
Qed.

Lemma litThen_Matches (l x : list ascii) (r : Regex.regex) :
  Regex.Matches r x -> Regex.Matches (litThen l r) (l ++ x).
Proof.
  intros Hr. induction l as [|c l IH]; simpl; [done|].
  change (c :: l ++ x) with ([c] ++ (l ++ x)).
  constructor; [|done]. constructor. apply Ascii.eqb_refl.
Qed.

(** The expression built from the pattern [l*] finds every key that
    begins with [l]. *)
Lemma test_prefix (l rest : list ascii) (key : string) :
  JsStr.chars key = l ++ rest ->
  Regex.test (litThen l (Regex.Cat (Regex.Star Regex.dot) Regex.Eps)) key = true.
Proof.
  intros Hkey. unfold Regex.test. rewrite Hkey.
  change (l ++ rest) with ([] ++ l ++ rest).
  apply searchL_intro.
  rewrite <- (app_nil_r l) at 2. apply litThen_Matches.
  change (@nil ascii) with (@nil ascii ++ []). constructor; constructor.
Qed.

Lemma cache_deletePattern_prefix (pattern : string) (l : list ascii) (w : World) :
  JsStr.chars pattern = l ++ ["*"%char] ->
  Forall plainChar l ->
  cache_deletePattern pattern w
  = (Returned tt, setCache (filter (keptBy l) (cache w)) w).
Proof.
  intros Hpat Hl. unfold cache_deletePattern, Regex.parse, JsStr.replaceFirstStar.
  rewrite Hpat, (replaceFirstStarL_plain l Hl), chars_str, (parseL_plain l Hl).
  reflexivity.
Qed.

Lemma filter_prefix_gone (l rest : list ascii) (key : string) (m : gmap string CacheItem) :
  JsStr.chars key = l ++ rest ->
  filter (keptBy l) m !! key = None.
Proof.
  intros Hkey. apply map_lookup_filter_None. right. intros item _. unfold keptBy. simpl.
  by rewrite (test_prefix l rest key Hkey).
Qed.

Lemma filter_keeps_none (P : string * CacheItem -> Prop) `{!forall kv, Decision (P kv)}
    (key : string) (m : gmap string CacheItem) :
  m !! key = None -> filter P m !! key = None.
Proof. intros Hnone. apply map_lookup_filter_None. by left. Qed.

(** An id that passes [isValidId] is made of hexadecimal digits and
    dashes. *)
Lemma isValidId_chars (id : string) :
  Validators.isValidId (JStr id) = true ->
  Forall (fun c => uuidChar c = true) (JsStr.chars id).
Proof.
  intros H. simpl in H. unfold Regex.test_anchored in H.
  apply matchesL_Matches in H.
  eapply Matches_classes; [|exact H].
  simpl. repeat split; intros c; each_code_unit c; vm_compute; congruence.
Qed.

Lemma feedPrefix_plain : Forall plainChar feedPrefix.
Proof. repeat constructor. Qed.

Lemma userPostsPrefix_plain (userId_ : string) :
  Validators.isValidId (JStr userId_) = true -> Forall plainChar (userPostsPrefix userId_).
Proof.
  intros H. unfold userPostsPrefix. apply Forall_app. split; [repeat constructor|].
  apply Forall_app. split; [|repeat constructor].
  eapply Forall_impl; [apply isValidId_chars, H|]. apply uuidChar_plain.
Qed.

Lemma userPostsPattern_chars (userId_ : string) :
  JsStr.chars ("posts:user:" +:+ userId_ +:+ ":*") = userPostsPrefix userId_ ++ ["*"%char].
Proof.
  unfold userPostsPrefix. rewrite !chars_app. rewrite <- !app_assoc. reflexivity.
Qed.

Lemma hasPrefix_feed_chars (key : string) :
  hasPrefix "posts:feed:" key -> exists rest, JsStr.chars key = feedPrefix ++ rest.
Proof. intros [rest ->]. exists (JsStr.chars rest). by rewrite chars_app. Qed.

Lemma hasPrefix_userPosts_chars (userId_ key : string) :
  hasPrefix ("posts:user:" +:+ userId_ +:+ ":") key ->
  exists rest, JsStr.chars key = userPostsPrefix userId_ ++ rest.
Proof.
  intros [rest ->]. exists (JsStr.chars rest). unfold userPostsPrefix.
  rewrite !chars_app. rewrite <- !app_assoc. reflexivity.
Qed.

(** *** Invalidation on write *)

Lemma deleteUserPostsPattern (userId_ : string) (w : World) :
  Validators.isValidId (JStr userId_) = true ->
  cache_deletePattern ("posts:user:" +:+ userId_ +:+ ":*") w
  = (Returned tt, setCache (filter (keptBy (userPostsPrefix userId_)) (cache w)) w).
Proof.
  intros Hid. apply cache_deletePattern_prefix;
    [apply userPostsPattern_chars|by apply userPostsPrefix_plain].
Qed.

Lemma deleteFeedPattern (w : World) :
  cache_deletePattern "posts:feed:*" w
  = (Returned tt, setCache (filter (keptBy feedPrefix) (cache w)) w).
Proof.
  apply cache_deletePattern_prefix; [reflexivity|apply feedPrefix_plain].
Qed.

Lemma deletePatterns_of_post_write (userId_ : string) (w : World) :
  Validators.isValidId (JStr userId_) = true ->
  (cache_deletePattern ("posts:user:" +:+ userId_ +:+ ":*") ;;
   cache_deletePattern "posts:feed:*") w
  = (Returned tt, setCache (invalidatePosts userId_ (cache w)) w).
Proof.
  intros Hid. unfold bind.
  rewrite (cache_deletePattern_prefix _ (userPostsPrefix userId_));
    [|apply userPostsPattern_chars|by apply userPostsPrefix_plain].
  rewrite (cache_deletePattern_prefix _ feedPrefix);
    [|reflexivity|apply feedPrefix_plain].
  reflexivity.
Qed.

Lemma invalidatePosts_subseteq (userId_ : string) (m : gmap string CacheItem) :
  invalidatePosts userId_ m ⊆ m.
Proof.
  unfold invalidatePosts. etransitivity; apply map_filter_subseteq.
Qed.

Lemma invalidatePosts_lookup_None (userId_ key : string) (m : gmap string CacheItem) :
  m !! key = None -> invalidatePosts userId_ m !! key = None.
Proof.
  intros H. unfold invalidatePosts. by do 2 apply filter_keeps_none.
Qed.

Lemma invalidatePosts_gone (userId_ key : string) (m : gmap string CacheItem) :
  hasPrefix "posts:feed:" key \/ hasPrefix ("posts:user:" +:+ userId_ +:+ ":") key ->
  invalidatePosts userId_ m !! key = None.
Proof.
  unfold invalidatePosts. intros [H|H].
  - apply hasPrefix_feed_chars in H as [rest H]. by eapply filter_prefix_gone.
  - apply hasPrefix_userPosts_chars in H as [rest H].
    apply filter_keeps_none. by eapply filter_prefix_gone.
Qed.

(** A successful [create] ends with the two pattern deletions. *)
Lemma PostModel_create_inv (userId_ : string) (c : JsVal) (w w' : World) (p : Post) :
  PostModel_create userId_ c w = (Returned p, w') ->
  Validators.isValidId (JStr userId_) = true
  /\ exists w1, w' = setCache (invalidatePosts userId_ (cache w1)) w1
                /\ In p (posts w1).
Proof.
  unfold PostModel_create.
  destruct (Validators.isValidId (JStr userId_)) eqn:Hid; [|discriminate]. simpl.
  unfold bind at 1. unfold liftOutcome.
  destruct (Validators.validatePostContent c) as [[]|err]; [|discriminate].
  unfold bind at 1.
  destruct (DB_transaction _ w) as [[q|err] w1] eqn:Htx; [|discriminate].
  pose proof (deletePatterns_of_post_write userId_ w1 Hid) as Hdel.
  unfold bind in Hdel. unfold bind.
  destruct (cache_deletePattern ("posts:user:" +:+ userId_ +:+ ":*") w1) as [[[]|e1] w2];
    [|discriminate].
  destruct (cache_deletePattern "posts:feed:*" w2) as [[[]|e2] w3]; [|discriminate].
  injection Hdel as ->. unfold ret. intros [= -> <-].
  split; [done|]. exists w1. split; [done|].
  revert Htx. unfold DB_transaction, bind, modify, tryCatch, theTx, getWorld. simpl.
  destruct (initializeData_returns (addCall CallTransaction w)) as [w0 ->].
  unfold ret. simpl.
  destruct (negb (existsb _ (users w0))); simpl; [discriminate|].
  unfold DB_createPost, bind, modify.
  destruct (initializeData_returns (addCall (CallCreatePost userId_) w0)) as [w4 ->].
  unfold generateId, Date_now, getWorld, ret. simpl.
  intros [= <- <-]. simpl. apply in_or_app. right. by left.
Qed.

(** *** Deleting a post *)

Lemma DB_findPostById_seeded (id : string) (w : World) :
  users w <> [] ->
  DB_findPostById id w
  = (Returned (List.find (hasPostId id) (posts w)), addCall (CallFindPostById id) w).
Proof.
  intros H. unfold DB_findPostById, bind, modify.
  rewrite initializeData_seeded by done. reflexivity.
Qed.

Lemma find_findIndex {A} (P : A -> bool) (l : list A) (x : A) :
  List.find P l = Some x ->
  exists i, findIndex P l = Some i /\ l !! i = Some x.
Proof.
  induction l as [|a l IH]; simpl; [done|].
  destruct (P a).
  - intros [= ->]. by exists 0%nat.
  - intros H. destruct (IH H) as (i & -> & Hi). by exists (S i).
Qed.

Lemma DB_softDeletePost_seeded (id : string) (p : Post) (w : World) :
  users w <> [] ->
  List.find (hasPostId id) (posts w) = Some p ->
  exists i,
    findIndex (hasPostId id) (posts w) = Some i
    /\ posts w !! i = Some p
    /\ DB_softDeletePost id w
       = (Returned tt,
          setPosts (<[i := markDeleted (clock (clockReads w)) p]> (posts w))
            (tickClock (addCall (CallSoftDeletePost id) w))).
Proof.
  intros Hseed Hfind. destruct (find_findIndex _ _ _ Hfind) as (i & Hi & Hp).
  exists i. split; [done|]. split; [done|].
  unfold DB_softDeletePost, bind, modify.
  rewrite initializeData_seeded by done. simpl. rewrite Hi, Hp. reflexivity.
Qed.

(** What [deleteOwned] answers, by cases on the record found. *)
Lemma PostModel_deleteOwned_outcome (postId_ userId_ : string) (w : World) :
  users w <> [] ->
  Validators.isValidId (JStr postId_) = true ->
  Validators.isValidId (JStr userId_) = true ->
  fst (PostModel_deleteOwned postId_ userId_ w)
  = match List.find (hasPostId postId_) (posts w) with
    | None => Thrown (EApp (NotFoundError "Post"))
    | Some post =>
        if timeTruthy (postDeletedAt post) then Thrown (EApp (NotFoundError "Post"))
        else if negb (String.eqb (postUserId post) userId_)
        then Thrown (EApp (ForbiddenError "You can only delete your own posts"))
        else Returned true
    end.
Proof.
  intros Hseed Hpid Huid. unfold PostModel_deleteOwned. rewrite Hpid, Huid. simpl.
  unfold bind at 1.
  unfold DB_transaction, bind, modify, tryCatch, theTx, getWorld, throw, throwApp. simpl.
  rewrite initializeData_seeded by done. simpl.
  rewrite DB_findPostById_seeded by done. simpl.
  destruct (List.find (hasPostId postId_) (posts w)) as [post|] eqn:Hfind; [|reflexivity].
  destruct (timeTruthy (postDeletedAt post)); [reflexivity|].
  destruct (negb (String.eqb (postUserId post) userId_)); [reflexivity|].
  destruct (DB_softDeletePost_seeded postId_ post
              (addCall (CallFindPostById postId_) (addCall CallTransaction w)) Hseed Hfind)
    as (i & Hi & Hp & Hdel).
  unfold throw in Hdel. rewrite Hdel. unfold ret, cache_delete, modify.
  pose proof (deletePatterns_of_post_write userId_) as Hpat. unfold bind in Hpat.
  match goal with
  | |- context [cache_deletePattern ("posts:user:" +:+ userId_ +:+ ":*") ?w1] =>
      specialize (Hpat w1 Huid);
      destruct (cache_deletePattern ("posts:user:" +:+ userId_ +:+ ":*") w1) as [[[]|e1] w2];
        [|discriminate]
  end.
  destruct (cache_deletePattern "posts:feed:*" w2) as [[[]|e2] w3]; [|discriminate].
  reflexivity.
Qed.

(** The state a successful [deleteOwned] leaves. *)
Lemma PostModel_deleteOwned_success (postId_ userId_ : string) (p : Post) (w : World) :
  users w <> [] ->
  Validators.isValidId (JStr postId_) = true ->
  Validators.isValidId (JStr userId_) = true ->
  List.find (hasPostId postId_) (posts w) = Some p ->
  postDeletedAt p = TNull ->
  postUserId p = userId_ ->
  exists i w',
    findIndex (hasPostId postId_) (posts w) = Some i
    /\ posts w !! i = Some p
    /\ PostModel_deleteOwned postId_ userId_ w = (Returned true, w')
    /\ users w' = users w
    /\ posts w' = <[i := markDeleted (clock (clockReads w)) p]> (posts w)
    /\ cache w' = invalidatePosts userId_ (delete (cacheKeys_post postId_) (cache w)).
Proof.
  intros Hseed Hpid Huid Hfind Hlive Hown.
  destruct (DB_softDeletePost_seeded postId_ p
              (addCall (CallFindPostById postId_) (addCall CallTransaction w)) Hseed Hfind)
    as (i & Hi & Hp & Hdel).
  exists i. eexists. split; [exact Hi|]. split; [exact Hp|].
  split; [|split; [|split]]; cycle 1.
  4:{ unfold PostModel_deleteOwned. rewrite Hpid, Huid. simpl.
      unfold bind at 1.
      unfold DB_transaction, bind, modify, tryCatch, theTx, getWorld, throw, throwApp. simpl.
      rewrite initializeData_seeded by done. simpl.
      rewrite DB_findPostById_seeded by done. simpl. rewrite Hfind, Hlive. simpl.
      assert (String.eqb (postUserId p) userId_ = true) as -> by by apply String.eqb_eq.
      simpl. unfold throw in Hdel. rewrite Hdel. unfold ret, cache_delete, modify.
      rewrite deleteUserPostsPattern by done. reflexivity. }
  all: reflexivity.
Qed.

(** A successful [deleteOwned] ends with the key deletion and the two
    pattern deletions. *)
Lemma PostModel_deleteOwned_inv (postId_ userId_ : string) (b : bool) (w w' : World) :
  PostModel_deleteOwned postId_ userId_ w = (Returned b, w') ->
  Validators.isValidId (JStr userId_) = true
  /\ exists w1,
       w' = setCache (invalidatePosts userId_ (delete (cacheKeys_post postId_) (cache w1))) w1.
Proof.
  unfold PostModel_deleteOwned.
  destruct (Validators.isValidId (JStr postId_)); [|discriminate].
  destruct (Validators.isValidId (JStr userId_)) eqn:Huid; [|discriminate]. simpl.
  unfold bind at 1.
  destruct (DB_transaction _ w) as [[q|err] w1] eqn:Htx; [|discriminate].
  unfold bind, cache_delete, modify.
  rewrite deleteUserPostsPattern by done. cbv beta iota.
      rewrite deleteFeedPattern.
  unfold ret. intros [= -> <-]. split; [done|]. by exists w1.
Qed.

Lemma register_inv (e pw dn : JsVal) (r : AuthResult) (w w' : World) :
  register e pw dn w = (Returned r, w') ->
  exists w1, w' = setCache (delete cacheKeys_allUsers (cache w1)) w1.
Proof.
  unfold register. unfold bind at 1. unfold liftOutcome.
  destruct (Validators.validateRegistration e pw dn) as [[]|err]; [|discriminate].
  destruct e as [e|]; [|discriminate]. destruct pw as [pw|]; [|discriminate].
  destruct dn as [dn|]; [|discriminate].
  unfold bind at 1.
  destruct (DB_findUserByEmail (normalizeEmail e) w) as [[[u|]|err] w1]; try discriminate.
  unfold hashPassword. unfold bind at 1. unfold ret at 1.
  unfold bind at 1.
  destruct (DB_createUser _ _ _ _ _ w1) as [[u|err] w2]; [|discriminate].
  unfold bind, cache_delete, modify, ret. intros [= <- <-]. by exists w2.
Qed.

(** C4: after a successful [create] by the author [userId_] no key that
    matches [posts:feed:*] or [posts:user:<userId_>:*] is in the cache;
    after a successful [deleteOwned] the key [post:<postId_>] is absent
    as well; after a successful [register] the key [users:all] is
    absent.  This holds for every state of the cache before the write. *)
Theorem writes_invalidate_cache_keys :
  (forall (userId_ : string) (c : JsVal) (w w' : World) (p : Post) (key : string),
      PostModel_create userId_ c w = (Returned p, w') ->
      hasPrefix "posts:feed:" key \/ hasPrefix ("posts:user:" +:+ userId_ +:+ ":") key ->
      cache w' !! key = None)
  /\ (forall (postId_ userId_ : string) (b : bool) (w w' : World) (key : string),
        PostModel_deleteOwned postId_ userId_ w = (Returned b, w') ->
        key = "post:" +:+ postId_
        \/ hasPrefix "posts:feed:" key
        \/ hasPrefix ("posts:user:" +:+ userId_ +:+ ":") key ->
        cache w' !! key = None)
  /\ (forall (e pw dn : JsVal) (r : AuthResult) (w w' : World),
        register e pw dn w = (Returned r, w') ->
        cache w' !! "users:all" = None).
Proof.
  split; [|split].
  - intros userId_ c w w' p key Hok Hkey.
    destruct (PostModel_create_inv _ _ _ _ _ Hok) as (_ & w1 & -> & _).
    simpl. by apply invalidatePosts_gone.
  - intros postId_ userId_ b w w' key Hok Hkey.
    destruct (PostModel_deleteOwned_inv _ _ _ _ _ Hok) as (_ & w1 & ->).
    simpl. destruct Hkey as [->|Hkey].
    + apply invalidatePosts_lookup_None. apply lookup_delete_eq.
    + by apply invalidatePosts_gone.
  - intros e pw dn r w w' Hok.
    destruct (register_inv _ _ _ _ _ _ Hok) as (w1 & ->).
    simpl. apply lookup_delete_eq.
Qed.

(** *** Rules for [Keeps] *)

Section KeepsRules.
Context (I : World -> Prop).

Lemma Keeps_ret {A} (a : A) (Q : A -> Prop) : Q a -> Keeps I (ret a) Q.
Proof. intros HQ w Hw. simpl. split; [done|]. by intros ? [= <-]. Qed.

Lemma Keeps_throw {A} (e : Exn) (Q : A -> Prop) : Keeps I (throw e) Q.
Proof. intros w Hw. simpl. split; [done|]. intros ? [=]. Qed.

Lemma Keeps_bind {A B} (m : M A) (k : A -> M B) (Q1 : A -> Prop) (Q2 : B -> Prop) :
  Keeps I m Q1 -> (forall a, Q1 a -> Keeps I (k a) Q2) -> Keeps I (bind m k) Q2.
Proof.
  intros Hm Hk w Hw. unfold bind. destruct (Hm w Hw) as [Hw1 Ha].
  destruct (m w) as [[a|e] w1]; simpl in *.
  - apply (Hk a); auto.
  - split; [done|]. intros ? [=].
Qed.

Lemma Keeps_tryCatch {A} (m : M A) (h : Exn -> M A) (Q : A -> Prop) :
  Keeps I m Q -> (forall e, Keeps I (h e) Q) -> Keeps I (tryCatch m h) Q.
Proof.
  intros Hm Hh w Hw. unfold tryCatch. destruct (Hm w Hw) as [Hw1 Ha].
  destruct (m w) as [[a|e] w1]; simpl in *.
  - split; [done|]. intros ? [= <-]. auto.
  - by apply Hh.
Qed.

Lemma Keeps_liftOutcome {A} (o : Outcome A) (Q : A -> Prop) :
  (forall a, o = Returned a -> Q a) -> Keeps I (liftOutcome o) Q.
Proof. intros HQ w Hw. simpl. split; [done|]. auto. Qed.

Lemma Keeps_weaken {A} (m : M A) (Q Q' : A -> Prop) :
  Keeps I m Q -> (forall a, Q a -> Q' a) -> Keeps I m Q'.
Proof. intros Hm HQ w Hw. destruct (Hm w Hw) as [Hw1 Ha]. split; auto. Qed.

Lemma Keeps_mapM {A B} (f : A -> M B) (l : list A) (R : B -> Prop) :
  (forall a, In a l -> Keeps I (f a) R) -> Keeps I (mapM f l) (Forall R).
Proof.
  induction l as [|a l IH]; intros Hf; simpl.
  - by apply Keeps_ret.
  - eapply Keeps_bind; [apply Hf; by left|]. intros b Hb.
    eapply Keeps_bind; [apply IH; intros a' Ha'; apply Hf; by right|].
    intros bs Hbs. apply Keeps_ret. by constructor.
Qed.

End KeepsRules.

(** *** Membership through sorting and slicing *)

Lemma In_insertBy {A} (cmp : A -> A -> Z) (x y : A) (l : list A) :
  In x (insertBy cmp y l) -> x = y \/ In x l.
Proof.
  induction l as [|a l IH]; simpl; [intuition congruence|].
  destruct (cmp y a <=? 0); simpl; [intuition congruence|]. intros [->|H]; [tauto|].
  destruct (IH H); tauto.
Qed.

Lemma In_sortBy {A} (cmp : A -> A -> Z) (x : A) (l : list A) :
  In x (sortBy cmp l) -> In x l.
Proof.
  induction l as [|a l IH]; simpl; [done|].
  intros H. apply In_insertBy in H as [->|H]; auto.
Qed.

Lemma In_jsSlice {A} (a b : Z) (x : A) (l : list A) :
  In x (jsSlice a b l) -> In x l.
Proof.
  unfold jsSlice. intros H. apply list_elem_of_In in H. apply list_elem_of_In.
  by apply subseteq_take, subseteq_drop in H.
Qed.

(** What [DB.findPosts] returns comes from the store and respects the
    filters. *)
Lemma DB_findPosts_seeded (o : FindPostsOptions) (w : World) :
  users w <> [] ->
  snd (DB_findPosts o w) = addCall CallFindPosts w
  /\ forall l, fst (DB_findPosts o w) = Returned l ->
       forall q, In q l ->
         In q (posts w)
         /\ (whereDeletedAtNull o = true -> postDeletedAt q = TNull)
         /\ (forall uid, whereUserId o = Some uid -> String.eqb uid "" = false ->
             postUserId q = uid).
Proof.
  intros Hseed. unfold DB_findPosts, bind, modify, getWorld.
  rewrite initializeData_seeded by done. simpl.
  set (byUser := match whereUserId o with
                 | Some uid =>
                     if String.eqb uid "" then posts w
                     else List.filter (fun p => String.eqb (postUserId p) uid) (posts w)
                 | None => posts w
                 end).
  set (live := if whereDeletedAtNull o then List.filter notDeleted byUser else byUser).
  assert (forall q, In q live ->
            In q (posts w)
            /\ (whereDeletedAtNull o = true -> postDeletedAt q = TNull)
            /\ (forall uid, whereUserId o = Some uid -> String.eqb uid "" = false ->
                postUserId q = uid)) as Hlive.
  { intros q Hq.
    assert (In q byUser /\ (whereDeletedAtNull o = true -> postDeletedAt q = TNull))
      as [Hq1 Hq2].
    { subst live. destruct (whereDeletedAtNull o); [|by split].
      apply filter_In in Hq as [Hq Hnd]. split; [done|]. intros _.
      unfold notDeleted in Hnd. by destruct (postDeletedAt q). }
    split; [|split; [done|]].
    - subst byUser. destruct (whereUserId o) as [uid|]; [|done].
      destruct (String.eqb uid ""); [done|]. by apply filter_In in Hq1 as [? _].
    - intros uid Huid Hne. subst byUser. rewrite Huid, Hne in Hq1.
      apply filter_In in Hq1 as [_ Hq1]. by apply String.eqb_eq in Hq1. }
  clearbody live. clear byUser.
  destruct (orderByCreatedAt o) as [order|]; simpl.
  - destruct (String.eqb order ""); simpl.
    + split; [done|]. intros l [= <-] q Hq. apply Hlive. by eapply In_jsSlice.
    + destruct ((2 <=? Z.of_nat (List.length live))
                && existsb (fun p => negb (isDate (postCreatedAt p))) live); simpl.
      * split; [done|]. intros l [=].
      * split; [done|]. intros l [= <-] q Hq. apply Hlive.
        eapply In_sortBy. by eapply In_jsSlice.
  - split; [done|]. intros l [= <-] q Hq. apply Hlive. by eapply In_jsSlice.
Qed.

(** *** Reads after a soft delete *)

Lemma Gone_frame (pid : string) (w w' : World) :
  users w' = users w -> posts w' = posts w -> cache w' ⊆ cache w ->
  Gone pid w -> Gone pid w'.
Proof.
  intros Hu Hp Hc (Hseed & Hstore & Hcache). unfold Gone. rewrite Hu, Hp.
  split; [done|]. split; [done|]. intros key item Hk.
  apply (Hcache key). by eapply lookup_weaken.
Qed.

Lemma freshEntry_cases (key : string) (w : World) :
  freshEntry key w \/ ~ freshEntry key w.
Proof.
  unfold freshEntry. destruct (cache w !! key) as [item|] eqn:Hk.
  - destruct (Z.le_gt_cases (clock (clockReads w)) (expiresAt item)) as [Hle|Hgt].
    + left. by exists item.
    + right. intros (item' & [= <-] & Hle). lia.
  - right. intros (item' & [=] & _).
Qed.

Lemma afterMiss_frame (key : string) (w : World) :
  users (afterMiss key w) = users w
  /\ posts (afterMiss key w) = posts w
  /\ cache (afterMiss key w) ⊆ cache w.
Proof.
  unfold afterMiss. destruct (cache w !! key); simpl; repeat split; try done.
  apply delete_subseteq.
Qed.

(** The read path keeps the post out of sight when its loader does. *)
Lemma Gone_cacheAside (pid key : string) (loader : M CVal) :
  Keeps (Gone pid) loader (fun v => ~ mentions pid v) ->
  Keeps (Gone pid) (cacheAside key loader) (fun v => ~ mentions pid v).
Proof.
  intros Hloader w Hw. destruct (freshEntry_cases key w) as [(item & Hk & Hle)|Hstale].
  - rewrite (cacheAside_hit key loader item w Hk Hle). simpl. split.
    + by apply (Gone_frame pid w).
    + intros v [= <-]. destruct Hw as (_ & _ & Hcache). by apply (Hcache key).
  - rewrite (cacheAside_miss key loader w Hstale).
    destruct (afterMiss_frame key w) as (Hu & Hp & Hc).
    destruct (Hloader (afterMiss key w) (Gone_frame pid w _ Hu Hp Hc Hw)) as [Hw2 Hv].
    destruct (loader (afterMiss key w)) as [[v|e] w2]; simpl in *.
    + specialize (Hv v eq_refl). split; [|by intros ? [= <-]].
      destruct Hw2 as (Hseed & Hstore & Hcache). split; [done|]. split; [done|].
      simpl. intros key' item Hk. destruct (decide (key = key')) as [<-|Hne].
      * rewrite lookup_insert_eq in Hk. by injection Hk as <-.
      * rewrite lookup_insert_ne in Hk by done. by apply (Hcache key').
    + split; [done|]. intros ? [=].
Qed.

Lemma DB_findAllUsers_seeded (w : World) :
  users w <> [] ->
  DB_findAllUsers w
  = (Returned (List.filter (fun u => negb (timeTruthy (userDeletedAt u))) (users w)),
     addCall CallFindAllUsers w).
Proof.
  intros H. unfold DB_findAllUsers, bind, modify.
  rewrite initializeData_seeded by done. reflexivity.
Qed.

Lemma Gone_DB_findUserById (pid id : string) (b : bool) :
  Keeps (Gone pid) (DB_findUserById id b) (fun _ => True).
Proof.
  intros w Hw. rewrite DB_findUserById_seeded by apply Hw. simpl.
  split; [|done]. by apply (Gone_frame pid w).
Qed.

Lemma Gone_DB_findAllUsers (pid : string) :
  Keeps (Gone pid) DB_findAllUsers (fun _ => True).
Proof.
  intros w Hw. rewrite DB_findAllUsers_seeded by apply Hw. simpl.
  split; [|done]. by apply (Gone_frame pid w).
Qed.

Lemma Gone_DB_findPosts (pid : string) (o : FindPostsOptions) :
  whereDeletedAtNull o = true ->
  Keeps (Gone pid) (DB_findPosts o) (Forall (fun q => postId q <> pid)).
Proof.
  intros Hlive w Hw. destruct (DB_findPosts_seeded o w) as [Hsnd Hfst]; [apply Hw|].
  rewrite Hsnd. split; [by apply (Gone_frame pid w)|].
  intros l Hl. apply Forall_forall. intros q Hq%list_elem_of_In Hid.
  destruct (Hfst l Hl q Hq) as (Hin & Hnull & _).
  destruct Hw as (_ & Hstore & _). by apply (Hstore q Hin Hid), Hnull.
Qed.

Lemma Gone_DB_findPostById (pid id : string) :
  Keeps (Gone pid) (DB_findPostById id)
    (fun found => forall q, found = Some q -> postId q = pid -> postDeletedAt q <> TNull).
Proof.
  intros w Hw. rewrite DB_findPostById_seeded by apply Hw. simpl.
  split; [by apply (Gone_frame pid w)|].
  intros found [= <-] q Hq Hid. apply find_some in Hq as [Hin _].
  destruct Hw as (_ & Hstore & _). by apply Hstore.
Qed.

Lemma Gone_UserModel_getById (pid id : string) :
  Keeps (Gone pid) (UserModel_getById id) (fun v => ~ mentions pid v).
Proof.
  unfold UserModel_getById. destruct (negb _); [apply Keeps_throw|].
  apply Gone_cacheAside.
  eapply Keeps_bind; [apply Gone_DB_findUserById|]. intros [u|] _.
  - apply Keeps_ret. by intros [].
  - apply Keeps_throw.
Qed.

Lemma Gone_UserModel_getAll (pid : string) :
  Keeps (Gone pid) UserModel_getAll (fun v => ~ mentions pid v).
Proof.
  unfold UserModel_getAll. apply Gone_cacheAside.
  eapply Keeps_bind; [apply Gone_DB_findAllUsers|]. intros us _.
  apply Keeps_ret. by intros [].
Qed.

Lemma not_mentions_VPosts (pid : string) (ps : list Post) :
  Forall (fun q => postId q <> pid) ps -> ~ mentions pid (VPosts ps).
Proof.
  intros Hps Hin. unfold mentions in Hin. simpl in Hin.
  apply in_map_iff in Hin as (q & Hid & Hq).
  rewrite Forall_forall in Hps. by apply (Hps q); [apply list_elem_of_In|].
Qed.

Lemma Gone_PostModel_getByUserId (pid userId_ : string) (limit offset : JsNum)
    (order : option JsVal) :
  Keeps (Gone pid) (PostModel_getByUserId userId_ limit offset order)
    (fun v => ~ mentions pid v).
Proof.
  unfold PostModel_getByUserId. destruct (negb _); [apply Keeps_throw|].
  eapply Keeps_bind; [by apply (Keeps_liftOutcome _ _ (fun _ => True))|]. intros pg _.
  apply Gone_cacheAside.
  eapply Keeps_bind; [by apply Gone_DB_findPosts|]. intros ps Hps.
  apply Keeps_ret. by apply not_mentions_VPosts.
Qed.

Lemma Gone_PostModel_getAllWithAuthors (pid : string) (limit offset : JsNum)
    (order : option JsVal) :
  Keeps (Gone pid) (PostModel_getAllWithAuthors limit offset order)
    (fun v => ~ mentions pid v).
Proof.
  unfold PostModel_getAllWithAuthors.
  eapply Keeps_bind; [by apply (Keeps_liftOutcome _ _ (fun _ => True))|]. intros pg _.
  apply Gone_cacheAside.
  eapply Keeps_bind; [by apply Gone_DB_findPosts|]. intros ps Hps.
  eapply Keeps_bind.
  - apply (Keeps_mapM _ _ _
             (fun b : option (Post * CVal) =>
                match b with Some (q, _) => postId q <> pid | None => True end)).
    intros post Hpost. apply Keeps_tryCatch.
    + eapply Keeps_bind; [apply Gone_UserModel_getById|]. intros author _.
      apply Keeps_ret. rewrite Forall_forall in Hps. by apply Hps, list_elem_of_In.
    + intros e. by apply Keeps_ret.
  - intros bs Hbs. apply Keeps_ret. intros Hin. unfold mentions in Hin. simpl in Hin.
    rewrite map_map in Hin. apply in_map_iff in Hin as ([q a] & Hid & Hq).
    apply list_elem_of_In, list_elem_of_omap in Hq as (b & Hb & Hsome).
    simpl in Hsome. subst b. rewrite Forall_forall in Hbs. by apply (Hbs _ Hb).
Qed.

Lemma Gone_PostModel_getById (pid postId_ : string) :
  Keeps (Gone pid) (PostModel_getById postId_) (fun v => ~ mentions pid v).
Proof.
  unfold PostModel_getById. destruct (negb _); [apply Keeps_throw|].
  apply Gone_cacheAside.
  eapply Keeps_bind; [apply Gone_DB_findPostById|]. intros [post|] Hfound.
  - destruct (timeTruthy (postDeletedAt post)) eqn:Hdel; [apply Keeps_throw|].
    eapply Keeps_bind; [apply Gone_UserModel_getById|]. intros author _.
    apply Keeps_ret. intros [Hid|[]]. simpl in Hid.
    apply (Hfound post eq_refl Hid). by destruct (postDeletedAt post).
  - apply Keeps_throw.
Qed.

Lemma Gone_runRead (pid : string) (r : Read) :
  Keeps (Gone pid) (runRead r) (fun v => ~ mentions pid v).
Proof.
  destruct r; simpl.
  - apply Gone_PostModel_getAllWithAuthors.
  - apply Gone_PostModel_getByUserId.
  - apply Gone_PostModel_getById.
  - apply Gone_UserModel_getById.
  - apply Gone_UserModel_getAll.
Qed.

(** No read of a sequence run in a state where the post is gone shows
    it. *)
Lemma Gone_runReads (pid : string) (rs : list Read) (w : World) :
  Gone pid w ->
  Forall (fun o => forall v, o = Returned v -> ~ mentions pid v) (fst (runReads rs w))
  /\ Gone pid (snd (runReads rs w)).
Proof.
  revert w. induction rs as [|r rs IH]; intros w Hw; simpl; [by split|].
  destruct (Gone_runRead pid r w Hw) as [Hw1 Hv].
  destruct (runRead r w) as [o w1]. simpl in *.
  destruct (IH w1 Hw1) as [Hos Hw2].
  destruct (runReads rs w1) as [os w2]. simpl in *.
  split; [|done]. constructor; [|done]. intros v ->. by apply Hv.
Qed.

Lemma NoDup_postId_eq (ps : list Post) (x y : Post) :
  NoDup (map postId ps) -> In x ps -> In y ps -> postId x = postId y -> x = y.
Proof.
  induction ps as [|a ps IH]; simpl; [done|]. intros Hnd Hx Hy Hid.
  apply NoDup_cons in Hnd as [Ha Hnd].
  destruct Hx as [->|Hx], Hy as [->|Hy]; auto.
  - exfalso. apply Ha. rewrite Hid. apply list_elem_of_In. by apply in_map.
  - exfalso. apply Ha. rewrite <- Hid. apply list_elem_of_In. by apply in_map.
Qed.

Lemma find_insert_first {A} (P : A -> bool) (l : list A) (i : nat) (x : A) :
  findIndex P l = Some i -> P x = true -> List.find P (<[i := x]> l) = Some x.
Proof.
  revert i. induction l as [|a l IH]; intros i; simpl; [done|].
  destruct (P a) eqn:Ha.
  - intros [= <-] Hx. simpl. by rewrite Hx.
  - destruct (findIndex P l) as [j|]; simpl; [|done].
    intros [= <-] Hx. simpl. rewrite Ha. by apply IH.
Qed.

(** The owner's delete marks the record and leaves no cached copy. *)
Lemma PostModel_deleteOwned_Gone (postId_ userId_ : string) (p : Post) (w : World) :
  users w <> [] ->
  Validators.isValidId (JStr postId_) = true ->
  Validators.isValidId (JStr userId_) = true ->
  NoDup (map postId (posts w)) ->
  CacheCoherent w ->
  List.find (hasPostId postId_) (posts w) = Some p ->
  postDeletedAt p = TNull ->
  postUserId p = userId_ ->
  exists w',
    PostModel_deleteOwned postId_ userId_ w = (Returned true, w')
    /\ Gone postId_ w'
    /\ List.find (hasPostId postId_) (posts w')
       = Some (markDeleted (clock (clockReads w)) p)
    /\ List.length (posts w') = List.length (posts w)
    /\ cache w' !! cacheKeys_post postId_ = None.
Proof.
  intros Hseed Hpid Huid Hnd Hcoh Hfind Hlive Hown.
  destruct (PostModel_deleteOwned_success postId_ userId_ p w Hseed Hpid Huid Hfind Hlive Hown)
    as (i & w' & Hi & Hp & Hrun & Hu & Hposts & Hcache).
  pose proof (find_some _ _ Hfind) as [Hin Hhas].
  assert (postId p = postId_) as Hidp by by apply String.eqb_eq in Hhas.
  exists w'. split; [done|]. split; [|split; [|split]].
  - split; [by rewrite Hu|]. split.
    + intros q Hq Hidq. rewrite Hposts in Hq.
      apply list_elem_of_In, list_elem_of_lookup in Hq as [j Hj].
      apply list_lookup_insert_Some in Hj as [(-> & <- & _)|(Hne & Hj)]; [done|].
      exfalso. apply Hne.
      eapply (NoDup_lookup (map postId (posts w))); [done| |].
      * rewrite list_lookup_fmap, Hp. reflexivity.
      * rewrite list_lookup_fmap, Hj. simpl. congruence.
    + intros key item Hk Hment. rewrite Hcache in Hk.
      assert (cache w !! key = Some item) as Hk0.
      { eapply lookup_weaken; [exact Hk|].
        etransitivity; [apply invalidatePosts_subseteq|apply delete_subseteq]. }
      unfold mentions in Hment. apply in_map_iff in Hment as (q & Hidq & Hq).
      destruct (Hcoh key item q Hk0 Hq) as (Hcov & p' & Hin' & Hid' & Hauth').
      assert (p' = p) as -> by (apply (NoDup_postId_eq (posts w)); auto; congruence).
      assert (cache w' !! key = None) as Hnone.
      { rewrite Hcache. destruct Hcov as [->|Hcov].
        - apply invalidatePosts_lookup_None. rewrite Hidq. apply lookup_delete_eq.
        - apply invalidatePosts_gone. rewrite <- Hauth', Hown in Hcov. tauto. }
      rewrite Hcache in Hnone. congruence.
  - rewrite Hposts. by apply find_insert_first.
  - rewrite Hposts. apply length_insert.
  - rewrite Hcache. apply invalidatePosts_lookup_None, lookup_delete_eq.
Qed.

(** Reading a deleted post by its id, with nothing cached under its
    key, answers [NotFound]. *)
Lemma PostModel_getById_deleted (postId_ : string) (q : Post) (w : World) :
  users w <> [] ->
  Validators.isValidId (JStr postId_) = true ->
  cache w !! cacheKeys_post postId_ = None ->
  List.find (hasPostId postId_) (posts w) = Some q ->
  postDeletedAt q <> TNull ->
  fst (PostModel_getById postId_ w) = Thrown (EApp (NotFoundError "Post")).
Proof.
  intros Hseed Hpid Hk Hfind Hdel. unfold PostModel_getById. rewrite Hpid. simpl.
  rewrite cacheAside_miss.
  2:{ intros (item & Hitem & _). congruence. }
  unfold afterMiss. rewrite Hk. unfold bind.
  rewrite DB_findPostById_seeded by done. rewrite Hfind.
  by destruct (postDeletedAt q).
Qed.

(** C5, amended: with a post id and a user id of UUID shape,
    [deleteOwned] answers [NotFound] when the store has no record with
    the id or has it marked deleted, and [Forbidden] when the record is
    live and belongs to someone else.  On the caller's own live post it
    returns, the record stays in the store with [deletedAt] set, and
    from then on a read of the post by its id answers [NotFound] and no
    sequence of feed, user-posts, post or user reads returns a value
    that shows the post. *)
Theorem deleteOwned_authorization_and_soft_delete
    (postId_ userId_ : string) (w : World) :
  users w <> [] ->
  Validators.isValidId (JStr postId_) = true ->
  Validators.isValidId (JStr userId_) = true ->
  (List.find (hasPostId postId_) (posts w) = None ->
   fst (PostModel_deleteOwned postId_ userId_ w) = Thrown (EApp (NotFoundError "Post")))
  /\ (forall p,
        List.find (hasPostId postId_) (posts w) = Some p ->
        postDeletedAt p <> TNull ->
        fst (PostModel_deleteOwned postId_ userId_ w) = Thrown (EApp (NotFoundError "Post")))
  /\ (forall p,
        List.find (hasPostId postId_) (posts w) = Some p ->
        postDeletedAt p = TNull ->
        postUserId p <> userId_ ->
        fst (PostModel_deleteOwned postId_ userId_ w)
        = Thrown (EApp (ForbiddenError "You can only delete your own posts")))
  /\ (forall p,
        List.find (hasPostId postId_) (posts w) = Some p ->
        postDeletedAt p = TNull ->
        postUserId p = userId_ ->
        NoDup (map postId (posts w)) ->
        CacheCoherent w ->
        exists w',
          PostModel_deleteOwned postId_ userId_ w = (Returned true, w')
          /\ List.find (hasPostId postId_) (posts w')
             = Some (markDeleted (clock (clockReads w)) p)
          /\ List.length (posts w') = List.length (posts w)
          /\ fst (PostModel_getById postId_ w') = Thrown (EApp (NotFoundError "Post"))
          /\ forall rs : list Read,
               Forall (fun o => forall v, o = Returned v -> ~ mentions postId_ v)
                 (fst (runReads rs w'))).
Proof.
  intros Hseed Hpid Huid.
  pose proof (PostModel_deleteOwned_outcome postId_ userId_ w Hseed Hpid Huid) as Hout.
  split; [|split; [|split]].
  - intros Hnone. by rewrite Hout, Hnone.
  - intros p Hfind Hdel. rewrite Hout, Hfind. by destruct (postDeletedAt p).
  - intros p Hfind Hlive Hother. rewrite Hout, Hfind, Hlive. simpl.
    destruct (String.eqb_spec (postUserId p) userId_); [done|reflexivity].
  - intros p Hfind Hlive Hown Hnd Hcoh.
    destruct (PostModel_deleteOwned_Gone postId_ userId_ p w
                Hseed Hpid Huid Hnd Hcoh Hfind Hlive Hown)
      as (w' & Hrun & Hgone & Hfind' & Hlen & Hkey).
    exists w'. split; [done|]. split; [done|]. split; [done|]. split.
    + apply (PostModel_getById_deleted postId_ (markDeleted (clock (clockReads w)) p));
        [apply Hgone|done|done|done|done].
    + intros rs. by apply Gone_runReads.
Qed.

(** *** Coherence of the cache is an invariant

    The precondition of the soft-delete theorem holds of the empty cache
    and is kept by every read and by the successful post writes. *)

Lemma CacheCoherent_empty (w : World) : cache w = ∅ -> CacheCoherent w.
Proof. intros He key item q Hk. rewrite He in Hk. by rewrite lookup_empty in Hk. Qed.

Lemma append_assoc (s1 s2 s3 : string) : (s1 +:+ s2) +:+ s3 = s1 +:+ (s2 +:+ s3).
Proof.
  induction s1 as [|c s1 IH]; [done|].
  change (String c ((s1 +:+ s2) +:+ s3) = String c (s1 +:+ (s2 +:+ s3))). by f_equal.
Qed.

(** A store that keeps the ids and authors of its posts and does not
    add to the cache stays coherent. *)
Lemma CacheCoherent_mono (w w' : World) :
  (forall p, In p (posts w) ->
     exists p', In p' (posts w') /\ postId p' = postId p /\ postUserId p' = postUserId p) ->
  cache w' ⊆ cache w ->
  CacheCoherent w -> CacheCoherent w'.
Proof.
  intros Hposts Hsub Hcoh key item q Hk Hq.
  destruct (Hcoh key item q (lookup_weaken _ _ _ _ Hk Hsub) Hq) as (Hcov & p & Hp & Hid & Hau).
  split; [done|]. destruct (Hposts p Hp) as (p' & Hp' & Hid' & Hau').
  exists p'. split; [done|]. split; congruence.
Qed.

Lemma Settled_frame (P0 : list Post) (w w' : World) :
  users w' = users w -> posts w' = posts w -> cache w' ⊆ cache w ->
  Settled P0 w -> Settled P0 w'.
Proof.
  intros Hu Hp Hc (Hseed & Hposts & Hcoh). split; [by rewrite Hu|]. split; [congruence|].
  apply (CacheCoherent_mono w w'); [|done|done].
  intros p Hin. exists p. by rewrite Hp.
Qed.

Lemma Settled_cacheAside (P0 : list Post) (key : string) (loader : M CVal) :
  Keeps (Settled P0) loader (Covered P0 key) ->
  Keeps (Settled P0) (cacheAside key loader) (fun _ => True).
Proof.
  intros Hloader w Hw. split; [|done].
  destruct (freshEntry_cases key w) as [(item & Hk & Hle)|Hstale].
  - rewrite (cacheAside_hit key loader item w Hk Hle). simpl.
    by apply (Settled_frame P0 w).
  - rewrite (cacheAside_miss key loader w Hstale).
    destruct (afterMiss_frame key w) as (Hu & Hp & Hc).
    destruct (Hloader (afterMiss key w) (Settled_frame P0 w _ Hu Hp Hc Hw)) as [Hw2 Hv].
    destruct (loader (afterMiss key w)) as [[v|e] w2]; simpl in *; [|done].
    specialize (Hv v eq_refl). destruct Hw2 as (Hseed & Hposts & Hcoh).
    split; [done|]. split; [done|]. intros key' item q Hk Hq. simpl in Hk.
    destruct (decide (key = key')) as [<-|Hne].
    + rewrite lookup_insert_eq in Hk. injection Hk as <-. simpl in *.
      rewrite Hposts. by apply Hv.
    + rewrite lookup_insert_ne in Hk by done. by apply (Hcoh key' item).
Qed.

Lemma Settled_DB_findUserById (P0 : list Post) (id : string) (b : bool) :
  Keeps (Settled P0) (DB_findUserById id b) (fun _ => True).
Proof.
  intros w Hw. rewrite DB_findUserById_seeded by apply Hw. simpl.
  split; [|done]. by apply (Settled_frame P0 w).
Qed.

Lemma Settled_DB_findAllUsers (P0 : list Post) :
  Keeps (Settled P0) DB_findAllUsers (fun _ => True).
Proof.
  intros w Hw. rewrite DB_findAllUsers_seeded by apply Hw. simpl.
  split; [|done]. by apply (Settled_frame P0 w).
Qed.

Lemma Settled_DB_findPosts (P0 : list Post) (o : FindPostsOptions) :
  Keeps (Settled P0) (DB_findPosts o)
    (fun l => forall q, In q l ->
       In q P0
       /\ forall uid, whereUserId o = Some uid -> String.eqb uid "" = false ->
            postUserId q = uid).
Proof.
  intros w Hw. destruct (DB_findPosts_seeded o w) as [Hsnd Hfst]; [apply Hw|].
  rewrite Hsnd. split; [by apply (Settled_frame P0 w)|].
  intros l Hl q Hq. destruct (Hfst l Hl q Hq) as (Hin & _ & Huid).
  destruct Hw as (_ & <- & _). by split.
Qed.

Lemma Settled_DB_findPostById (P0 : list Post) (id : string) :
  Keeps (Settled P0) (DB_findPostById id)
    (fun found => forall q, found = Some q -> In q P0 /\ postId q = id).
Proof.
  intros w Hw. rewrite DB_findPostById_seeded by apply Hw. simpl.
  split; [by apply (Settled_frame P0 w)|].
  intros found [= <-] q Hq. apply find_some in Hq as [Hin Hid].
  destruct Hw as (_ & <- & _). split; [done|]. by apply String.eqb_eq in Hid.
Qed.

Lemma Settled_UserModel_getById (P0 : list Post) (id : string) :
  Keeps (Settled P0) (UserModel_getById id) (fun _ => True).
Proof.
  unfold UserModel_getById. destruct (negb _); [apply Keeps_throw|].
  apply Settled_cacheAside.
  eapply Keeps_bind; [apply Settled_DB_findUserById|]. intros [u|] _.
  - apply Keeps_ret. by intros q [].
  - apply Keeps_throw.
Qed.

Lemma Settled_UserModel_getAll (P0 : list Post) :
  Keeps (Settled P0) UserModel_getAll (fun _ => True).
Proof.
  unfold UserModel_getAll. apply Settled_cacheAside.
  eapply Keeps_bind; [apply Settled_DB_findAllUsers|]. intros us _.
  apply Keeps_ret. by intros q [].
Qed.

Lemma Settled_PostModel_getByUserId (P0 : list Post) (userId_ : string)
    (limit offset : JsNum) (order : option JsVal) :
  Keeps (Settled P0) (PostModel_getByUserId userId_ limit offset order) (fun _ => True).
Proof.
  unfold PostModel_getByUserId.
  destruct (Validators.isValidId (JStr userId_)) eqn:Hid; [|apply Keeps_throw]. simpl.
  assert (String.eqb userId_ "" = false) as Hne.
  { destruct userId_; [|done]. vm_compute in Hid. discriminate. }
  eapply Keeps_bind; [by apply (Keeps_liftOutcome _ _ (fun _ => True))|]. intros pg _.
  apply Settled_cacheAside.
  eapply Keeps_bind; [apply Settled_DB_findPosts|]. intros ps Hps.
  apply Keeps_ret. intros q Hq. simpl in Hq. destruct (Hps q Hq) as [Hin Huid].
  split; [|by exists q].
  right. right. rewrite (Huid userId_ eq_refl Hne).
  exists ("page:" +:+ pretty (Validators.pgOffset pg / Validators.pgLimit pg)).
  unfold cacheKeys_userPosts. rewrite !append_assoc. reflexivity.
Qed.

Lemma Settled_PostModel_getAllWithAuthors (P0 : list Post) (limit offset : JsNum)
    (order : option JsVal) :
  Keeps (Settled P0) (PostModel_getAllWithAuthors limit offset order) (fun _ => True).
Proof.
  unfold PostModel_getAllWithAuthors.
  eapply Keeps_bind; [by apply (Keeps_liftOutcome _ _ (fun _ => True))|]. intros pg _.
  apply Settled_cacheAside.
  eapply Keeps_bind; [apply Settled_DB_findPosts|]. intros ps Hps.
  eapply Keeps_bind.
  - apply (Keeps_mapM _ _ _
             (fun b : option (Post * CVal) =>
                match b with Some (q, _) => In q P0 | None => True end)).
    intros post Hpost. apply Keeps_tryCatch.
    + eapply Keeps_bind; [apply Settled_UserModel_getById|]. intros author _.
      apply Keeps_ret. by apply Hps.
    + intros e. by apply Keeps_ret.
  - intros bs Hbs. apply Keeps_ret. intros q Hq. simpl in Hq.
    apply in_map_iff in Hq as ([q' a] & <- & Hq).
    apply list_elem_of_In, list_elem_of_omap in Hq as (b & Hb & Hsome).
    simpl in Hsome. subst b. rewrite Forall_forall in Hbs. specialize (Hbs _ Hb).
    simpl in *. split; [|by exists q'].
    right. left.
    by exists ("page:" +:+ pretty (Validators.pgOffset pg / Validators.pgLimit pg)).
Qed.

Lemma Settled_PostModel_getById (P0 : list Post) (postId_ : string) :
  Keeps (Settled P0) (PostModel_getById postId_) (fun _ => True).
Proof.
  unfold PostModel_getById. destruct (negb _); [apply Keeps_throw|].
  apply Settled_cacheAside.
  eapply Keeps_bind; [apply Settled_DB_findPostById|]. intros [post|] Hfound.
  - destruct (timeTruthy (postDeletedAt post)); [apply Keeps_throw|].
    eapply Keeps_bind; [apply Settled_UserModel_getById|]. intros author _.
    apply Keeps_ret. intros q [<-|[]]. destruct (Hfound post eq_refl) as [Hin Hid].
    split; [|by exists post]. left. by rewrite Hid.
  - apply Keeps_throw.
Qed.

Lemma Settled_runRead (P0 : list Post) (r : Read) :
  Keeps (Settled P0) (runRead r) (fun _ => True).
Proof.
  destruct r; simpl.
  - apply Settled_PostModel_getAllWithAuthors.
  - apply Settled_PostModel_getByUserId.
  - apply Settled_PostModel_getById.
  - apply Settled_UserModel_getById.
  - apply Settled_UserModel_getAll.
Qed.

(** Reads keep the store and the coherence of the cache. *)
Lemma CacheCoherent_runReads (rs : list Read) (w : World) :
  users w <> [] -> CacheCoherent w ->
  posts (snd (runReads rs w)) = posts w /\ CacheCoherent (snd (runReads rs w)).
Proof.
  intros Hseed Hcoh.
  assert (Settled (posts w) w) as Hw by done.
  remember (posts w) as P0 eqn:EP.
  enough (Settled P0 (snd (runReads rs w))) as (_ & Hp & Hc) by done.
  clear EP Hseed Hcoh. revert w Hw.
  induction rs as [|r rs IH]; intros w Hw; simpl; [done|].
  destruct (Settled_runRead P0 r w Hw) as [Hw1 _].
  destruct (runRead r w) as [o w1]. simpl in *.
  specialize (IH w1 Hw1). by destruct (runReads rs w1).
Qed.

(** The state a successful [create] leaves. *)
Lemma PostModel_create_success (userId_ : string) (c : JsVal) (w w' : World) (p : Post) :
  users w <> [] ->
  PostModel_create userId_ c w = (Returned p, w') ->
  users w' = users w
  /\ posts w' = posts w ++ [p]
  /\ cache w' = invalidatePosts userId_ (cache w).
Proof.
  intros Hseed. unfold PostModel_create.
  destruct (Validators.isValidId (JStr userId_)) eqn:Hid; [|discriminate]. simpl.
  unfold bind at 1. unfold liftOutcome.
  destruct (Validators.validatePostContent c) as [[]|err]; [|discriminate].
  unfold bind at 1.
  destruct (DB_transaction _ w) as [[q|err] w1] eqn:Htx; [|discriminate].
  unfold bind. rewrite deleteUserPostsPattern by done. cbv beta iota.
  rewrite deleteFeedPattern. unfold ret. intros [= -> <-].
  revert Htx. unfold DB_transaction, bind, modify, tryCatch, theTx, getWorld. simpl.
  rewrite initializeData_seeded by done. unfold ret. simpl.
  destruct (negb (existsb _ (users w))); simpl; [discriminate|].
  unfold DB_createPost, bind, modify.
  rewrite initializeData_seeded by done.
  unfold generateId, Date_now, getWorld, ret. simpl.
  intros [= <- <-]. by repeat split.
Qed.

Lemma CacheCoherent_create (userId_ : string) (c : JsVal) (w w' : World) (p : Post) :
  users w <> [] -> CacheCoherent w ->
  PostModel_create userId_ c w = (Returned p, w') ->
  CacheCoherent w'.
Proof.
  intros Hseed Hcoh Hrun.
  destruct (PostModel_create_success _ _ _ _ _ Hseed Hrun) as (_ & Hposts & Hcache).
  apply (CacheCoherent_mono w w'); [|by rewrite Hcache; apply invalidatePosts_subseteq|done].
  intros q Hq. exists q. rewrite Hposts. split; [|done]. apply in_or_app. by left.
Qed.

Lemma CacheCoherent_deleteOwned (postId_ userId_ : string) (b : bool) (w w' : World) :
  users w <> [] -> CacheCoherent w ->
  PostModel_deleteOwned postId_ userId_ w = (Returned b, w') ->
  CacheCoherent w'.
Proof.
  intros Hseed Hcoh Hrun.
  assert (Validators.isValidId (JStr postId_) = true
          /\ Validators.isValidId (JStr userId_) = true) as [Hpid Huid].
  { revert Hrun. unfold PostModel_deleteOwned.
    destruct (Validators.isValidId (JStr postId_)); [|discriminate].
    by destruct (Validators.isValidId (JStr userId_)). }
  pose proof (PostModel_deleteOwned_outcome postId_ userId_ w Hseed Hpid Huid) as Hout.
  rewrite Hrun in Hout. simpl in Hout.
  destruct (List.find (hasPostId postId_) (posts w)) as [p|] eqn:Hfind; [|discriminate].
  destruct (postDeletedAt p) eqn:Hlive; simpl in Hout; try discriminate.
  destruct (String.eqb_spec (postUserId p) userId_) as [Hown|]; [|discriminate].
  destruct (PostModel_deleteOwned_success postId_ userId_ p w Hseed Hpid Huid Hfind Hlive Hown)
    as (i & w2 & Hi & Hp & Hrun2 & Hu & Hposts & Hcache).
  rewrite Hrun in Hrun2. injection Hrun2 as _ <-.
  apply (CacheCoherent_mono w w'); [| |done].
  - intros q Hq. apply list_elem_of_In, list_elem_of_lookup in Hq as [j Hj].
    rewrite Hposts. destruct (decide (i = j)) as [<-|Hne].
    + exists (markDeleted (clock (clockReads w)) p).
      assert (q = p) as -> by congruence.
      split; [|done]. apply list_elem_of_In, list_elem_of_lookup. exists i.
      apply list_lookup_insert_eq. by eapply lookup_lt_Some.
    + exists q. split; [|done]. apply list_elem_of_In, list_elem_of_lookup. exists j.
      by rewrite list_lookup_insert_ne.
  - rewrite Hcache. etransitivity; [apply invalidatePosts_subseteq|apply delete_subseteq].
Qed.

(** ** Further properties of the sources *)

(** *** [sanitizeText] *)

Lemma singleSpaced_collapseSpaces (b : bool) (l : list ascii) :
  singleSpaced b (Validators.collapseSpaces b l) = true.
Proof.
  revert b. induction l as [|c l IH]; intros b; simpl; [done|].
  destruct (JsStr.is_space c) eqn:E.
  - destruct b; [apply IH|]. simpl. apply IH.
  - simpl. rewrite E. apply IH.
Qed.

Lemma collapseSpaces_singleSpaced (b : bool) (l : list ascii) :
  singleSpaced b l = true -> Validators.collapseSpaces b l = l.
Proof.
  revert b. induction l as [|c l IH]; intros b; simpl; [done|].
  destruct (JsStr.is_space c).
  - intros H. apply andb_true_iff in H as [H Hl]. apply andb_true_iff in H as [Hb Hc].
    destruct b; [done|]. apply Ascii.eqb_eq in Hc. subst c. f_equal. by apply IH.
  - intros H. f_equal. by apply IH.
Qed.

Lemma singleSpaced_weaken (l : list ascii) :
  singleSpaced true l = true -> singleSpaced false l = true.
Proof.
  destruct l as [|c l]; simpl; [done|]. destruct (JsStr.is_space c); [done|done].
Qed.

Lemma singleSpaced_any (b : bool) (l : list ascii) :
  singleSpaced b l = true -> singleSpaced false l = true.
Proof. destruct b; [apply singleSpaced_weaken|done]. Qed.

Lemma singleSpaced_app_l (b : bool) (l1 l2 : list ascii) :
  singleSpaced b (l1 ++ l2) = true -> singleSpaced b l1 = true.
Proof.
  revert b. induction l1 as [|c l1 IH]; intros b; simpl; [done|].
  destruct (JsStr.is_space c).
  - intros H. apply andb_true_iff in H as [H Hl]. rewrite H. simpl. by eapply IH.
  - apply IH.
Qed.

Lemma singleSpaced_trimStartL (b : bool) (l : list ascii) :
  singleSpaced b l = true -> singleSpaced false (JsStr.trimStartL l) = true.
Proof.
  revert b. induction l as [|c l IH]; intros b; simpl; [done|].
  destruct (JsStr.is_space c) eqn:E.
  - intros H. apply andb_true_iff in H as [_ Hl]. by eapply IH.
  - intros H. simpl. by rewrite E.
Qed.

(** What [trimStart] removes is white space. *)
Lemma trimStartL_split (l : list ascii) :
  exists sp, l = sp ++ JsStr.trimStartL l /\ Forall (fun c => JsStr.is_space c = true) sp.
Proof.
  induction l as [|c l (sp & Hl & Hsp)]; simpl; [by exists []|].
  destruct (JsStr.is_space c) eqn:E.
  - exists (c :: sp). split; [simpl; by f_equal|by constructor].
  - by exists [].
Qed.

Lemma trimEndL_split (l : list ascii) :
  exists sp, l = JsStr.trimEndL l ++ sp /\ Forall (fun c => JsStr.is_space c = true) sp.
Proof.
  unfold JsStr.trimEndL. destruct (trimStartL_split (rev l)) as (sp & Hl & Hsp).
  exists (rev sp). split; [|by apply Forall_rev].
  rewrite <- rev_app_distr, <- Hl. by rewrite rev_involutive.
Qed.

Lemma trimStartL_idem (l : list ascii) :
  JsStr.trimStartL (JsStr.trimStartL l) = JsStr.trimStartL l.
Proof.
  induction l as [|c l IH]; simpl; [done|].
  destruct (JsStr.is_space c) eqn:E; [done|]. simpl. by rewrite E.
Qed.

Lemma trimStartL_head (l : list ascii) (c : ascii) :
  head (JsStr.trimStartL l) = Some c -> JsStr.is_space c = false.
Proof.
  induction l as [|a l IH]; simpl; [done|].
  destruct (JsStr.is_space a) eqn:E; [done|]. simpl. congruence.
Qed.

Lemma trimStartL_fixed (l : list ascii) :
  (forall c, head l = Some c -> JsStr.is_space c = false) -> JsStr.trimStartL l = l.
Proof.
  destruct l as [|a l]; simpl; [done|]. intros H. by rewrite (H a).
Qed.

Lemma trimEndL_head (l : list ascii) (c : ascii) :
  (forall a, head l = Some a -> JsStr.is_space a = false) ->
  head (JsStr.trimEndL l) = Some c -> JsStr.is_space c = false.
Proof.
  intros Hl. destruct (trimEndL_split l) as (sp & Heq & Hsp).
  destruct (JsStr.trimEndL l) as [|a t]; simpl; [done|].
  intros [= ->]. apply Hl. rewrite Heq. reflexivity.
Qed.

Lemma trimEndL_last (l : list ascii) (c : ascii) :
  last (JsStr.trimEndL l) = Some c -> JsStr.is_space c = false.
Proof.
  unfold JsStr.trimEndL. destruct (JsStr.trimStartL (rev l)) as [|a t] eqn:E; [done|].
  simpl. rewrite last_snoc. intros [= <-]. apply (trimStartL_head (rev l)). by rewrite E.
Qed.

Lemma trimL_idem (l : list ascii) : JsStr.trimL (JsStr.trimL l) = JsStr.trimL l.
Proof.
  unfold JsStr.trimL at 1.
  rewrite (trimStartL_fixed (JsStr.trimL l)).
  - unfold JsStr.trimL, JsStr.trimEndL. by rewrite rev_involutive, trimStartL_idem.
  - intros c. apply trimEndL_head. apply trimStartL_head.
Qed.

Lemma singleSpaced_trimL (b : bool) (l : list ascii) :
  singleSpaced b l = true -> singleSpaced false (JsStr.trimL l) = true.
Proof.
  intros H. unfold JsStr.trimL.
  destruct (trimEndL_split (JsStr.trimStartL l)) as (sp & Heq & _).
  apply (singleSpaced_app_l false _ sp). rewrite <- Heq.
  by eapply singleSpaced_trimStartL.
Qed.

Lemma singleSpaced_spaces (b : bool) (l : list ascii) :
  singleSpaced b l = true ->
  Forall (fun c => JsStr.is_space c = true -> c = " "%char) l
  /\ forall i, l !! i = Some " "%char -> l !! S i <> Some " "%char.
Proof.
  revert b. induction l as [|c l IH]; intros b; simpl; [by split|].
  destruct (JsStr.is_space c) eqn:E.
  - intros H. apply andb_true_iff in H as [H Hl]. apply andb_true_iff in H as [_ Hc].
    apply Ascii.eqb_eq in Hc. destruct (IH _ Hl) as [IH1 IH2].
    split; [by constructor|]. intros [|i]; simpl; [|apply IH2].
    intros _ Hnext. destruct l as [|c2 l]; [done|]. simpl in Hnext.
    injection Hnext as ->. simpl in Hl. discriminate.
  - intros Hl. destruct (IH _ Hl) as [IH1 IH2].
    split; [constructor; [congruence|done]|]. intros [|i]; simpl; [|apply IH2].
    intros [= ->]. discriminate.
Qed.

Lemma removeAngleBrackets_none (l : list ascii) :
  Forall (fun c => isAngle c = false) (Validators.removeAngleBrackets l).
Proof.
  unfold Validators.removeAngleBrackets. apply List.Forall_forall. intros c Hc.
  apply filter_In in Hc as [_ Hc]. unfold isAngle. by destruct (_ || _).
Qed.

Lemma removeAngleBrackets_fixed (l : list ascii) :
  Forall (fun c => isAngle c = false) l -> Validators.removeAngleBrackets l = l.
Proof.
  unfold Validators.removeAngleBrackets, isAngle.
  induction 1 as [|c l Hc _ IH]; simpl; [done|]. rewrite Hc. simpl. by f_equal.
Qed.

Lemma collapseSpaces_no_angle (b : bool) (l : list ascii) :
  Forall (fun c => isAngle c = false) l ->
  Forall (fun c => isAngle c = false) (Validators.collapseSpaces b l).
Proof.
  intros H. revert b. induction H as [|c l Hc _ IH]; intros b; simpl; [done|].
  destruct (JsStr.is_space c); [destruct b|]; auto.
Qed.

Lemma trimL_no_angle (l : list ascii) :
  Forall (fun c => isAngle c = false) l ->
  Forall (fun c => isAngle c = false) (JsStr.trimL l).
Proof.
  intros H. unfold JsStr.trimL.
  destruct (trimStartL_split l) as (sp1 & H1 & _).
  destruct (trimEndL_split (JsStr.trimStartL l)) as (sp2 & H2 & _).
  rewrite H1 in H. apply Forall_app in H as [_ H].
  rewrite H2 in H. by apply Forall_app in H as [H _].
Qed.

(** X1: whatever the input, the text [sanitizeText] returns holds no
    angle bracket, its only white space is single space characters
    between other characters, never at either end, and sanitizing it
    again gives the same text. *)
Theorem sanitizeText_normal_form (text : JsVal) :
  let out := JsStr.chars (Validators.sanitizeText text) in
  Forall (fun c => c <> "<"%char /\ c <> ">"%char) out
  /\ Forall (fun c => JsStr.is_space c = true -> c = " "%char) out
  /\ (forall i, out !! i = Some " "%char -> out !! S i <> Some " "%char)
  /\ head out <> Some " "%char
  /\ last out <> Some " "%char
  /\ Validators.sanitizeText (JStr (Validators.sanitizeText text))
     = Validators.sanitizeText text.
Proof.
  destruct text as [s|]; [|by repeat split; try constructor].
  cbv zeta. unfold Validators.sanitizeText. rewrite !chars_str.
  set (x := Validators.removeAngleBrackets (JsStr.chars s)).
  set (y := Validators.collapseSpaces false x).
  assert (Forall (fun c => isAngle c = false) (JsStr.trimL y)) as Hangle.
  { apply trimL_no_angle, collapseSpaces_no_angle, removeAngleBrackets_none. }
  assert (singleSpaced false (JsStr.trimL y) = true) as Hsp.
  { eapply singleSpaced_trimL, singleSpaced_collapseSpaces. }
  destruct (singleSpaced_spaces _ _ Hsp) as [Hsp1 Hsp2].
  split; [|split; [done|split; [done|split; [|split]]]].
  - eapply Forall_impl; [exact Hangle|]. intros c Hc. unfold isAngle in Hc.
    apply orb_false_iff in Hc as [H1 H2].
    split; intros ->; by vm_compute in H1, H2.
  - intros H. apply trimEndL_head in H; [done|]. apply trimStartL_head.
  - intros H. by apply trimEndL_last in H.
  - by rewrite (removeAngleBrackets_fixed _ Hangle),
      (collapseSpaces_singleSpaced _ _ Hsp), trimL_idem.
Qed.
(** *** The shape of accepted e-mail addresses and identifiers *)

Lemma Matches_Cat_inv (r1 r2 : regex) (l : list ascii) :
  Matches (Cat r1 r2) l <->
  exists l1 l2, l = l1 ++ l2 /\ Matches r1 l1 /\ Matches r2 l2.
Proof.
  split.
  - intros H. inversion H; subst. eauto.
  - intros (l1 & l2 & -> & H1 & H2). by constructor.
Qed.

Lemma Matches_Cls_inv (p : ascii -> bool) (l : list ascii) :
  Matches (Cls p) l <-> exists c, l = [c] /\ p c = true.
Proof.
  split.
  - intros H. inversion H; subst. eauto.
  - intros (c & -> & Hc). by constructor.
Qed.

Lemma Matches_chr_inv (c : ascii) (l : list ascii) : Matches (chr c) l <-> l = [c].
Proof.
  unfold chr. rewrite Matches_Cls_inv. split.
  - intros (a & -> & Ha). apply Ascii.eqb_eq in Ha. by subst.
  - intros ->. exists c. split; [done|apply Ascii.eqb_refl].
Qed.

Lemma Matches_Star_Cls (p : ascii -> bool) (l : list ascii) :
  Matches (Star (Cls p)) l <-> Forall (fun c => p c = true) l.
Proof.
  split.
  - intros H. remember (Star (Cls p)) as r eqn:Er.
    induction H as [| | | | | |r0 l1 l2 H1 _ H2 IH2]; try discriminate; [done|].
    injection Er as ->. apply Matches_Cls_inv in H1 as (c & -> & Hc).
    constructor; [done|]. by apply IH2.
  - induction 1 as [|c l Hc _ IH]; [constructor|].
    change (c :: l) with ([c] ++ l). constructor; [by constructor|done].
Qed.

Lemma Matches_plus_Cls (p : ascii -> bool) (l : list ascii) :
  Matches (plus (Cls p)) l <-> l <> [] /\ Forall (fun c => p c = true) l.
Proof.
  unfold plus. rewrite Matches_Cat_inv. split.
  - intros (l1 & l2 & -> & H1 & H2). apply Matches_Cls_inv in H1 as (c & -> & Hc).
    apply Matches_Star_Cls in H2. split; [done|by constructor].
  - intros [Hne H]. destruct H as [|c l Hc Hl]; [done|].
    exists [c], l. split; [done|]. split; [by constructor|by apply Matches_Star_Cls].
Qed.

Lemma Matches_rep_Cls (n : nat) (p : ascii -> bool) (l : list ascii) :
  Matches (rep n (Cls p)) l <-> List.length l = n /\ Forall (fun c => p c = true) l.
Proof.
  revert l. induction n as [|n IH]; intros l; simpl.
  - split.
    + intros H. inversion H. by split.
    + intros [Hl _]. destruct l; [constructor|discriminate].
  - rewrite Matches_Cat_inv. split.
    + intros (l1 & l2 & -> & H1 & H2). apply Matches_Cls_inv in H1 as (c & -> & Hc).
      apply IH in H2 as [<- H2]. split; [done|by constructor].
    + intros [Hlen H]. destruct H as [|c l Hc Hl]; [discriminate|].
      exists [c], l. split; [done|]. split; [by constructor|].
      apply IH. split; [|done]. simpl in Hlen. lia.
Qed.

(** X2: [isValidEmail] accepts exactly the strings of the shape
    local@domain.tld in which the three parts are not empty and hold
    neither white space nor a further [@]; an accepted address
    therefore holds exactly one [@] and no white space at all. *)
Theorem isValidEmail_shape (s : string) :
  (Validators.isValidEmail (JStr s) = true <->
   exists loc domain tld,
     JsStr.chars s = loc ++ "@"%char :: domain ++ "."%char :: tld
     /\ loc <> [] /\ domain <> [] /\ tld <> []
     /\ Forall (fun c => Validators.notSpaceNorAt c = true) (loc ++ domain ++ tld))
  /\ (Validators.isValidEmail (JStr s) = true ->
      count_occ ascii_dec (JsStr.chars s) "@"%char = 1%nat
      /\ Forall (fun c => JsStr.is_space c = false) (JsStr.chars s)).
Proof.
  assert (Validators.isValidEmail (JStr s) = true <->
          exists loc domain tld,
            JsStr.chars s = loc ++ "@"%char :: domain ++ "."%char :: tld
            /\ loc <> [] /\ domain <> [] /\ tld <> []
            /\ Forall (fun c => Validators.notSpaceNorAt c = true) (loc ++ domain ++ tld))
    as Hshape.
  { simpl. unfold test_anchored. rewrite matchesL_Matches.
    unfold Validators.EMAIL_REGEX. split.
    - intros H.
      apply Matches_Cat_inv in H as (loc & r1 & -> & Hloc & H).
      apply Matches_Cat_inv in H as (at_ & r2 & -> & Hat & H).
      apply Matches_Cat_inv in H as (domain & r3 & -> & Hdom & H).
      apply Matches_Cat_inv in H as (dot_ & tld & -> & Hdot & Htld).
      apply Matches_chr_inv in Hat as ->. apply Matches_chr_inv in Hdot as ->.
      apply Matches_plus_Cls in Hloc as [? ?], Hdom as [? ?], Htld as [? ?].
      exists loc, domain, tld. repeat split; try done.
      by repeat (apply Forall_app; split).
    - intros (loc & domain & tld & -> & Hl & Hd & Ht & Hall).
      apply Forall_app in Hall as [Hall1 Hall]. apply Forall_app in Hall as [Hall2 Hall3].
      constructor; [by apply Matches_plus_Cls|].
      change ("@"%char :: domain ++ "."%char :: tld)
        with (["@"%char] ++ (domain ++ ["."%char] ++ tld)).
      constructor; [by apply Matches_chr_inv|].
      constructor; [by apply Matches_plus_Cls|].
      constructor; [by apply Matches_chr_inv|by apply Matches_plus_Cls]. }
  split; [exact Hshape|].
  intros H. apply Hshape in H as (loc & domain & tld & -> & _ & _ & _ & Hall).
  assert (forall l, Forall (fun c => Validators.notSpaceNorAt c = true) l ->
                    count_occ ascii_dec l "@"%char = 0%nat
                    /\ Forall (fun c => JsStr.is_space c = false) l) as Hpart.
  { induction 1 as [|c l Hc _ [IH1 IH2]]; [by split|].
    unfold Validators.notSpaceNorAt in Hc. apply andb_true_iff in Hc as [Hsp Hat].
    apply negb_true_iff in Hsp, Hat. split; [|by constructor].
    rewrite count_occ_cons_neq; [done|]. intros ->. by rewrite Ascii.eqb_refl in Hat. }
  apply Forall_app in Hall as [Hall1 Hall]. apply Forall_app in Hall as [Hall2 Hall3].
  destruct (Hpart _ Hall1) as [C1 S1], (Hpart _ Hall2) as [C2 S2], (Hpart _ Hall3) as [C3 S3].
  split.
  - rewrite count_occ_app, C1. simpl. rewrite count_occ_app, C2. simpl. by rewrite C3.
  - apply Forall_app. split; [done|]. constructor; [done|].
    apply Forall_app. split; [done|]. by constructor.
Qed.

(** X3: [isValidId] accepts exactly the 36-character strings made of
    five groups of 8, 4, 4, 4 and 12 hexadecimal digits of either case
    separated by dashes, where the third group begins with [4] and the
    fourth with one of [8], [9], [a], [b]. *)
Theorem isValidId_shape (s : string) :
  (Validators.isValidId (JStr s) = true <->
   exists g1 g2 g3 v g4 g5,
     JsStr.chars s
     = g1 ++ "-"%char :: g2 ++ "-"%char :: "4"%char :: g3
          ++ "-"%char :: v :: g4 ++ "-"%char :: g5
     /\ List.length g1 = 8%nat /\ List.length g2 = 4%nat /\ List.length g3 = 3%nat
     /\ List.length g4 = 3%nat /\ List.length g5 = 12%nat
     /\ Validators.variantDigit v = true
     /\ Forall (fun c => Validators.hexDigit c = true) (g1 ++ g2 ++ g3 ++ g4 ++ g5))
  /\ (Validators.isValidId (JStr s) = true -> String.length s = 36%nat).
Proof.
  assert (Validators.isValidId (JStr s) = true <->
   exists g1 g2 g3 v g4 g5,
     JsStr.chars s
     = g1 ++ "-"%char :: g2 ++ "-"%char :: "4"%char :: g3
          ++ "-"%char :: v :: g4 ++ "-"%char :: g5
     /\ List.length g1 = 8%nat /\ List.length g2 = 4%nat /\ List.length g3 = 3%nat
     /\ List.length g4 = 3%nat /\ List.length g5 = 12%nat
     /\ Validators.variantDigit v = true
     /\ Forall (fun c => Validators.hexDigit c = true) (g1 ++ g2 ++ g3 ++ g4 ++ g5))
    as Hshape.
  { simpl. unfold test_anchored. rewrite matchesL_Matches.
    unfold Validators.UUID_REGEX. split.
    - intros H.
      apply Matches_Cat_inv in H as (g1 & ? & -> & H1 & H).
      apply Matches_Cat_inv in H as (d1 & ? & -> & Hd1 & H).
      apply Matches_Cat_inv in H as (g2 & ? & -> & H2 & H).
      apply Matches_Cat_inv in H as (d2 & ? & -> & Hd2 & H).
      apply Matches_Cat_inv in H as (four & ? & -> & H4 & H).
      apply Matches_Cat_inv in H as (g3 & ? & -> & H3 & H).
      apply Matches_Cat_inv in H as (d3 & ? & -> & Hd3 & H).
      apply Matches_Cat_inv in H as (vv & ? & -> & Hv & H).
      apply Matches_Cat_inv in H as (g4 & ? & -> & Hg4 & H).
      apply Matches_Cat_inv in H as (d4 & g5 & -> & Hd4 & H5).
      apply Matches_chr_inv in Hd1 as ->, Hd2 as ->, Hd3 as ->, Hd4 as ->, H4 as ->.
      apply Matches_Cls_inv in Hv as (v & -> & Hv).
      apply Matches_rep_Cls in H1 as [? ?], H2 as [? ?], H3 as [? ?], Hg4 as [? ?],
        H5 as [? ?].
      exists g1, g2, g3, v, g4, g5. repeat split; try done.
      by repeat (apply Forall_app; split).
    - intros (g1 & g2 & g3 & v & g4 & g5 & -> & L1 & L2 & L3 & L4 & L5 & Hv & Hall).
      apply Forall_app in Hall as [A1 Hall]. apply Forall_app in Hall as [A2 Hall].
      apply Forall_app in Hall as [A3 Hall]. apply Forall_app in Hall as [A4 A5].
      constructor; [by apply Matches_rep_Cls|].
      change ("-"%char :: g2 ++ "-"%char :: "4"%char :: g3
                ++ "-"%char :: v :: g4 ++ "-"%char :: g5)
        with (["-"%char] ++ (g2 ++ ["-"%char] ++ ["4"%char] ++ (g3
                ++ ["-"%char] ++ [v] ++ (g4 ++ ["-"%char] ++ g5)))).
      constructor; [by apply Matches_chr_inv|].
      constructor; [by apply Matches_rep_Cls|].
      constructor; [by apply Matches_chr_inv|].
      constructor; [by apply Matches_chr_inv|].
      constructor; [by apply Matches_rep_Cls|].
      constructor; [by apply Matches_chr_inv|].
      constructor; [by constructor|].
      constructor; [by apply Matches_rep_Cls|].
      constructor; [by apply Matches_chr_inv|by apply Matches_rep_Cls]. }
  split; [exact Hshape|].
  intros H. apply Hshape in H
    as (g1 & g2 & g3 & v & g4 & g5 & Hs & L1 & L2 & L3 & L4 & L5 & _).
  rewrite <- chars_length, Hs.
  repeat (rewrite ?length_app; simpl). lia.
Qed.
(** *** What [deletePattern] deletes *)

Lemma litThen_Matches_inv (l m : list ascii) (r : regex) :
  Matches (litThen l r) m -> exists x, m = l ++ x /\ Matches r x.
Proof.
  revert m. induction l as [|c l IH]; intros m; simpl.
  - intros H. by exists m.
  - intros H. apply Matches_Cat_inv in H as (l1 & l2 & -> & H1 & H2).
    apply Matches_chr_inv in H1 as ->. apply IH in H2 as (x & -> & Hx).
    by exists x.
Qed.

(** The expression built from the pattern [l*] finds exactly the keys
    in which [l] occurs. *)
Lemma test_litThen_contains (l : list ascii) (key : string) :
  Regex.test (litThen l (Cat (Star dot) Eps)) key = true <-> containsL l key.
Proof.
  unfold Regex.test, searchL, containsL. rewrite matchesL_Matches. split.
  - intros H. apply Matches_Cat_inv in H as (pre & r1 & -> & _ & H).
    apply Matches_Cat_inv in H as (mid & post & -> & H & _).
    apply litThen_Matches_inv in H as (x & -> & _).
    exists pre, (x ++ post). by rewrite <- app_assoc.
  - intros (pre & post & ->).
    constructor; [apply Matches_Star_any|].
    rewrite <- (app_nil_r l) at 2. constructor; [|apply Matches_Star_any].
    apply litThen_Matches. change (@nil ascii) with (@nil ascii ++ []).
    constructor; constructor.
Qed.

(** X4: for a pattern made of literal characters followed by one star,
    [deletePattern] removes the entries whose key holds the literal part
    anywhere, not only at its beginning, keeps every other entry as it
    is, and touches nothing but the cache. *)
Theorem deletePattern_removes_keys_containing
    (pattern : string) (l : list ascii) (w : World) :
  JsStr.chars pattern = l ++ ["*"%char] ->
  Forall plainChar l ->
  exists w',
    cache_deletePattern pattern w = (Returned tt, w')
    /\ users w' = users w /\ posts w' = posts w /\ dbLog w' = dbLog w
    /\ (forall key, containsL l key -> cache w' !! key = None)
    /\ (forall key, ~ containsL l key -> cache w' !! key = cache w !! key).
Proof.
  intros Hpat Hl. rewrite (cache_deletePattern_prefix pattern l w Hpat Hl).
  eexists. split; [reflexivity|]. simpl. repeat split.
  - intros key Hkey. apply map_lookup_filter_None. right. intros item _.
    unfold keptBy. simpl. apply test_litThen_contains in Hkey. by rewrite Hkey.
  - intros key Hkey. destruct (cache w !! key) as [item|] eqn:E.
    + apply map_lookup_filter_Some. split; [done|]. unfold keptBy. simpl.
      destruct (Regex.test _ key) eqn:T; [|done].
      by apply test_litThen_contains in T.
    + apply map_lookup_filter_None. by left.
Qed.
(** *** Which keys a post write leaves in the cache *)

Lemma startsWithL_app (l s : list ascii) :
  startsWithL l s <-> exists post, s = l ++ post.
Proof.
  revert s. induction l as [|c l IH]; intros s; simpl.
  - split; [by exists s|done].
  - destruct s as [|a s].
    + split; [done|]. by intros (post & H).
    + rewrite IH. split.
      * intros (-> & post & ->). by exists post.
      * intros (post & [= -> ->]). split; [done|]. by exists post.
Qed.

Lemma occursInL_app (l s : list ascii) :
  occursInL l s <-> exists pre post, s = pre ++ l ++ post.
Proof.
  induction s as [|a s IH]; simpl.
  - rewrite startsWithL_app. split.
    + intros [(post & H)|[]]. by exists [], post.
    + intros (pre & post & H). left. destruct pre; [by exists post|done].
  - rewrite startsWithL_app, IH. split.
    + intros [(post & H)|(pre & post & ->)]; [by exists [], post|by exists (a :: pre), post].
    + intros (pre & post & H). destruct pre as [|b pre].
      * left. by exists post.
      * right. injection H as -> ->. by exists pre, post.
Qed.

Lemma containsL_occursInL (l : list ascii) (key : string) :
  containsL l key <-> occursInL l (JsStr.chars key).
Proof. unfold containsL. by rewrite occursInL_app. Qed.

(** A run of code units none of which is the first of [c :: l] cannot
    hold the beginning of an occurrence. *)
Lemma occursInL_skip (c : ascii) (l s t : list ascii) :
  Forall (fun a => a <> c) s ->
  occursInL (c :: l) (s ++ t) -> occursInL (c :: l) t.
Proof.
  induction 1 as [|a s Ha _ IH]; simpl; [done|].
  intros [[Hca _]|H]; [congruence|]. by apply IH.
Qed.

Lemma occursInL_nil (c : ascii) (l : list ascii) : ~ occursInL (c :: l) [].
Proof. simpl. tauto. Qed.

Lemma startsWithL_same_length (u u' x y : list ascii) :
  List.length u = List.length u' -> startsWithL (u ++ x) (u' ++ y) -> u = u'.
Proof.
  revert u'. induction u as [|c u IH]; intros [|c' u']; simpl; try done.
  intros [= Hlen] [-> H]. f_equal. by apply IH.
Qed.

Lemma uuidChar_not_p (c : ascii) : uuidChar c = true -> c <> "p"%char.
Proof. intros H ->. by vm_compute in H. Qed.

Lemma isNumeralChar_not_p (c : ascii) : isNumeralChar c = true -> c <> "p"%char.
Proof. intros H ->. by vm_compute in H. Qed.

Lemma pretty_N_char_numeral (x : N) : isNumeralChar (pretty_N_char x) = true.
Proof. unfold pretty_N_char. by repeat case_match. Qed.

Lemma pretty_N_go_numeral (x : N) (s : string) :
  Forall (fun c => isNumeralChar c = true) (JsStr.chars s) ->
  Forall (fun c => isNumeralChar c = true) (JsStr.chars (pretty_N_go x s)).
Proof.
  revert s. induction (N.lt_wf_0 x) as [x _ IH]; intros s Hs.
  assert (x = 0 \/ 0 < x)%N as [->|Hx] by lia.
  - by rewrite pretty_N_go_0.
  - rewrite pretty_N_go_step by done. apply IH.
    + by apply N.div_lt.
    + constructor; [apply pretty_N_char_numeral|done].
Qed.

(** The decimal numeral of an integer is made of digits and a sign. *)
Lemma pretty_Z_numeral (n : Z) :
  Forall (fun c => isNumeralChar c = true) (JsStr.chars (pretty n)).
Proof.
  assert (forall p : positive,
            Forall (fun c => isNumeralChar c = true) (JsStr.chars (pretty p))) as Hpos.
  { intros p. unfold pretty, pretty_positive, pretty, pretty_N.
    destruct (decide (N.pos p = 0%N)); [repeat constructor|].
    apply pretty_N_go_numeral. constructor. }
  destruct n as [|p|p]; unfold pretty, pretty_Z.
  - repeat constructor.
  - apply Hpos.
  - change (JsStr.chars ("-" +:+ pretty p)) with ("-"%char :: JsStr.chars (pretty p)).
    constructor; [done|apply Hpos].
Qed.
Lemma occursInL_none (c : ascii) (l s : list ascii) :
  Forall (fun a => a <> c) s -> ~ occursInL (c :: l) s.
Proof.
  intros Hs H. rewrite <- (app_nil_r s) in H. apply occursInL_skip in H; [|done].
  by apply occursInL_nil in H.
Qed.

(** Splits a hypothesis [startsWithL l s] into its equations, up to the
    first that cannot hold. *)
Ltac no_start H :=
  cbn in H;
  repeat match type of H with
         | _ /\ _ => let E := fresh "E" in destruct H as [E H]; try discriminate E; clear E
         end;
  try contradiction.

(** Walks through the constant part of a key, position by position. *)
Ltac walk H :=
  cbn in H;
  repeat match type of H with
         | _ \/ _ => destruct H as [H|H]; [solve [no_start H]|]; cbn in H
         end;
  try contradiction.

Lemma feed_not_in_unrelated (userId_ key : string) :
  unrelatedKey userId_ key -> ~ containsL feedPrefix key.
Proof.
  rewrite containsL_occursInL. unfold feedPrefix.
  intros [(id & Hid & ->)|[->|[(id & Hid & ->)|(other & page & Hid & _ & ->)]]] H.
  - unfold cacheKeys_user in H. rewrite chars_app in H.
    pose proof (isValidId_chars id Hid) as Hc. revert H Hc.
    generalize (JsStr.chars id). intros li H Hc. walk H.
    revert H. apply occursInL_none. eapply Forall_impl; [exact Hc|]. apply uuidChar_not_p.
  - walk H.
  - unfold cacheKeys_post in H. rewrite chars_app in H.
    pose proof (isValidId_chars id Hid) as Hc. revert H Hc.
    generalize (JsStr.chars id). intros li H Hc. walk H.
    revert H. apply occursInL_none. eapply Forall_impl; [exact Hc|]. apply uuidChar_not_p.
  - unfold cacheKeys_userPosts in H. rewrite !chars_app in H.
    pose proof (isValidId_chars other Hid) as Hc.
    pose proof (pretty_Z_numeral page) as Hn. revert H Hc Hn.
    generalize (JsStr.chars other) (JsStr.chars (pretty page)). intros li ln H Hc Hn.
    walk H. apply occursInL_skip in H;
      [|eapply Forall_impl; [exact Hc|]; apply uuidChar_not_p].
    walk H. revert H. apply occursInL_none.
    eapply Forall_impl; [exact Hn|]. apply isNumeralChar_not_p.
Qed.

Lemma userPosts_not_in_unrelated (userId_ key : string) :
  Validators.isValidId (JStr userId_) = true ->
  unrelatedKey userId_ key -> ~ containsL (userPostsPrefix userId_) key.
Proof.
  intros Hu. rewrite containsL_occursInL. unfold userPostsPrefix.
  pose proof (isValidId_shape userId_) as [_ Hlen]. specialize (Hlen Hu).
  rewrite <- chars_length in Hlen.
  assert (forall o, JsStr.chars o = JsStr.chars userId_ -> o = userId_) as Hinj.
  { intros o Ho. by rewrite <- (str_chars o), Ho, str_chars. }
  revert Hlen Hinj. generalize (JsStr.chars userId_). intros lu Hlen Hinj.
  intros [(id & Hid & ->)|[->|[(id & Hid & ->)|(other & page & Hid & Hne & ->)]]] H.
  - unfold cacheKeys_user in H. rewrite chars_app in H.
    pose proof (isValidId_chars id Hid) as Hc. revert H Hc.
    generalize (JsStr.chars id). intros li H Hc. walk H.
    revert H. apply occursInL_none. eapply Forall_impl; [exact Hc|]. apply uuidChar_not_p.
  - walk H.
  - unfold cacheKeys_post in H. rewrite chars_app in H.
    pose proof (isValidId_chars id Hid) as Hc. revert H Hc.
    generalize (JsStr.chars id). intros li H Hc. walk H.
    revert H. apply occursInL_none. eapply Forall_impl; [exact Hc|]. apply uuidChar_not_p.
  - unfold cacheKeys_userPosts in H. rewrite !chars_app in H.
    pose proof (isValidId_chars other Hid) as Hc.
    pose proof (pretty_Z_numeral page) as Hn.
    pose proof (isValidId_shape other) as [_ Hlen']. specialize (Hlen' Hid).
    rewrite <- chars_length in Hlen'.
    assert (JsStr.chars other <> lu) as Hne' by (intros E; by apply Hne, Hinj).
    clear Hinj Hne. revert H Hc Hn Hlen' Hne'.
    generalize (JsStr.chars other) (JsStr.chars (pretty page)).
    intros li ln H Hc Hn Hlen' Hne'.
    cbn in H. destruct H as [H|H].
    { no_start H. apply startsWithL_same_length in H; [congruence|lia]. }
    walk H. apply occursInL_skip in H;
      [|eapply Forall_impl; [exact Hc|]; apply uuidChar_not_p].
    walk H. revert H. apply occursInL_none.
    eapply Forall_impl; [exact Hn|]. apply isNumeralChar_not_p.
Qed.

(** An entry under a key that neither pattern of a post write finds is
    still there after the write. *)
Lemma invalidatePosts_keeps (userId_ key : string) (m : gmap string CacheItem) :
  Validators.isValidId (JStr userId_) = true ->
  unrelatedKey userId_ key ->
  invalidatePosts userId_ m !! key = m !! key.
Proof.
  intros Hu Hkey. unfold invalidatePosts.
  assert (forall l (m' : gmap string CacheItem),
            ~ containsL l key -> filter (keptBy l) m' !! key = m' !! key) as Hkeep.
  { intros l m' Hl. destruct (m' !! key) as [item|] eqn:E.
    - apply map_lookup_filter_Some. split; [done|]. unfold keptBy. simpl.
      destruct (Regex.test _ key) eqn:T; [|done]. by apply test_litThen_contains in T.
    - apply map_lookup_filter_None. by left. }
  rewrite Hkeep by by apply (feed_not_in_unrelated userId_).
  apply Hkeep. by apply userPosts_not_in_unrelated.
Qed.

(** X5: a successful [create] or [deleteOwned] removes from the cache
    nothing but what it has to: the profile entries, the entries of
    single posts (the deleted one apart) and the pages of every other
    user are kept as they were. *)
Theorem post_writes_keep_unrelated_cache_entries :
  (forall (userId_ : string) (c : JsVal) (w w' : World) (p : Post) (key : string),
      users w <> [] ->
      PostModel_create userId_ c w = (Returned p, w') ->
      unrelatedKey userId_ key ->
      cache w' !! key = cache w !! key)
  /\ (forall (postId_ userId_ : string) (b : bool) (w w' : World) (key : string),
        users w <> [] ->
        PostModel_deleteOwned postId_ userId_ w = (Returned b, w') ->
        unrelatedKey userId_ key ->
        key <> cacheKeys_post postId_ ->
        cache w' !! key = cache w !! key).
Proof.
  split.
  - intros userId_ c w w' p key Hseed Hrun Hkey.
    destruct (PostModel_create_inv _ _ _ _ _ Hrun) as [Hid _].
    destruct (PostModel_create_success _ _ _ _ _ Hseed Hrun) as (_ & _ & ->).
    by apply invalidatePosts_keeps.
  - intros postId_ userId_ b w w' key Hseed Hrun Hkey Hne.
    assert (Validators.isValidId (JStr postId_) = true
            /\ Validators.isValidId (JStr userId_) = true) as [Hpid Huid].
    { revert Hrun. unfold PostModel_deleteOwned.
      destruct (Validators.isValidId (JStr postId_)); [|discriminate].
      by destruct (Validators.isValidId (JStr userId_)). }
    pose proof (PostModel_deleteOwned_outcome postId_ userId_ w Hseed Hpid Huid) as Hout.
    rewrite Hrun in Hout. simpl in Hout.
    destruct (List.find (hasPostId postId_) (posts w)) as [q|] eqn:Hfind; [|discriminate].
    destruct (postDeletedAt q) eqn:Hlive; simpl in Hout; try discriminate.
    destruct (String.eqb_spec (postUserId q) userId_) as [Hown|]; [|discriminate].
    destruct (PostModel_deleteOwned_success postId_ userId_ q w Hseed Hpid Huid Hfind
                Hlive Hown) as (i & w2 & _ & _ & Hrun2 & _ & _ & Hcache).
    rewrite Hrun in Hrun2. injection Hrun2 as _ <-.
    rewrite Hcache, invalidatePosts_keeps by done.
    by apply lookup_delete_ne.
Qed.
(** *** The listing of [DB.findPosts] *)

Lemma filter_filter_andb {A} (f g : A -> bool) (l : list A) :
  List.filter f (List.filter g l) = List.filter (fun x => g x && f x) l.
Proof.
  induction l as [|a l IH]; simpl; [done|].
  destruct (g a); simpl; [|done]. destruct (f a); by rewrite IH.
Qed.

Lemma filter_all {A} (f : A -> bool) (l : list A) :
  (forall x, f x = true) -> List.filter f l = l.
Proof. intros H. induction l as [|a l IH]; simpl; [done|]. by rewrite H, IH. Qed.

Lemma insertBy_Permutation {A} (cmp : A -> A -> Z) (x : A) (l : list A) :
  Permutation (insertBy cmp x l) (x :: l).
Proof.
  induction l as [|a l IH]; simpl; [done|].
  destruct (cmp x a <=? 0); [done|]. rewrite IH. apply perm_swap.
Qed.

Lemma sortBy_Permutation {A} (cmp : A -> A -> Z) (l : list A) :
  Permutation (sortBy cmp l) l.
Proof.
  induction l as [|a l IH]; simpl; [done|].
  rewrite insertBy_Permutation. by constructor.
Qed.

Lemma compareCreatedAt_inOrder (order : string) (p q : Post) :
  compareCreatedAt order p q <= 0 <-> inOrder order p q.
Proof. unfold compareCreatedAt, inOrder. destruct (String.eqb order "ASC"); lia. Qed.

Lemma inOrder_trans (order : string) (p q r : Post) :
  inOrder order p q -> inOrder order q r -> inOrder order p r.
Proof. unfold inOrder. destruct (String.eqb order "ASC"); lia. Qed.

Lemma inOrder_total (order : string) (p q : Post) :
  ~ inOrder order p q -> inOrder order q p.
Proof. unfold inOrder. destruct (String.eqb order "ASC"); lia. Qed.

Lemma insertBy_sorted (order : string) (x : Post) (l : list Post) :
  StronglySorted (inOrder order) l ->
  StronglySorted (inOrder order) (insertBy (compareCreatedAt order) x l).
Proof.
  induction 1 as [|a l Hl IH Ha]; simpl; [repeat constructor|].
  destruct (compareCreatedAt order x a <=? 0) eqn:E.
  - apply Z.leb_le, compareCreatedAt_inOrder in E.
    constructor; [by constructor|]. constructor; [done|].
    eapply Forall_impl; [exact Ha|]. intros b Hb. by eapply inOrder_trans.
  - apply Z.leb_gt in E. constructor; [done|].
    eapply Permutation_Forall; [symmetry; apply insertBy_Permutation|].
    constructor; [|done]. apply inOrder_total. rewrite <- compareCreatedAt_inOrder. lia.
Qed.

Lemma sortBy_sorted (order : string) (l : list Post) :
  StronglySorted (inOrder order) (sortBy (compareCreatedAt order) l).
Proof.
  induction l as [|a l IH]; simpl; [constructor|]. by apply insertBy_sorted.
Qed.

(** [l.slice(a, a + n)] for an offset and a length that are not
    negative. *)
Lemma jsSlice_window {A} (a n : Z) (l : list A) :
  0 <= a -> 0 <= n ->
  jsSlice a (a + n) l = take (Z.to_nat n) (drop (Z.to_nat a) l).
Proof.
  intros Ha Hn. unfold jsSlice.
  assert ((a <? 0) = false) as -> by lia. assert ((a + n <? 0) = false) as -> by lia.
  destruct (Z_lt_le_dec a (Z.of_nat (List.length l))) as [Hlt|Hge].
  - rewrite (Z.min_l a) by lia.
    destruct (Z_lt_le_dec (a + n) (Z.of_nat (List.length l))) as [Hlt2|Hge2].
    + rewrite Z.min_l by lia. f_equal. lia.
    + rewrite Z.min_r by lia. rewrite !take_ge; [done|rewrite length_drop; lia..].
  - rewrite !Z.min_r by lia. rewrite !drop_ge by lia. by rewrite !take_nil.
Qed.

(** With an order, and on posts that all carry a [Date], the listing
    is computed without an exception. *)
Lemma DB_findPosts_sorted_run (o : FindPostsOptions) (order : string) (w : World) :
  users w <> [] ->
  orderByCreatedAt o = Some order ->
  order <> "" ->
  Forall (fun p => isDate (postCreatedAt p) = true) (posts w) ->
  DB_findPosts o w
  = (Returned (jsSlice (default 0 (optOffset o))
                 (default 0 (optOffset o) + default 20 (optLimit o))
                 (sortBy (compareCreatedAt order)
                    (List.filter (matchesOptions o) (posts w)))),
     addCall CallFindPosts w).
Proof.
  intros Hseed Horder Hne Hdates.
  set (selected := List.filter (matchesOptions o) (posts w)).
  unfold DB_findPosts, bind, modify, getWorld.
  rewrite initializeData_seeded by done. simpl. rewrite Horder.
  assert (String.eqb order "" = false) as -> by by apply String.eqb_neq.
  assert ((if whereDeletedAtNull o
           then List.filter notDeleted
                  match whereUserId o with
                  | Some uid =>
                      if String.eqb uid "" then posts w
                      else List.filter (fun p => String.eqb (postUserId p) uid) (posts w)
                  | None => posts w
                  end
           else match whereUserId o with
                | Some uid =>
                    if String.eqb uid "" then posts w
                    else List.filter (fun p => String.eqb (postUserId p) uid) (posts w)
                | None => posts w
                end) = selected) as ->.
  { subst selected. unfold matchesOptions.
    destruct (whereUserId o) as [uid|]; [destruct (String.eqb uid "")|];
      destruct (whereDeletedAtNull o); simpl;
      rewrite ?filter_filter_andb; try done;
      try (by rewrite filter_all);
      apply filter_ext; intros p; by rewrite ?andb_true_r. }
  assert (existsb (fun p => negb (isDate (postCreatedAt p))) selected = false) as ->.
  { apply not_true_is_false. intros H. apply existsb_exists in H as (p & Hp & Hd).
    apply filter_In in Hp as [Hp _].
    rewrite List.Forall_forall in Hdates. by rewrite (Hdates p Hp) in Hd. }
  rewrite andb_false_r. reflexivity.
Qed.

(** X6: on a store whose posts all carry a [Date], [DB.findPosts] with
    an order returns the window [offset, offset + limit) of a listing
    that holds exactly the posts the [where] part selects, each once,
    ordered by [createdAt]: oldest first for ['ASC'], newest first for
    any other order.  Nothing is written but the log entry. *)
Theorem DB_findPosts_window_of_ordered_listing
    (o : FindPostsOptions) (order : string) (w : World) :
  users w <> [] ->
  orderByCreatedAt o = Some order ->
  order <> "" ->
  Forall (fun p => isDate (postCreatedAt p) = true) (posts w) ->
  0 <= default 0 (optOffset o) ->
  0 <= default 20 (optLimit o) ->
  exists listing,
    Permutation listing (List.filter (matchesOptions o) (posts w))
    /\ StronglySorted (inOrder order) listing
    /\ DB_findPosts o w
       = (Returned (take (Z.to_nat (default 20 (optLimit o)))
                      (drop (Z.to_nat (default 0 (optOffset o))) listing)),
          addCall CallFindPosts w).
Proof.
  intros Hseed Horder Hne Hdates Hoff Hlim.
  exists (sortBy (compareCreatedAt order) (List.filter (matchesOptions o) (posts w))).
  split; [apply sortBy_Permutation|]. split; [apply sortBy_sorted|].
  rewrite (DB_findPosts_sorted_run o order w Hseed Horder Hne Hdates).
  by rewrite jsSlice_window.
Qed.

(** *** Attempts on a record that is not locked at the moment *)

(** The clock readings an attempt makes before the credential check:
    one when the record carries a lock, expired or not. *)
Lemma authenticate_unlocked_run (e pw : string) (u : User) (w : World) :
  NoDup (map userId (users w)) ->
  Validators.isValidEmail (JStr e) = true ->
  Validators.isNonEmptyString (JStr pw) = true ->
  List.find (matchesEmail (normalizeEmail e)) (users w) = Some u ->
  lockedAt (clock (clockReads w)) u = false ->
  let w1 := addCall (CallFindUserByEmail (normalizeEmail e)) w in
  let w2 := if timeTruthy (lockedUntil u) then tickClock w1 else w1 in
  authenticate (JStr e) (JStr pw) w
  = if negb (String.eqb (status u) "ACTIVE") || negb (verifyPassword pw (passwordHash u))
    then (Thrown (EApp InvalidCredentialsError_default),
          snd (recordFailedLogin (userId u) w2))
    else (Returned (mkAuthResult (toSafeUser u) (generateToken (userId u) (email u))),
          snd (resetFailedLogin (userId u) w2)).
Proof.
  intros Hnd He Hpw Hfind Hunl. cbv zeta.
  unfold authenticate, bind, liftOutcome, Validators.validateLogin.
  rewrite He, Hpw. simpl.
  rewrite DB_findUserByEmail_seeded by (intros E; by rewrite E in Hfind).
  rewrite Hfind. unfold lockedAt in Hunl.
  destruct (timeTruthy (lockedUntil u)); simpl in Hunl |- *.
  - unfold Date_now, ret. simpl. rewrite Hunl.
    destruct (negb (String.eqb (status u) "ACTIVE")
              || negb (verifyPassword pw (passwordHash u))).
    + destruct (recordFailedLogin_returns (userId u)
                  (tickClock (addCall (CallFindUserByEmail (normalizeEmail e)) w)))
        as [w' Hw']. by rewrite Hw'.
    + destruct (resetFailedLogin_returns (userId u)
                  (tickClock (addCall (CallFindUserByEmail (normalizeEmail e)) w)))
        as [w' Hw']. by rewrite Hw'.
  - unfold ret.
    destruct (negb (String.eqb (status u) "ACTIVE")
              || negb (verifyPassword pw (passwordHash u))).
    + destruct (recordFailedLogin_returns (userId u)
                  (addCall (CallFindUserByEmail (normalizeEmail e)) w))
        as [w' Hw']. by rewrite Hw'.
    + destruct (resetFailedLogin_returns (userId u)
                  (addCall (CallFindUserByEmail (normalizeEmail e)) w))
        as [w' Hw']. by rewrite Hw'.
Qed.

Lemma resetFailedLogin_seeded (u : User) (w : World) :
  NoDup (map userId (users w)) -> In u (users w) ->
  resetFailedLogin (userId u) w
  = (Returned tt,
     setUsers (patchUserById (userId u) (mkUserPatch (Some 0) (Some TNull)) (users w))
       (addCall (CallUpdateUser (userId u)) w)).
Proof.
  intros Hnd Hin. unfold resetFailedLogin, bind.
  by rewrite DB_updateUser_seeded.
Qed.

(** X7: a successful login writes [failedLoginCount = 0] and
    [lockedUntil = null] into the record, whatever they were, so earlier
    failures and an expired lock are forgotten; every other field of the
    record, every other user, the posts and the cache stay as they
    were. *)
Theorem successful_login_clears_failures (e pw : string) (u : User) (w : World) :
  NoDup (map userId (users w)) ->
  Validators.isValidEmail (JStr e) = true ->
  Validators.isNonEmptyString (JStr pw) = true ->
  List.find (matchesEmail (normalizeEmail e)) (users w) = Some u ->
  lockedAt (clock (clockReads w)) u = false ->
  status u = "ACTIVE" ->
  verifyPassword pw (passwordHash u) = true ->
  exists w',
    authenticate (JStr e) (JStr pw) w
    = (Returned (mkAuthResult (toSafeUser u) (generateToken (userId u) (email u))), w')
    /\ List.find (matchesEmail (normalizeEmail e)) (users w')
       = Some (applyPatch u (mkUserPatch (Some 0) (Some TNull)))
    /\ failedLoginCount (applyPatch u (mkUserPatch (Some 0) (Some TNull))) = 0
    /\ lockedUntil (applyPatch u (mkUserPatch (Some 0) (Some TNull))) = TNull
    /\ users w' = patchUserById (userId u) (mkUserPatch (Some 0) (Some TNull)) (users w)
    /\ (forall x, In x (users w) -> userId x <> userId u -> In x (users w'))
    /\ posts w' = posts w
    /\ cache w' = cache w.
Proof.
  intros Hnd He Hpw Hfind Hunl Hact Hok.
  pose proof (find_some _ _ Hfind) as [Hin _].
  rewrite (authenticate_unlocked_run e pw u w Hnd He Hpw Hfind Hunl).
  rewrite Hact, Hok. simpl.
  eexists. split; [reflexivity|].
  assert (forall w2, users w2 = users w -> posts w2 = posts w -> cache w2 = cache w ->
            let w' := snd (resetFailedLogin (userId u) w2) in
            users w'
            = patchUserById (userId u) (mkUserPatch (Some 0) (Some TNull)) (users w)
            /\ posts w' = posts w /\ cache w' = cache w) as Hreset.
  { intros w2 Hu Hp Hc. rewrite resetFailedLogin_seeded by by rewrite Hu.
    simpl. by rewrite Hu. }
  match goal with
  | |- context [resetFailedLogin (userId u) ?w2] =>
      destruct (Hreset w2) as (Hu' & Hp' & Hc');
        [by destruct (timeTruthy (lockedUntil u))..|]
  end.
  rewrite Hu', Hp', Hc'. split; [|repeat split; try done].
  - rewrite patchUserById_find_email, Hfind. simpl.
    by assert (hasUserId (userId u) u = true) as -> by by apply hasUserId_true.
  - intros x Hx Hne. unfold patchUserById. apply in_map_iff. exists x. split; [|done].
    destruct (hasUserId (userId u) x) eqn:E; [|done].
    apply hasUserId_true in E. congruence.
Qed.

(** *** Letter case of e-mail addresses *)

Lemma deriv_respects (f : ascii -> ascii) (c : ascii) (r : regex) :
  classesRespect f r -> deriv (f c) r = deriv c r /\ classesRespect f (deriv c r).
Proof.
  induction r as [| |p|r1 IH1 r2 IH2|r1 IH1 r2 IH2|r IH]; simpl; intros H.
  - done.
  - done.
  - rewrite H. by destruct (p c).
  - destruct H as [H1 H2]. destruct (IH1 H1) as [-> R1], (IH2 H2) as [-> R2].
    split; [done|]. destruct (nullable r1); simpl; tauto.
  - destruct H as [H1 H2]. destruct (IH1 H1) as [-> R1], (IH2 H2) as [-> R2]. by split.
  - destruct (IH H) as [-> R]. by split.
Qed.

Lemma matchesL_map_respects (f : ascii -> ascii) (r : regex) (l : list ascii) :
  classesRespect f r -> matchesL r (map f l) = matchesL r l.
Proof.
  revert r. induction l as [|c l IH]; intros r H; simpl; [done|].
  destruct (deriv_respects f c r H) as [-> R]. by apply IH.
Qed.

Lemma EMAIL_REGEX_respects_lowerChar :
  classesRespect JsStr.lowerChar Validators.EMAIL_REGEX.
Proof.
  simpl. repeat split; intros c; each_code_unit c; reflexivity.
Qed.

Lemma isValidEmail_toLowerCase (e : string) :
  Validators.isValidEmail (JStr (JsStr.toLowerCase e)) = Validators.isValidEmail (JStr e).
Proof.
  simpl. unfold test_anchored, JsStr.toLowerCase. rewrite chars_str.
  apply matchesL_map_respects, EMAIL_REGEX_respects_lowerChar.
Qed.

(** X9: the letter case of the e-mail address plays no part at login or
    at registration: two addresses with the same lower-case form give
    the same outcome and the same state, whatever the other arguments
    and the state before. *)
Theorem email_case_is_ignored (e e' : string) (password displayName_ : JsVal) (w : World) :
  JsStr.toLowerCase e = JsStr.toLowerCase e' ->
  authenticate (JStr e) password w = authenticate (JStr e') password w
  /\ register (JStr e) password displayName_ w = register (JStr e') password displayName_ w.
Proof.
  intros H.
  assert (Validators.isValidEmail (JStr e) = Validators.isValidEmail (JStr e')) as Hv.
  { by rewrite <- (isValidEmail_toLowerCase e), <- (isValidEmail_toLowerCase e'), H. }
  split.
  - unfold authenticate, Validators.validateLogin, normalizeEmail. by rewrite Hv, H.
  - unfold register, Validators.validateRegistration, normalizeEmail. by rewrite Hv, H.
Qed.

(** *** Registration *)

Lemma register_run (e pw dn : string) (w : World) :
  users w <> [] ->
  Validators.validateRegistration (JStr e) (JStr pw) (JStr dn) = Returned tt ->
  register (JStr e) (JStr pw) (JStr dn) w
  = let w1 := addCall (CallFindUserByEmail (normalizeEmail e)) w in
    match List.find (matchesEmail (normalizeEmail e)) (users w) with
    | Some _ => (Thrown (EApp (ConflictError "Email already registered")), w1)
    | None =>
        let newUser := registeredUser e pw dn (uuid (idsDrawn w)) (clock (clockReads w)) in
        (Returned (mkAuthResult (toSafeUser newUser)
                     (generateToken (userId newUser) (email newUser))),
         setCache (delete cacheKeys_allUsers (cache w))
           (setUsers (users w ++ [newUser])
              (tickClock (tickIds (addCall (CallCreateUser (normalizeEmail e)) w1)))))
    end.
Proof.
  intros Hseed Hvalid. unfold register, bind at 1, liftOutcome. rewrite Hvalid.
  unfold bind at 1. rewrite DB_findUserByEmail_seeded by done. cbv zeta.
  destruct (List.find _ (users w)) as [x|]; [reflexivity|].
  unfold hashPassword, DB_createUser, bind, modify, ret, generateId, Date_now, getWorld,
    cache_delete.
  rewrite initializeData_seeded by done. reflexivity.
Qed.

(** X10: what [register] does.  Input that fails [validateRegistration]
    is refused with the validator's error before the store is touched.
    Valid input whose normalised address belongs to a live record is
    refused with [Conflict] (status 409), and users, posts and cache stay
    as they were.  Otherwise exactly one record is appended: the
    normalised address, the trimmed display name, the hash of the
    password, status ACTIVE, no failures, no lock; the entry [users:all]
    leaves the cache and the posts are untouched. *)
Theorem register_outcome (e pw dn : string) (w : World) :
  users w <> [] ->
  (forall err,
      Validators.validateRegistration (JStr e) (JStr pw) (JStr dn) = Thrown err ->
      register (JStr e) (JStr pw) (JStr dn) w = (Thrown err, w))
  /\ (Validators.validateRegistration (JStr e) (JStr pw) (JStr dn) = Returned tt ->
      (forall x, List.find (matchesEmail (normalizeEmail e)) (users w) = Some x ->
         exists w',
           register (JStr e) (JStr pw) (JStr dn) w
           = (Thrown (EApp (mkAppError CConflictError "Email already registered"
                              "CONFLICT" 409 true)), w')
           /\ users w' = users w /\ posts w' = posts w /\ cache w' = cache w)
      /\ (List.find (matchesEmail (normalizeEmail e)) (users w) = None ->
          let newUser :=
            registeredUser e pw dn (uuid (idsDrawn w)) (clock (clockReads w)) in
          exists w',
            register (JStr e) (JStr pw) (JStr dn) w
            = (Returned (mkAuthResult (toSafeUser newUser)
                           (generateToken (userId newUser) (email newUser))), w')
            /\ users w' = users w ++ [newUser]
            /\ posts w' = posts w
            /\ cache w' = delete cacheKeys_allUsers (cache w))).
Proof.
  intros Hseed. split.
  - intros err Herr. unfold register, bind at 1, liftOutcome. by rewrite Herr.
  - intros Hvalid. rewrite (register_run e pw dn w Hseed Hvalid). cbv zeta. split.
    + intros x ->. eexists. split; [reflexivity|]. by repeat split.
    + intros ->. eexists. split; [reflexivity|]. by repeat split.
Qed.

Lemma validateRegistration_valid (e pw dn : string) :
  Validators.validateRegistration (JStr e) (JStr pw) (JStr dn) = Returned tt ->
  Validators.isValidEmail (JStr e) = true /\ Validators.isNonEmptyString (JStr pw) = true.
Proof.
  unfold Validators.validateRegistration.
  destruct (Validators.isValidEmail (JStr e)); [|discriminate].
  destruct (Validators.isNonEmptyString (JStr pw)); [|discriminate]. done.
Qed.

Lemma find_app_None {A} (P : A -> bool) (l : list A) (x : A) :
  List.find P l = None -> P x = true -> List.find P (l ++ [x]) = Some x.
Proof.
  induction l as [|a l IH]; simpl; [by intros _ ->|].
  destruct (P a); [discriminate|]. apply IH.
Qed.

(** X11: registration and login fit together.  Provided bcrypt accepts a
    password against its own hash, a login with the address and the
    password of a registration that has just succeeded is accepted and
    returns the user the registration returned, under the normalised
    address. *)
Theorem login_after_register (e pw dn : string) (r : AuthResult) (w w' : World) :
  (forall p, bcryptCompare p (bcryptHash p) = true) ->
  users w <> [] ->
  register (JStr e) (JStr pw) (JStr dn) w = (Returned r, w') ->
  exists session,
    fst (authenticate (JStr e) (JStr pw) w') = Returned session
    /\ arUser session = arUser r
    /\ suEmail (arUser session) = normalizeEmail e.
Proof.
  intros Hbcrypt Hseed Hreg.
  destruct (Validators.validateRegistration (JStr e) (JStr pw) (JStr dn)) as [[]|err] eqn:Hv.
  2:{ revert Hreg. unfold register, bind at 1, liftOutcome. by rewrite Hv. }
  destruct (validateRegistration_valid e pw dn Hv) as [He Hpw].
  rewrite (register_run e pw dn w Hseed Hv) in Hreg. cbv zeta in Hreg.
  destruct (List.find _ (users w)) as [x|] eqn:Hfind; [discriminate|].
  injection Hreg as <- <-.
  rewrite authenticate_outcome; [|simpl; by destruct (users w)|done|done].
  simpl. rewrite (find_app_None _ _ _ Hfind).
  - unfold lockedAt, verifyPassword. simpl. rewrite Hbcrypt. simpl.
    eexists. split; [reflexivity|]. by split.
  - unfold matchesEmail. simpl. by rewrite String.eqb_refl.
Qed.
(** *** The cache as a map with expiry *)

Ltac world_fields :=
  unfold setCache, setUsers, setPosts, addCall, tickClock, tickIds;
  cbn [users posts cache dbLog clockReads idsDrawn].

Lemma cache_set_run (key : string) (v : CVal) (customTTL : option Z) (w : World) :
  cache_set key v customTTL w
  = (Returned tt,
     setCache
       (<[key := mkCacheItem v
                   (clock (clockReads w)
                    + match customTTL with
                      | Some t => if t =? 0 then Env.cacheTTL config else t
                      | None => Env.cacheTTL config
                      end * 1000)]> (cache w))
       (tickClock w)).
Proof.
  unfold cache_set, bind, Date_now, modify, cacheTtlMs.
  destruct customTTL as [t|]; [destruct (t =? 0)|]; reflexivity.
Qed.

Lemma cache_get_run (key : string) (w : World) :
  cache_get key w
  = match cache w !! key with
    | None => (Returned None, w)
    | Some item =>
        if expiresAt item <? clock (clockReads w)
        then (Returned None, setCache (delete key (cache w)) (tickClock w))
        else (Returned (Some (value item)), tickClock w)
    end.
Proof.
  unfold cache_get, bind, getWorld, Date_now, modify, ret.
  destruct (cache w !! key) as [item|]; [|done].
  cbn [clockReads tickClock]. by destruct (expiresAt item <? clock (clockReads w)).
Qed.

(** X12: the operations of the cache fit together.  A value that was
    set is what [get] returns while the clock has not passed its expiry,
    which lies the given number of seconds, or the configured one when
    none or 0 is given, after the clock reading of [set]; once the clock
    has passed it, [get] returns [null] and drops the entry.  After
    [delete] of the key, or after [clear], [get] returns [null] without
    reading the clock, and [clear] leaves [getStats().size] at 0. *)
Theorem cache_set_get_round_trip (key : string) (v : CVal) (customTTL : option Z) (w : World) :
  let seconds :=
    match customTTL with
    | Some t => if t =? 0 then Env.cacheTTL config else t
    | None => Env.cacheTTL config
    end in
  let expiry := clock (clockReads w) + seconds * 1000 in
  let later := clock (S (clockReads w)) in
  (later <= expiry ->
   exists w',
     (cache_set key v customTTL ;; cache_get key) w = (Returned (Some v), w')
     /\ cache w' = <[key := mkCacheItem v expiry]> (cache w))
  /\ (expiry < later ->
      exists w',
        (cache_set key v customTTL ;; cache_get key) w = (Returned None, w')
        /\ cache w' = delete key (cache w))
  /\ (exists w',
        (cache_set key v customTTL ;; cache_delete key ;; cache_get key) w
        = (Returned None, w')
        /\ cache w' = delete key (cache w) /\ clockReads w' = S (clockReads w))
  /\ (forall key',
        exists w',
          (cache_set key v customTTL ;; cache_clear ;; cache_get key') w
          = (Returned None, w')
          /\ cache w' = ∅ /\ clockReads w' = S (clockReads w)
          /\ fst (cache_getStats w') = Returned (mkCacheStats 0 (Env.cacheTTL config * 1000 / 1000))).
Proof.
  cbv zeta. repeat split.
  - intros Hfresh. unfold bind. rewrite cache_set_run, cache_get_run. world_fields.
    rewrite lookup_insert_eq. cbn [expiresAt value].
    apply Z.ltb_ge in Hfresh. rewrite Hfresh. eexists. split; reflexivity.
  - intros Hstale. unfold bind. rewrite cache_set_run, cache_get_run. world_fields.
    rewrite lookup_insert_eq. cbn [expiresAt value].
    apply Z.ltb_lt in Hstale. rewrite Hstale. eexists. split; [reflexivity|].
    cbn [cache]. apply delete_insert_eq.
  - unfold bind. rewrite cache_set_run. unfold cache_delete, modify.
    rewrite cache_get_run. world_fields. rewrite lookup_delete_eq.
    eexists. split; [reflexivity|]. cbn [cache clockReads].
    split; [apply delete_insert_eq|done].
  - intros key'. unfold bind. rewrite cache_set_run. unfold cache_clear, modify.
    rewrite cache_get_run. world_fields. rewrite lookup_empty.
    eexists. split; [reflexivity|]. cbn [cache clockReads].
    split; [done|]. split; [done|].
    unfold cache_getStats, bind, getWorld, ret, cacheTtlMs. cbn [fst cache].
    by rewrite map_size_empty.
Qed.
(** *** What a cached page is keyed by *)

(** A value that a cached read returned sits in the cache under the key
    of the read. *)
Lemma cacheAside_returned_cached (key : string) (loader : M CVal) (v : CVal) (w w' : World) :
  cacheAside key loader w = (Returned v, w') ->
  exists item, cache w' !! key = Some item /\ value item = v.
Proof.
  destruct (freshEntry_cases key w) as [(item & Hk & Hle)|Hstale].
  - rewrite (cacheAside_hit key loader item w Hk Hle). intros [= <- <-]. by exists item.
  - rewrite (cacheAside_miss key loader w Hstale). unfold storeLoaded.
    destruct (loader _) as [[v1|e] w2]; [|discriminate].
    intros [= <- <-]. eexists. split; [apply lookup_insert_eq|done].
Qed.

(** X13: the key of a cached page is made of the page number
    [floor(offset / limit)] alone (and of the user for the posts of one
    user).  After a listing was returned, a second request with another
    limit, offset or order that falls on the same page number is
    answered, while the entry has not expired, with the value the first
    request returned, and the store is not asked.  Both offsets are
    safe integers. *)
Theorem cached_page_ignores_limit_and_order
    (limit1 offset1 limit2 offset2 : JsNum) (order1 order2 : option JsVal)
    (pg1 pg2 : Validators.Pagination) :
  Validators.validatePagination limit1 offset1 order1 = Returned pg1 ->
  Validators.validatePagination limit2 offset2 order2 = Returned pg2 ->
  Validators.pgOffset pg1 <= MAX_SAFE_INTEGER ->
  Validators.pgOffset pg2 <= MAX_SAFE_INTEGER ->
  Validators.pgOffset pg1 / Validators.pgLimit pg1
  = Validators.pgOffset pg2 / Validators.pgLimit pg2 ->
  (forall (v : CVal) (w w1 : World),
      PostModel_getAllWithAuthors limit1 offset1 order1 w = (Returned v, w1) ->
      (forall item,
          cache w1 !! cacheKeys_feed (Validators.pgOffset pg1 / Validators.pgLimit pg1)
          = Some item ->
          clock (clockReads w1) <= expiresAt item) ->
      PostModel_getAllWithAuthors limit2 offset2 order2 w1 = (Returned v, tickClock w1))
  /\ (forall (userId_ : string) (v : CVal) (w w1 : World),
        PostModel_getByUserId userId_ limit1 offset1 order1 w = (Returned v, w1) ->
        (forall item,
            cache w1 !! cacheKeys_userPosts userId_
                          (Validators.pgOffset pg1 / Validators.pgLimit pg1)
            = Some item ->
            clock (clockReads w1) <= expiresAt item) ->
        PostModel_getByUserId userId_ limit2 offset2 order2 w1 = (Returned v, tickClock w1)).
Proof.
  intros Hpg1 Hpg2 _ _ Hpage. split.
  - intros v w w1 Hrun Hfresh. revert Hrun.
    unfold PostModel_getAllWithAuthors, bind at 1, liftOutcome. rewrite Hpg1.
    intros Hrun. apply cacheAside_returned_cached in Hrun as (item & Hk & <-).
    unfold bind at 1. rewrite Hpg2, <- Hpage.
    apply cacheAside_hit; [done|by apply Hfresh].
  - intros userId_ v w w1 Hrun Hfresh. revert Hrun.
    unfold PostModel_getByUserId.
    destruct (negb (Validators.isValidId (JStr userId_))); [discriminate|].
    unfold bind at 1, liftOutcome. rewrite Hpg1.
    intros Hrun. apply cacheAside_returned_cached in Hrun as (item & Hk & <-).
    unfold bind at 1. rewrite Hpg2, <- Hpage.
    apply cacheAside_hit; [done|by apply Hfresh].
Qed.
(** *** Seeding *)

(** X14: the first call of [initializeData], on a store without users,
    draws eight identifiers and one clock reading and writes three
    users and five posts: the users are ACTIVE, live and unlocked and
    share the hash of one password, the posts are live, carry a [Date]
    and are each written by one of the three users.  A second call, as
    any call on a store that has users, changes nothing. *)
Theorem initializeData_seeds_once (w : World) :
  users w = [] ->
  exists w',
    initializeData w = (Returned tt, w')
    /\ map email (users w') = ["alice@example.com"; "bob@example.com"; "charlie@example.com"]
    /\ Forall (fun u => status u = "ACTIVE" /\ userDeletedAt u = TNull
                        /\ failedLoginCount u = 0 /\ lockedUntil u = TNull
                        /\ passwordHash u = bcryptHash "password123") (users w')
    /\ List.length (posts w') = 5%nat
    /\ Forall (fun p => postDeletedAt p = TNull /\ isDate (postCreatedAt p) = true
                        /\ In (postUserId p) (map userId (users w'))) (posts w')
    /\ map userId (users w') ++ map postId (posts w') = map uuid (seq (idsDrawn w) 8)
    /\ idsDrawn w' = (idsDrawn w + 8)%nat
    /\ clockReads w' = S (clockReads w)
    /\ cache w' = cache w
    /\ initializeData w' = (Returned tt, w').
Proof.
  intros Hempty. destruct w as [us ps c lg k n]. simpl in Hempty. subst us.
  unfold initializeData at 1.
  unfold bind, getWorld, modify, Date_now, hashPassword, generateId, ret.
  change (0 <? Z.of_nat (List.length (users (mkWorld [] ps c lg k n)))) with false.
  cbv iota beta.
  eexists. split; [reflexivity|].
  split; [reflexivity|].
  split; [repeat constructor|].
  split; [reflexivity|].
  split; [repeat constructor; cbn [postUserId users setPosts setUsers map userId seedUser In];
          tauto|].
  split; [reflexivity|].
  split; [cbn [idsDrawn setPosts setUsers tickIds tickClock]; lia|].
  split; [reflexivity|]. split; [reflexivity|].
  apply initializeData_seeded. discriminate.
Qed.
(** *** Who may create a post *)

Lemma PostModel_create_run (userId_ : string) (c : JsVal) (w : World) :
  users w <> [] ->
  Validators.isValidId (JStr userId_) = true ->
  Validators.validatePostContent c = Returned tt ->
  PostModel_create userId_ c w
  = if existsb (liveActiveUser userId_) (users w)
    then (Returned (createdPost userId_ c w),
          setCache (invalidatePosts userId_ (cache w))
            (setPosts (posts w ++ [createdPost userId_ c w])
               (tickClock (tickIds (addCall (CallCreatePost userId_)
                                      (addCall CallTransaction w))))))
    else (Thrown (EApp (NotFoundError "User")),
          setUsers (map jsonUser (users w))
            (setPosts (map jsonPost (posts w)) (addCall CallTransaction w))).
Proof.
  intros Hseed Hid Hc. unfold PostModel_create. rewrite Hid. cbn [negb].
  unfold bind at 1, liftOutcome. rewrite Hc.
  unfold bind at 1.
  unfold DB_transaction, theTx. cbn [tx_userExists tx_insertPost].
  unfold bind, modify, tryCatch, getWorld, throwApp, throw, ret.
  rewrite initializeData_seeded by done. cbn [users posts addCall].
  change (existsb _ (users w)) with (existsb (liveActiveUser userId_) (users w)).
  destruct (existsb (liveActiveUser userId_) (users w)); cbn [negb]; [|reflexivity].
  unfold DB_createPost, bind, modify, generateId, Date_now, getWorld, ret.
  rewrite initializeData_seeded by done.
  rewrite deleteUserPostsPattern by done. rewrite deleteFeedPattern.
  reflexivity.
Qed.

(** X15: on a valid id and valid content, [create] stores a post only
    for an author whose record is in the store, not deleted and ACTIVE.
    Then exactly one post is appended: a fresh identifier, the author,
    the sanitized content, the clock reading, not deleted; the users are
    untouched.  For any other author it throws [NotFound] for the user
    and the transaction is rolled back. *)
Theorem create_needs_live_active_author (userId_ : string) (c : JsVal) (w : World) :
  users w <> [] ->
  Validators.isValidId (JStr userId_) = true ->
  Validators.validatePostContent c = Returned tt ->
  ((exists u, In u (users w) /\ userId u = userId_ /\ userDeletedAt u = TNull
              /\ status u = "ACTIVE") ->
   exists w',
     PostModel_create userId_ c w = (Returned (createdPost userId_ c w), w')
     /\ posts w' = posts w ++ [createdPost userId_ c w]
     /\ users w' = users w)
  /\ ((forall u, In u (users w) -> userId u = userId_ ->
         userDeletedAt u <> TNull \/ status u <> "ACTIVE") ->
      exists w',
        PostModel_create userId_ c w
        = (Thrown (EApp (mkAppError CNotFoundError "User not found" "NOT_FOUND" 404 true)), w')
        /\ rolledBack w w'
        /\ cache w' = cache w).
Proof.
  intros Hseed Hid Hc. rewrite (PostModel_create_run userId_ c w Hseed Hid Hc). split.
  - intros (u & Hin & Hu & Hlive & Hact).
    assert (existsb (liveActiveUser userId_) (users w) = true) as ->.
    { apply existsb_exists. exists u. split; [done|]. unfold liveActiveUser.
      rewrite Hlive, Hact. simpl. rewrite !andb_true_r. by apply hasUserId_true. }
    eexists. split; [reflexivity|]. by split.
  - intros Hnone.
    assert (existsb (liveActiveUser userId_) (users w) = false) as ->.
    { apply not_true_is_false. intros H. apply existsb_exists in H as (u & Hin & Hu).
      unfold liveActiveUser in Hu. apply andb_true_iff in Hu as [Hu Hact].
      apply andb_true_iff in Hu as [Hu Hlive]. apply hasUserId_true in Hu.
      apply String.eqb_eq in Hact.
      destruct (Hnone u Hin Hu) as [H|H]; [|done].
      by destruct (userDeletedAt u). }
    eexists. split; [reflexivity|]. by split.
Qed.

(** *** Counting records across writes *)

Lemma getDbStats_run (w : World) : getDbStats w = (Returned (statsOf w), w).
Proof. reflexivity. Qed.

Lemma statsOf_frame (w w' : World) :
  users w' = users w -> posts w' = posts w -> statsOf w' = statsOf w.
Proof. intros Hu Hp. unfold statsOf. by rewrite Hu, Hp. Qed.

Lemma filter_live_json (l : list Post) :
  List.length (List.filter (fun p => negb (timeTruthy (postDeletedAt p))) (map jsonPost l))
  = List.length (List.filter (fun p => negb (timeTruthy (postDeletedAt p))) l).
Proof.
  induction l as [|p l IH]; [done|]. cbn [map List.filter].
  assert (timeTruthy (postDeletedAt (jsonPost p)) = timeTruthy (postDeletedAt p)) as ->.
  { unfold jsonPost. simpl. by destruct (postDeletedAt p). }
  destruct (negb _); simpl; by rewrite IH.
Qed.

Lemma statsOf_rolledBack (w w' : World) : rolledBack w w' -> statsOf w' = statsOf w.
Proof.
  intros [Hu Hp]. unfold statsOf. by rewrite Hu, Hp, !length_map, filter_live_json.
Qed.

Lemma filter_length_insert {A} (f : A -> bool) (l : list A) (i : nat) (x y : A) :
  l !! i = Some x -> f x = true -> f y = false ->
  S (List.length (List.filter f (<[i := y]> l))) = List.length (List.filter f l).
Proof.
  revert i. induction l as [|a l IH]; intros [|i]; simpl; try done.
  - intros [= ->] Hx Hy. by rewrite Hx, Hy.
  - intros Hi Hx Hy. specialize (IH i Hi Hx Hy).
    destruct (f a); simpl; by rewrite <- IH.
Qed.

(** The state a [deleteOwned] that throws leaves: untouched after a
    refused id, rolled back after a refused deletion. *)
Lemma PostModel_deleteOwned_thrown (postId_ userId_ : string) (e : Exn) (w w' : World) :
  users w <> [] ->
  PostModel_deleteOwned postId_ userId_ w = (Thrown e, w') ->
  (users w' = users w /\ posts w' = posts w) \/ rolledBack w w'.
Proof.
  intros Hseed. unfold PostModel_deleteOwned.
  destruct (Validators.isValidId (JStr postId_)) eqn:Hpid; cbn [negb orb].
  2:{ intros [= _ <-]. by left. }
  destruct (Validators.isValidId (JStr userId_)) eqn:Huid; cbn [negb].
  2:{ intros [= _ <-]. by left. }
  unfold bind at 1.
  unfold DB_transaction, theTx. cbn [tx_findPostByIdForUpdate tx_softDeletePost].
  unfold bind, modify, tryCatch, getWorld, throwApp, throw.
  rewrite initializeData_seeded by done.
  rewrite DB_findPostById_seeded by done. cbn [users posts addCall].
  destruct (List.find (hasPostId postId_) (posts w)) as [post|] eqn:Hfind.
  2:{ intros [= _ <-]. by right. }
  destruct (timeTruthy (postDeletedAt post)).
  { intros [= _ <-]. by right. }
  destruct (negb (String.eqb (postUserId post) userId_)).
  { intros [= _ <-]. by right. }
  destruct (DB_softDeletePost_seeded postId_ post
              (addCall (CallFindPostById postId_) (addCall CallTransaction w)) Hseed Hfind)
    as (i & Hi & Hp & Hdel).
  rewrite Hdel. unfold ret, cache_delete, modify.
  rewrite deleteUserPostsPattern by done. rewrite deleteFeedPattern. discriminate.
Qed.

(** X16: [getDbStats] across the two post writes.  A [create] that
    returns raises [posts] and [activePosts] by one; a [deleteOwned]
    that returns lowers [activePosts] by one and leaves [posts]; neither
    changes [users].  A write that throws, rolled back or not, leaves
    the three numbers as they were. *)
Theorem getDbStats_tracks_post_writes (w : World) :
  users w <> [] ->
  (forall userId_ c p w',
      PostModel_create userId_ c w = (Returned p, w') ->
      fst (getDbStats w')
      = Returned (mkDbStats (statUsers (statsOf w)) (statPosts (statsOf w) + 1)
                    (statActivePosts (statsOf w) + 1)))
  /\ (forall postId_ userId_ b w',
        PostModel_deleteOwned postId_ userId_ w = (Returned b, w') ->
        fst (getDbStats w')
        = Returned (mkDbStats (statUsers (statsOf w)) (statPosts (statsOf w))
                      (statActivePosts (statsOf w) - 1)))
  /\ (forall userId_ c e w',
        PostModel_create userId_ c w = (Thrown e, w') ->
        fst (getDbStats w') = Returned (statsOf w))
  /\ (forall postId_ userId_ e w',
        PostModel_deleteOwned postId_ userId_ w = (Thrown e, w') ->
        fst (getDbStats w') = Returned (statsOf w)).
Proof.
  intros Hseed. repeat split.
  - intros userId_ c p w' Hrun.
    destruct (PostModel_create_inv _ _ _ _ _ Hrun) as [Hid _].
    assert (Validators.validatePostContent c = Returned tt) as Hc.
    { revert Hrun. unfold PostModel_create. rewrite Hid. cbn [negb].
      unfold bind at 1, liftOutcome.
      by destruct (Validators.validatePostContent c) as [[]|]. }
    rewrite (PostModel_create_run userId_ c w Hseed Hid Hc) in Hrun.
    destruct (existsb _ (users w)); [|discriminate]. injection Hrun as <- <-.
    rewrite getDbStats_run. unfold statsOf. cbn [fst users posts setCache setPosts].
    rewrite List.filter_app, !length_app. cbn [statUsers statPosts statActivePosts].
    cbn [List.filter createdPost postDeletedAt timeTruthy negb List.length].
    f_equal. f_equal; lia.
  - intros postId_ userId_ b w' Hrun.
    assert (Validators.isValidId (JStr postId_) = true
            /\ Validators.isValidId (JStr userId_) = true) as [Hpid Huid].
    { revert Hrun. unfold PostModel_deleteOwned.
      destruct (Validators.isValidId (JStr postId_)); [|discriminate].
      by destruct (Validators.isValidId (JStr userId_)). }
    pose proof (PostModel_deleteOwned_outcome postId_ userId_ w Hseed Hpid Huid) as Hout.
    rewrite Hrun in Hout. simpl in Hout.
    destruct (List.find (hasPostId postId_) (posts w)) as [q|] eqn:Hfind; [|discriminate].
    destruct (postDeletedAt q) eqn:Hlive; simpl in Hout; try discriminate.
    destruct (String.eqb_spec (postUserId q) userId_) as [Hown|]; [|discriminate].
    destruct (PostModel_deleteOwned_success postId_ userId_ q w Hseed Hpid Huid Hfind
                Hlive Hown) as (i & w2 & _ & Hq & Hrun2 & Hu & Hp & _).
    rewrite Hrun in Hrun2. injection Hrun2 as _ <-.
    rewrite getDbStats_run. unfold statsOf. cbn [fst]. rewrite Hu, Hp.
    rewrite length_insert. cbn [statUsers statPosts statActivePosts].
    assert (S (List.length
                 (List.filter (fun p => negb (timeTruthy (postDeletedAt p)))
                    (<[i := markDeleted (clock (clockReads w)) q]> (posts w))))
            = List.length
                (List.filter (fun p => negb (timeTruthy (postDeletedAt p))) (posts w)))
      as Hcount.
    { apply (filter_length_insert _ _ _ q); [done|by rewrite Hlive|done]. }
    f_equal. f_equal. lia.
  - intros userId_ c e w' Hrun. rewrite getDbStats_run. cbn [fst]. f_equal.
    destruct (Validators.isValidId (JStr userId_)) eqn:Hid.
    2:{ revert Hrun. unfold PostModel_create. rewrite Hid. cbn [negb].
        by intros [= _ <-]. }
    destruct (Validators.validatePostContent c) as [[]|err] eqn:Hc.
    2:{ revert Hrun. unfold PostModel_create. rewrite Hid. cbn [negb].
        unfold bind at 1, liftOutcome. rewrite Hc. by intros [= _ <-]. }
    rewrite (PostModel_create_run userId_ c w Hseed Hid Hc) in Hrun.
    destruct (existsb _ (users w)); [discriminate|]. injection Hrun as _ <-.
    by apply statsOf_rolledBack.
  - intros postId_ userId_ e w' Hrun. rewrite getDbStats_run. cbn [fst]. f_equal.
    destruct (PostModel_deleteOwned_thrown _ _ _ _ _ Hseed Hrun) as [[Hu Hp]|Hrb].
    + by apply statsOf_frame.
    + by apply statsOf_rolledBack.
Qed.
(** *** [DB.findOnePost] *)

(** X17: on a store whose posts all carry a [Date], [DB.findOnePost]
    with an order and no offset returns [null] exactly when the [where]
    part selects no post, and otherwise a selected post that no selected
    post precedes in the order: a newest one, or an oldest one for
    ['ASC']. *)
Theorem DB_findOnePost_returns_first_in_order
    (o : FindPostsOptions) (order : string) (w : World) :
  users w <> [] ->
  orderByCreatedAt o = Some order ->
  order <> "" ->
  Forall (fun p => isDate (postCreatedAt p) = true) (posts w) ->
  default 0 (optOffset o) = 0 ->
  exists r,
    DB_findOnePost o w = (Returned r, addCall CallFindPosts w)
    /\ (r = None <-> List.filter (matchesOptions o) (posts w) = [])
    /\ (forall p, r = Some p ->
          In p (List.filter (matchesOptions o) (posts w))
          /\ forall q, In q (List.filter (matchesOptions o) (posts w)) -> inOrder order p q).
Proof.
  intros Hseed Horder Hne Hdates Hoff.
  set (o1 := mkFindPostsOptions (whereUserId o) (whereDeletedAtNull o)
               (orderByCreatedAt o) (Some 1) (optOffset o)).
  assert (List.filter (matchesOptions o1) (posts w)
          = List.filter (matchesOptions o) (posts w)) as Hsel by reflexivity.
  set (selected := List.filter (matchesOptions o) (posts w)) in *.
  pose proof (sortBy_Permutation (compareCreatedAt order) selected) as Hperm.
  pose proof (sortBy_sorted order selected) as Hsorted.
  unfold DB_findOnePost, bind. fold o1.
  rewrite (DB_findPosts_sorted_run o1 order w Hseed Horder Hne Hdates), Hsel.
  change (default 0 (optOffset o1)) with (default 0 (optOffset o)). rewrite Hoff.
  rewrite (jsSlice_window 0 1) by lia.
  change (Z.to_nat 0) with 0%nat. change (Z.to_nat 1) with 1%nat. rewrite drop_0.
  unfold ret. eexists. split; [reflexivity|].
  destruct (sortBy (compareCreatedAt order) selected) as [|p rest] eqn:E.
  - apply Permutation_nil in Hperm. simpl. split; [by rewrite Hperm|done].
  - simpl. split.
    + split; [done|]. intros Hnil. rewrite Hnil in Hperm.
      symmetry in Hperm. by apply Permutation_nil in Hperm.
    + intros p' [= <-]. split.
      * apply (Permutation_in p Hperm). by left.
      * intros q Hq. apply (Permutation_in q (Permutation_sym Hperm)) in Hq.
        destruct Hq as [<-|Hq].
        -- unfold inOrder. destruct (String.eqb order "ASC"); lia.
        -- apply StronglySorted_inv in Hsorted as [_ Hall].
           rewrite List.Forall_forall in Hall. by apply Hall.
Qed.
(** *** Consistency of the store across requests *)

Lemma OkShape_mono us ps (n n' : nat) :
  (n <= n')%nat -> OkShape us ps n -> OkShape us ps n'.
Proof.
  intros Hle (Hau & Hem & Hnorm & idxs & Hnd & Hlt & Hperm).
  repeat split; try done. exists idxs. repeat split; try done.
  eapply Forall_impl; [exact Hlt|]. intros i Hi. simpl in *. lia.
Qed.

Lemma StoreOk_frame (w w' : World) :
  users w' = users w -> posts w' = posts w -> (idsDrawn w <= idsDrawn w')%nat ->
  StoreOk w -> StoreOk w'.
Proof.
  intros Hu Hp Hn H. unfold StoreOk. rewrite Hu, Hp. by eapply OkShape_mono.
Qed.

Lemma StoreOk_shape (w w' : World) :
  map userShape (users w') = map userShape (users w) ->
  map postShape (posts w') = map postShape (posts w) ->
  (idsDrawn w <= idsDrawn w')%nat ->
  StoreOk w -> StoreOk w'.
Proof.
  intros Hu Hp Hn H. unfold StoreOk. rewrite Hu, Hp. by eapply OkShape_mono.
Qed.

Lemma OkShape_addUser us ps (n : nat) (e : string) :
  OkShape us ps n ->
  ~ In e (map (fun t => t.1.2) (List.filter (fun t => negb t.2) us)) ->
  normalizeEmail e = e ->
  OkShape (us ++ [(uuid n, e, false)]) ps (S n).
Proof.
  intros (Hau & Hem & Hnorm & idxs & Hnd & Hlt & Hperm) Hnew He.
  split; [|split; [|split]].
  - eapply Forall_impl; [exact Hau|]. intros s Hs. simpl in *.
    rewrite map_app. apply in_or_app. by left.
  - rewrite List.filter_app, map_app. simpl.
    apply NoDup_app. split; [done|]. split; [|apply NoDup_singleton].
    intros x Hx Hx'. apply list_elem_of_In in Hx.
    apply list_elem_of_singleton in Hx'. by subst.
  - apply Forall_app. split; [done|]. by constructor.
  - exists (n :: idxs). split; [|split].
    + apply NoDup_cons. split; [|done]. intros Hin.
      rewrite List.Forall_forall in Hlt. apply list_elem_of_In in Hin.
      specialize (Hlt n Hin). simpl in Hlt. lia.
    + constructor; [lia|]. eapply Forall_impl; [exact Hlt|]. intros i Hi. simpl in *. lia.
    + rewrite map_app. simpl. rewrite <- app_assoc. simpl.
      rewrite <- Permutation_middle. by constructor.
Qed.

Lemma OkShape_addPost us ps (n : nat) (author : string) :
  OkShape us ps n ->
  In author (map (fun t => t.1.1) us) ->
  OkShape us (ps ++ [(uuid n, author)]) (S n).
Proof.
  intros (Hau & Hem & Hnorm & idxs & Hnd & Hlt & Hperm) Hin.
  split; [|split; [|split]]; try done.
  - apply Forall_app. split; [done|]. by constructor.
  - exists (n :: idxs). split; [|split].
    + apply NoDup_cons. split; [|done]. intros Hin'.
      rewrite List.Forall_forall in Hlt. apply list_elem_of_In in Hin'.
      specialize (Hlt n Hin'). simpl in Hlt. lia.
    + constructor; [lia|]. eapply Forall_impl; [exact Hlt|]. intros i Hi. simpl in *. lia.
    + rewrite map_app. simpl. rewrite app_assoc.
      rewrite <- Permutation_cons_append. by constructor.
Qed.

Lemma timeTruthy_jsonTime (t : JsTime) : timeTruthy (jsonTime t) = timeTruthy t.
Proof. by destruct t. Qed.

Lemma userShape_json (us : list User) : map userShape (map jsonUser us) = map userShape us.
Proof.
  rewrite map_map. apply map_ext. intros u. unfold userShape, jsonUser. simpl.
  by rewrite timeTruthy_jsonTime.
Qed.

Lemma postShape_json (ps : list Post) : map postShape (map jsonPost ps) = map postShape ps.
Proof. rewrite map_map. by apply map_ext. Qed.

Lemma map_insert_same {A B} (f : A -> B) (l : list A) (i : nat) (x y : A) :
  l !! i = Some x -> f y = f x -> map f (<[i := y]> l) = map f l.
Proof.
  revert i. induction l as [|a l IH]; intros [|i]; simpl; try done.
  - intros [= ->] Hf. by rewrite Hf.
  - intros Hi Hf. f_equal. by eapply IH.
Qed.

Lemma is_space_lowerChar (c : ascii) : JsStr.is_space (JsStr.lowerChar c) = JsStr.is_space c.
Proof. each_code_unit c; reflexivity. Qed.

Lemma lowerChar_idem (c : ascii) : JsStr.lowerChar (JsStr.lowerChar c) = JsStr.lowerChar c.
Proof. each_code_unit c; reflexivity. Qed.

Lemma trimStartL_map_lower (l : list ascii) :
  JsStr.trimStartL (map JsStr.lowerChar l) = map JsStr.lowerChar (JsStr.trimStartL l).
Proof.
  induction l as [|c l IH]; simpl; [done|]. rewrite is_space_lowerChar.
  by destruct (JsStr.is_space c).
Qed.

Lemma trimL_map_lower (l : list ascii) :
  JsStr.trimL (map JsStr.lowerChar l) = map JsStr.lowerChar (JsStr.trimL l).
Proof.
  unfold JsStr.trimL, JsStr.trimEndL.
  by rewrite trimStartL_map_lower, <- map_rev, trimStartL_map_lower, map_rev.
Qed.

(** Normalising an address twice is normalising it once. *)
Lemma normalizeEmail_idem (e : string) : normalizeEmail (normalizeEmail e) = normalizeEmail e.
Proof.
  unfold normalizeEmail, JsStr.trim, JsStr.toLowerCase. rewrite !chars_str.
  f_equal. rewrite trimL_map_lower, trimL_idem, <- trimL_map_lower.
  f_equal. rewrite map_map. apply map_ext, lowerChar_idem.
Qed.

Lemma liveEmails_shape (us : list User) :
  map (fun t : string * string * bool => t.1.2)
    (List.filter (fun t => negb t.2) (map userShape us))
  = liveEmails us.
Proof.
  unfold liveEmails. induction us as [|u us IH]; [done|]. cbn [map List.filter].
  unfold userShape at 1, isLive at 1. cbn [snd fst].
  destruct (negb (timeTruthy (userDeletedAt u))); cbn [map]; by rewrite IH.
Qed.

Lemma userIds_shape (us : list User) :
  map (fun t : string * string * bool => t.1.1) (map userShape us) = map userId us.
Proof. rewrite map_map. by apply map_ext. Qed.

Lemma postIds_shape (ps : list Post) : map fst (map postShape ps) = map postId ps.
Proof. rewrite map_map. by apply map_ext. Qed.

Lemma find_None_liveEmails (e : string) (us : list User) :
  List.find (matchesEmail e) us = None -> ~ In e (liveEmails us).
Proof.
  intros Hnone Hin. unfold liveEmails in Hin. apply in_map_iff in Hin as (u & He & Hu).
  apply filter_In in Hu as [Hu Hlive].
  pose proof (find_none _ _ Hnone u Hu) as Hm. unfold matchesEmail in Hm.
  unfold isLive in Hlive. rewrite Hlive, He, String.eqb_refl in Hm. discriminate.
Qed.

(** What [initializeData] leaves: a store with users, consistent if it
    was, or if it was empty. *)
Lemma initializeData_post (w : World) :
  exists w1,
    initializeData w = (Returned tt, w1)
    /\ users w1 <> []
    /\ (idsDrawn w <= idsDrawn w1)%nat
    /\ (StoreOk w -> StoreOk w1).
Proof.
  destruct (users w) as [|u us] eqn:Hu.
  - destruct w as [us ps c lg k n]. simpl in Hu. subst us.
    unfold initializeData.
    unfold bind, getWorld, modify, Date_now, hashPassword, generateId, ret.
    change (0 <? Z.of_nat (List.length (users (mkWorld [] ps c lg k n)))) with false.
    cbv iota beta.
    eexists. split; [reflexivity|]. split; [discriminate|].
    split; [cbn [idsDrawn setPosts setUsers tickIds tickClock]; lia|].
    intros _. unfold StoreOk, OkShape.
    cbn [users posts idsDrawn setPosts setUsers tickIds tickClock map userShape postShape
           seedUser userId email userDeletedAt postId postUserId timeTruthy fst snd
           List.filter negb].
    split; [repeat constructor; simpl; tauto|].
    split; [apply NoDup_ListNoDup; repeat constructor; simpl; intuition discriminate|].
    split; [repeat constructor|].
    exists (seq n 8). split; [apply NoDup_ListNoDup, seq_NoDup|].
    split; [apply List.Forall_forall; intros i Hi; apply in_seq in Hi; lia|].
    cbn [seq map app]. reflexivity.
  - exists w. split; [apply initializeData_seeded; by rewrite Hu|].
    split; [by rewrite Hu|]. split; [lia|done].
Qed.

Lemma StoreOk_initializeData : Keeps StoreOk initializeData (fun _ => True).
Proof.
  intros w Hw. destruct (initializeData_post w) as (w1 & -> & _ & _ & Hok).
  split; [by apply Hok|done].
Qed.

Lemma StoreOk_modify (f : World -> World) :
  (forall w, users (f w) = users w /\ posts (f w) = posts w
             /\ (idsDrawn w <= idsDrawn (f w))%nat) ->
  Keeps StoreOk (modify f) (fun _ => True).
Proof.
  intros Hf w Hw. destruct (Hf w) as (Hu & Hp & Hn). split; [|done].
  by apply (StoreOk_frame w).
Qed.

Lemma StoreOk_getWorld : Keeps StoreOk getWorld (fun _ => True).
Proof. by intros w Hw. Qed.

Lemma StoreOk_Date_now : Keeps StoreOk Date_now (fun _ => True).
Proof. intros w Hw. split; [|done]. by apply (StoreOk_frame w). Qed.

(** Steps through a computation made of binds, given the rules of its
    parts. *)
Ltac keeps_step :=
  first
    [ apply Keeps_ret; exact I
    | apply Keeps_throw
    | apply StoreOk_initializeData
    | apply StoreOk_getWorld
    | apply StoreOk_Date_now
    | apply StoreOk_modify; intros ?; cbn; repeat split; lia
    | apply Keeps_liftOutcome; intros; exact I
    | eapply Keeps_bind; [|intros ? _] ].

Ltac keeps := repeat keeps_step.

Lemma StoreOk_DB_findUserByEmail e : Keeps StoreOk (DB_findUserByEmail e) (fun _ => True).
Proof. unfold DB_findUserByEmail. keeps. Qed.

Lemma StoreOk_DB_findUserById id b : Keeps StoreOk (DB_findUserById id b) (fun _ => True).
Proof. unfold DB_findUserById. keeps. Qed.

Lemma StoreOk_DB_findAllUsers : Keeps StoreOk DB_findAllUsers (fun _ => True).
Proof. unfold DB_findAllUsers. keeps. Qed.

Lemma StoreOk_DB_findPostById id : Keeps StoreOk (DB_findPostById id) (fun _ => True).
Proof. unfold DB_findPostById. keeps. Qed.

Lemma StoreOk_DB_findPosts o : Keeps StoreOk (DB_findPosts o) (fun _ => True).
Proof.
  unfold DB_findPosts. keeps.
  destruct (orderByCreatedAt o) as [order|]; [|keeps].
  destruct (String.eqb order ""); [keeps|].
  destruct (_ && _); keeps.
Qed.

Lemma StoreOk_DB_updateUser id d : Keeps StoreOk (DB_updateUser id d) (fun _ => True).
Proof.
  intros w Hw. split; [|done]. unfold DB_updateUser, bind, modify.
  destruct (initializeData_post (addCall (CallUpdateUser id) w)) as (w1 & -> & _ & _ & Hok).
  specialize (Hok (StoreOk_frame w _ eq_refl eq_refl (Nat.le_refl _) Hw)).
  unfold getWorld, ret.
  destruct (findIndex (hasUserId id) (users w1)) as [i|]; [|done].
  destruct (users w1 !! i) as [u|] eqn:Hi; [|done]. cbn [snd].
  apply (StoreOk_shape w1); [|done|simpl; lia|done].
  by apply (map_insert_same userShape _ _ u).
Qed.

Lemma StoreOk_cache_get key : Keeps StoreOk (cache_get key) (fun _ => True).
Proof.
  unfold cache_get. keeps. destruct (cache _ !! key) as [item|]; [|keeps].
  keeps. destruct (expiresAt item <? _); keeps.
Qed.

Lemma StoreOk_cache_set key v t : Keeps StoreOk (cache_set key v t) (fun _ => True).
Proof. unfold cache_set. keeps. Qed.

Lemma StoreOk_cache_delete key : Keeps StoreOk (cache_delete key) (fun _ => True).
Proof. unfold cache_delete. keeps. Qed.

Lemma StoreOk_cache_deletePattern pattern :
  Keeps StoreOk (cache_deletePattern pattern) (fun _ => True).
Proof. unfold cache_deletePattern. destruct (Regex.parse _); keeps. Qed.

Lemma StoreOk_cacheAside key (loader : M CVal) :
  Keeps StoreOk loader (fun _ => True) ->
  Keeps StoreOk (cacheAside key loader) (fun _ => True).
Proof.
  intros Hloader. unfold cacheAside.
  eapply Keeps_bind; [apply StoreOk_cache_get|]. intros [v|] _; [keeps|].
  eapply Keeps_bind; [exact Hloader|]. intros v _.
  eapply Keeps_bind; [apply StoreOk_cache_set|]. intros _ _. keeps.
Qed.

Lemma StoreOk_recordFailedLogin id : Keeps StoreOk (recordFailedLogin id) (fun _ => True).
Proof.
  unfold recordFailedLogin.
  eapply Keeps_bind; [apply StoreOk_DB_findUserById|]. intros [user|] _; [|keeps].
  eapply Keeps_bind with (Q1 := fun _ => True).
  - destruct (_ <=? _); keeps.
  - intros updates _. eapply Keeps_bind; [apply StoreOk_DB_updateUser|]. intros _ _. keeps.
Qed.

Lemma StoreOk_resetFailedLogin id : Keeps StoreOk (resetFailedLogin id) (fun _ => True).
Proof.
  unfold resetFailedLogin.
  eapply Keeps_bind; [apply StoreOk_DB_updateUser|]. intros _ _. keeps.
Qed.

Lemma StoreOk_authenticate e pw : Keeps StoreOk (authenticate e pw) (fun _ => True).
Proof.
  unfold authenticate. eapply Keeps_bind; [keeps|]. intros _ _.
  destruct e as [e|]; [|keeps]. destruct pw as [pw|]; [|keeps].
  eapply Keeps_bind; [apply StoreOk_DB_findUserByEmail|]. intros user _.
  eapply Keeps_bind with (Q1 := fun _ => True).
  - destruct user as [u|]; [|keeps]. destruct (timeTruthy (lockedUntil u)); keeps.
  - intros locked _. destruct locked; [keeps|]. destruct user as [u|]; [|keeps].
    destruct (_ || _).
    + eapply Keeps_bind; [apply StoreOk_recordFailedLogin|]. intros _ _. keeps.
    + eapply Keeps_bind; [apply StoreOk_resetFailedLogin|]. intros _ _. keeps.
Qed.

Lemma StoreOk_UserModel_getById id : Keeps StoreOk (UserModel_getById id) (fun _ => True).
Proof.
  unfold UserModel_getById. destruct (negb _); [keeps|].
  apply StoreOk_cacheAside.
  eapply Keeps_bind; [apply StoreOk_DB_findUserById|]. intros [user|] _; keeps.
Qed.

Lemma StoreOk_UserModel_getAll : Keeps StoreOk UserModel_getAll (fun _ => True).
Proof.
  unfold UserModel_getAll. apply StoreOk_cacheAside.
  eapply Keeps_bind; [apply StoreOk_DB_findAllUsers|]. intros us _. keeps.
Qed.

Lemma StoreOk_PostModel_getByUserId userId_ limit offset order :
  Keeps StoreOk (PostModel_getByUserId userId_ limit offset order) (fun _ => True).
Proof.
  unfold PostModel_getByUserId. destruct (negb _); [keeps|].
  eapply Keeps_bind; [keeps|]. intros pg _.
  apply StoreOk_cacheAside.
  eapply Keeps_bind; [apply StoreOk_DB_findPosts|]. intros ps _. keeps.
Qed.

Lemma StoreOk_PostModel_getAllWithAuthors limit offset order :
  Keeps StoreOk (PostModel_getAllWithAuthors limit offset order) (fun _ => True).
Proof.
  unfold PostModel_getAllWithAuthors.
  eapply Keeps_bind; [keeps|]. intros pg _.
  apply StoreOk_cacheAside.
  eapply Keeps_bind; [apply StoreOk_DB_findPosts|]. intros ps _.
  eapply Keeps_bind with (Q1 := fun _ => True); [|intros; keeps].
  eapply Keeps_weaken; [apply Keeps_mapM with (R := fun _ => True)|done].
  intros post _. apply Keeps_tryCatch; [|intros; keeps].
  eapply Keeps_bind; [apply StoreOk_UserModel_getById|]. intros author _. keeps.
Qed.

Lemma StoreOk_PostModel_getById postId_ :
  Keeps StoreOk (PostModel_getById postId_) (fun _ => True).
Proof.
  unfold PostModel_getById. destruct (negb _); [keeps|].
  apply StoreOk_cacheAside.
  eapply Keeps_bind; [apply StoreOk_DB_findPostById|]. intros [post|] _; [|keeps].
  destruct (timeTruthy _); [keeps|].
  eapply Keeps_bind; [apply StoreOk_UserModel_getById|]. intros author _. keeps.
Qed.

Lemma StoreOk_runRead r : Keeps StoreOk (runRead r) (fun _ => True).
Proof.
  destruct r; simpl.
  - apply StoreOk_PostModel_getAllWithAuthors.
  - apply StoreOk_PostModel_getByUserId.
  - apply StoreOk_PostModel_getById.
  - apply StoreOk_UserModel_getById.
  - apply StoreOk_UserModel_getAll.
Qed.

Lemma StoreOk_register e pw dn : Keeps StoreOk (register e pw dn) (fun _ => True).
Proof.
  intros w Hw. split; [|done]. unfold register, bind at 1, liftOutcome.
  destruct (Validators.validateRegistration e pw dn) as [[]|err]; [|done].
  destruct e as [e|]; [|done]. destruct pw as [pw|]; [|done]. destruct dn as [dn|]; [|done].
  unfold bind at 1, DB_findUserByEmail, bind, modify.
  destruct (initializeData_post (addCall (CallFindUserByEmail (normalizeEmail e)) w))
    as (w1 & -> & Hseed & _ & Hok).
  specialize (Hok (StoreOk_frame w _ eq_refl eq_refl (Nat.le_refl _) Hw)).
  unfold getWorld, ret.
  destruct (List.find (matchesEmail (normalizeEmail e)) (users w1)) as [x|] eqn:Hfind; [done|].
  unfold hashPassword, DB_createUser, cache_delete, bind, modify, ret, generateId, Date_now,
    getWorld.
  rewrite initializeData_seeded by done.
  cbn [snd]. unfold StoreOk. world_fields.
  rewrite map_app.
  apply OkShape_addUser; [exact Hok| |apply normalizeEmail_idem].
  rewrite liveEmails_shape. by apply find_None_liveEmails.
Qed.

Lemma StoreOk_create_transaction userId_ content_ :
  Keeps StoreOk
    (DB_transaction (fun tx =>
       userExists <- tx_userExists tx userId_ ;;
       if negb userExists then throwApp (NotFoundError "User")
       else newPost <- tx_insertPost tx userId_ content_ ;; ret newPost))
    (fun _ => True).
Proof.
  intros w Hw. split; [|done].
  unfold DB_transaction, theTx. cbn [tx_userExists tx_insertPost].
  unfold bind, modify, tryCatch, getWorld, throwApp, throw, ret.
  destruct (initializeData_post (addCall CallTransaction w)) as (w1 & -> & Hseed & _ & Hok).
  specialize (Hok (StoreOk_frame w _ eq_refl eq_refl (Nat.le_refl _) Hw)).
  destruct (existsb _ (users w1)) eqn:Hex; cbn [negb].
  - unfold DB_createPost, bind, modify, generateId, Date_now, getWorld, ret.
    rewrite initializeData_seeded by done.
    cbn [snd]. unfold StoreOk. world_fields. rewrite map_app.
    apply OkShape_addPost; [exact Hok|].
    apply existsb_exists in Hex as (u & Hin & Hu).
    apply andb_true_iff in Hu as [Hu _]. apply andb_true_iff in Hu as [Hu _].
    apply hasUserId_true in Hu. rewrite userIds_shape. apply in_map_iff. by exists u.
  - cbn [snd]. apply (StoreOk_shape w1); [| |simpl; lia|done].
    + apply userShape_json.
    + apply postShape_json.
Qed.

Lemma StoreOk_PostModel_create userId_ c :
  Keeps StoreOk (PostModel_create userId_ c) (fun _ => True).
Proof.
  unfold PostModel_create. destruct (negb _); [keeps|].
  eapply Keeps_bind; [keeps|]. intros _ _.
  eapply Keeps_bind; [apply StoreOk_create_transaction|]. intros post _.
  eapply Keeps_bind; [apply StoreOk_cache_deletePattern|]. intros _ _.
  eapply Keeps_bind; [apply StoreOk_cache_deletePattern|]. intros _ _. keeps.
Qed.

Lemma StoreOk_delete_transaction postId_ userId_ :
  Keeps StoreOk
    (DB_transaction (fun tx =>
       found <- tx_findPostByIdForUpdate tx postId_ ;;
       match found with
       | None => throwApp (NotFoundError "Post")
       | Some post =>
           if timeTruthy (postDeletedAt post) then throwApp (NotFoundError "Post")
           else if negb (String.eqb (postUserId post) userId_)
           then throwApp (ForbiddenError "You can only delete your own posts")
           else tx_softDeletePost tx postId_ ;; ret true
       end))
    (fun _ => True).
Proof.
  intros w Hw. split; [|done].
  unfold DB_transaction, theTx. cbn [tx_findPostByIdForUpdate tx_softDeletePost].
  unfold bind, modify, tryCatch, getWorld, throwApp, throw.
  destruct (initializeData_post (addCall CallTransaction w)) as (w1 & -> & Hseed & _ & Hok).
  specialize (Hok (StoreOk_frame w _ eq_refl eq_refl (Nat.le_refl _) Hw)).
  rewrite DB_findPostById_seeded by done.
  assert (StoreOk (setUsers (map jsonUser (users w1))
                     (setPosts (map jsonPost (posts w1))
                        (addCall (CallFindPostById postId_) w1)))) as Hrollback.
  { apply (StoreOk_shape w1); [| |simpl; lia|done].
    - apply userShape_json.
    - apply postShape_json. }
  destruct (List.find (hasPostId postId_) (posts w1)) as [post|] eqn:Hfind; [|exact Hrollback].
  destruct (timeTruthy (postDeletedAt post)); [exact Hrollback|].
  destruct (negb (String.eqb (postUserId post) userId_)); [exact Hrollback|].
  destruct (DB_softDeletePost_seeded postId_ post (addCall (CallFindPostById postId_) w1)
              Hseed Hfind) as (i & Hi & Hp & ->).
  unfold ret. cbn [snd].
  apply (StoreOk_shape w1); [done| |simpl; lia|done].
  by apply (map_insert_same postShape _ _ post).
Qed.

Lemma StoreOk_PostModel_deleteOwned postId_ userId_ :
  Keeps StoreOk (PostModel_deleteOwned postId_ userId_) (fun _ => True).
Proof.
  unfold PostModel_deleteOwned. destruct (_ || _); [keeps|].
  eapply Keeps_bind; [apply StoreOk_delete_transaction|]. intros result _.
  eapply Keeps_bind; [apply StoreOk_cache_delete|]. intros _ _.
  eapply Keeps_bind; [apply StoreOk_cache_deletePattern|]. intros _ _.
  eapply Keeps_bind; [apply StoreOk_cache_deletePattern|]. intros _ _. keeps.
Qed.

(** Every request keeps the store consistent, whatever it answers. *)
Lemma StoreOk_handle (rq : Request) (w : World) : StoreOk w -> StoreOk (handle rq w).
Proof.
  intros Hw. destruct rq as [e pw dn|e pw|uid c|pid uid|r]; simpl.
  - by apply (StoreOk_register e pw dn w).
  - by apply (StoreOk_authenticate e pw w).
  - by apply (StoreOk_PostModel_create uid c w).
  - by apply (StoreOk_PostModel_deleteOwned pid uid w).
  - by apply (StoreOk_runRead r w).
Qed.

Lemma StoreOk_handleAll (rqs : list Request) (w : World) :
  StoreOk w -> StoreOk (handleAll rqs w).
Proof.
  revert w. induction rqs as [|rq rqs IH]; intros w Hw; simpl; [done|].
  by apply IH, StoreOk_handle.
Qed.

Lemma StoreOk_empty c lg (k n : nat) : StoreOk (mkWorld [] [] c lg k n).
Proof.
  unfold StoreOk, OkShape. simpl. repeat split; try constructor.
  exists []. repeat split; constructor.
Qed.

(** X18: no post is left without its author.  In the state any
    sequence of requests leaves behind, started on a store without
    users and posts, the author of every post is the id of a user of
    the store. *)
Theorem reachable_posts_have_authors
    (rqs : list Request) (c : gmap string CacheItem) (lg : list DbCall) (k n : nat) :
  let w := handleAll rqs (mkWorld [] [] c lg k n) in
  Forall (fun p => exists u, In u (users w) /\ userId u = postUserId p) (posts w).
Proof.
  cbv zeta. pose proof (StoreOk_handleAll rqs _ (StoreOk_empty c lg k n)) as (Hau & _).
  set (w := handleAll rqs _) in *.
  apply List.Forall_forall. intros p Hp. rewrite List.Forall_forall in Hau.
  specialize (Hau (postShape p) (in_map postShape _ _ Hp)).
  rewrite userIds_shape in Hau. simpl in Hau.
  apply in_map_iff in Hau as (u & Hu & Hin). by exists u.
Qed.

Lemma find_live_by_email (us : list User) (u : User) :
  NoDup (liveEmails us) -> In u us -> isLive u = true ->
  List.find (matchesEmail (email u)) us = Some u.
Proof.
  unfold liveEmails. induction us as [|a us IH]; simpl; [done|].
  intros Hnd Hin Hlive.
  destruct (matchesEmail (email u) a) eqn:Hm.
  - unfold matchesEmail in Hm. apply andb_true_iff in Hm as [He Ha].
    apply String.eqb_eq in He. change (isLive a = true) in Ha. rewrite Ha in Hnd.
    destruct Hin as [->|Hin]; [done|]. exfalso.
    simpl in Hnd. apply NoDup_cons in Hnd as [Hnotin _]. apply Hnotin.
    rewrite He. apply list_elem_of_In, in_map, filter_In. by split.
  - destruct Hin as [->|Hin].
    + unfold matchesEmail in Hm. unfold isLive in Hlive.
      by rewrite String.eqb_refl, Hlive in Hm.
    + apply IH; [|done|done]. destruct (isLive a); [|done].
      simpl in Hnd. by apply NoDup_cons in Hnd as [_ Hnd].
Qed.

(** X19: no two live records share an address.  In the state any
    sequence of requests leaves behind, started on a store without
    users and posts, the addresses of the live records are pairwise
    distinct and every stored address is in the normal form of
    [normalizeEmail]; so the lookup that [authenticate] and [register]
    make for the address of a live record finds that record. *)
Theorem reachable_live_addresses_are_distinct
    (rqs : list Request) (c : gmap string CacheItem) (lg : list DbCall) (k n : nat) :
  let w := handleAll rqs (mkWorld [] [] c lg k n) in
  NoDup (liveEmails (users w))
  /\ forall u, In u (users w) ->
       normalizeEmail (email u) = email u
       /\ (isLive u = true ->
           List.find (matchesEmail (normalizeEmail (email u))) (users w) = Some u).
Proof.
  cbv zeta. pose proof (StoreOk_handleAll rqs _ (StoreOk_empty c lg k n))
    as (_ & Hem & Hnorm & _).
  set (w := handleAll rqs _) in *. rewrite liveEmails_shape in Hem.
  split; [done|]. intros u Hu.
  rewrite List.Forall_forall in Hnorm.
  specialize (Hnorm (userShape u) (in_map userShape _ _ Hu)). simpl in Hnorm.
  split; [done|]. intros Hlive. rewrite Hnorm. by apply find_live_by_email.
Qed.

(** X20: every id in the store is a draw of its own.  In the state any
    sequence of requests leaves behind, started on a store without
    users and posts, the ids of the users and of the posts are values
    the id generator returned at pairwise distinct draws made so far;
    if the generator never returns a value twice, no two records of the
    store share an id. *)
Theorem reachable_ids_are_distinct_draws
    (rqs : list Request) (c : gmap string CacheItem) (lg : list DbCall) (k n : nat) :
  let w := handleAll rqs (mkWorld [] [] c lg k n) in
  (exists idxs : list nat,
      NoDup idxs
      /\ Forall (fun i => (i < idsDrawn w)%nat) idxs
      /\ Permutation (map userId (users w) ++ map postId (posts w)) (map uuid idxs))
  /\ ((forall i j, uuid i = uuid j -> i = j) ->
      NoDup (map userId (users w) ++ map postId (posts w))).
Proof.
  cbv zeta. pose proof (StoreOk_handleAll rqs _ (StoreOk_empty c lg k n))
    as (_ & _ & _ & idxs & Hnd & Hlt & Hperm).
  set (w := handleAll rqs _) in *. rewrite userIds_shape, postIds_shape in Hperm.
  split; [by exists idxs|]. intros Hinj.
  rewrite Hperm. apply NoDup_fmap_2; [|done]. intros i j. apply Hinj.
Qed.
(** *** Listings on a miss *)

Lemma validatePagination_bounds (limit offset : JsNum) (order : option JsVal)
    (pg : Validators.Pagination) :
  Validators.validatePagination limit offset order = Returned pg ->
  1 <= Validators.pgLimit pg <= 100
  /\ 0 <= Validators.pgOffset pg
  /\ (Validators.pgOrder pg = "ASC" \/ Validators.pgOrder pg = "DESC").
Proof using Type.
  clear. unfold Validators.validatePagination.
  destruct order as [[o|]|]; [|discriminate|].
  all: match goal with
       | |- context [ (?a ++ ?b ++ ?c) ] => set (e1 := a); set (e2 := b); set (e3 := c)
       end.
  all: destruct (e1 ++ e2 ++ e3) as [|m ms] eqn:E; [|discriminate].
  all: apply app_eq_nil in E as [E1 E]; apply app_eq_nil in E as [E2 E3].
  all: subst e1 e2 e3; cbn [List.length Z.of_nat Z.ltb Z.compare]; intros [= <-].
  all: cbn [Validators.pgLimit Validators.pgOffset Validators.pgOrder].
  all: split; [|split].
  1,4: destruct limit as [|l|]; [lia| |lia];
       destruct ((l <? 1) || (100 <? l)) eqn:B; [discriminate|];
       apply orb_false_iff in B as [B1 B2]; apply Z.ltb_ge in B1, B2;
       destruct (l =? 0); [lia|]; unfold Validators.clamp; lia.
  1,3: destruct offset as [|f|]; [lia| |lia];
       destruct (f <? 0) eqn:B; [discriminate|]; apply Z.ltb_ge in B;
       destruct (f =? 0); lia.
  - destruct (Validators.isAscOrDesc (JsStr.toUpperCase o)) eqn:B; [|discriminate].
    destruct (String.eqb o ""); [by right|].
    unfold Validators.isAscOrDesc in B. apply orb_true_iff in B as [B|B];
      apply String.eqb_eq in B; tauto.
  - by right.
Qed.

(** X21: [getByUserId] on a miss.  With a valid id and valid pagination
    whose offset is a safe integer,
    on a seeded store whose posts all carry a [Date] and with no
    unexpired entry under the page's key, the call returns the window
    [offset, offset + limit) of a listing that holds exactly the live
    posts of that user, each once, ordered by [createdAt] as requested
    (newest first by default), and stores it under the page's key.
    Users and posts are untouched.  An id that no post names, whether a
    user has it or not, gets the empty list and no error. *)
Theorem getByUserId_loads_window_of_live_posts
    (userId_ : string) (limit offset : JsNum) (order : option JsVal)
    (pg : Validators.Pagination) (w : World) :
  users w <> [] ->
  Validators.isValidId (JStr userId_) = true ->
  Validators.validatePagination limit offset order = Returned pg ->
  Validators.pgOffset pg <= MAX_SAFE_INTEGER ->
  Forall (fun p => isDate (postCreatedAt p) = true) (posts w) ->
  ~ freshEntry (cacheKeys_userPosts userId_
                  (Validators.pgOffset pg / Validators.pgLimit pg)) w ->
  exists listing w',
    Permutation listing
      (List.filter (fun p => String.eqb (postUserId p) userId_ && notDeleted p) (posts w))
    /\ StronglySorted (inOrder (Validators.pgOrder pg)) listing
    /\ PostModel_getByUserId userId_ limit offset order w
       = (Returned (VPosts (take (Z.to_nat (Validators.pgLimit pg))
                              (drop (Z.to_nat (Validators.pgOffset pg)) listing))), w')
    /\ (exists item,
           cache w' !! cacheKeys_userPosts userId_
                         (Validators.pgOffset pg / Validators.pgLimit pg) = Some item
           /\ value item = VPosts (take (Z.to_nat (Validators.pgLimit pg))
                                     (drop (Z.to_nat (Validators.pgOffset pg)) listing)))
    /\ users w' = users w /\ posts w' = posts w
    /\ ((forall p, In p (posts w) -> postUserId p <> userId_) -> listing = []).
Proof.
  intros Hseed Hid Hpg _ Hdates Hstale.
  destruct (validatePagination_bounds _ _ _ _ Hpg) as (Hlim & Hoff & Hord).
  set (key := cacheKeys_userPosts userId_ (Validators.pgOffset pg / Validators.pgLimit pg))
    in *.
  set (o := mkFindPostsOptions (Some userId_) true (Some (Validators.pgOrder pg))
              (Some (Validators.pgLimit pg)) (Some (Validators.pgOffset pg))).
  assert (String.eqb userId_ "" = false) as Hne.
  { apply String.eqb_neq. intros ->. by vm_compute in Hid. }
  assert (List.filter (matchesOptions o) (posts w)
          = List.filter (fun p => String.eqb (postUserId p) userId_ && notDeleted p)
              (posts w)) as Hsel.
  { apply filter_ext. intros p. unfold matchesOptions, o. simpl. by rewrite Hne. }
  assert (users (afterMiss key w) = users w /\ posts (afterMiss key w) = posts w)
    as [Hu Hp].
  { unfold afterMiss. by destruct (cache w !! key). }
  exists (sortBy (compareCreatedAt (Validators.pgOrder pg))
            (List.filter (fun p => String.eqb (postUserId p) userId_ && notDeleted p)
               (posts w))).
  eexists. split; [apply sortBy_Permutation|]. split; [apply sortBy_sorted|].
  split; [|split; [|split; [|split]]]; cycle 1.
  5:{ unfold PostModel_getByUserId. rewrite Hid. cbn [negb].
      unfold bind at 1, liftOutcome. rewrite Hpg. fold key.
      rewrite (cacheAside_miss key _ w Hstale). unfold bind. fold o.
      rewrite (DB_findPosts_sorted_run o (Validators.pgOrder pg) (afterMiss key w));
        [|by rewrite Hu|done|by destruct Hord as [-> | ->]|by rewrite Hp].
      rewrite Hp, Hsel.
      change (default 0 (optOffset o)) with (Validators.pgOffset pg).
      change (default 20 (optLimit o)) with (Validators.pgLimit pg).
      rewrite jsSlice_window by lia. unfold ret, storeLoaded. reflexivity. }
  - eexists. split; [apply lookup_insert_eq|reflexivity].
  - by rewrite <- Hu.
  - by rewrite <- Hp.
  - intros Hnone.
    assert (List.filter (fun p => String.eqb (postUserId p) userId_ && notDeleted p)
              (posts w) = []) as ->; [|done].
    clear -Hnone. revert Hnone. generalize (posts w). intros l.
    induction l as [|p ps IH]; intros Hnone; [done|]. simpl.
    assert (String.eqb (postUserId p) userId_ = false) as ->.
    { apply String.eqb_neq. apply Hnone. by left. }
    simpl. apply IH. intros q Hq. apply Hnone. by right.
Qed.

(** *** The user directory after a registration *)

(** X22: a registration is visible in the directory at once.  After a
    [register] that returns, on a seeded store, the next [getAll] does
    not serve a list cached earlier: it reads the store and returns the
    public profiles of the users that were live before, in their order,
    followed by the profile of the new user, whose id is the one
    [register] returned and whose name is the trimmed display name. *)
Theorem register_then_getAll_lists_newcomer
    (e pw dn : string) (r : AuthResult) (w w1 : World) :
  users w <> [] ->
  register (JStr e) (JStr pw) (JStr dn) w = (Returned r, w1) ->
  exists newcomer w2,
    UserModel_getAll w1
    = (Returned (VProfiles
         (map toPublicProfile
            (List.filter (fun u => negb (timeTruthy (userDeletedAt u))) (users w))
          ++ [newcomer])), w2)
    /\ ppId newcomer = suId (arUser r)
    /\ ppDisplayName newcomer = JsStr.trim dn
    /\ users w2 = users w1 /\ posts w2 = posts w.
Proof.
  intros Hseed Hrun.
  destruct (Validators.validateRegistration (JStr e) (JStr pw) (JStr dn)) as [[]|err] eqn:Hv.
  2:{ unfold register, bind at 1, liftOutcome in Hrun. rewrite Hv in Hrun. discriminate. }
  rewrite (register_run e pw dn w Hseed Hv) in Hrun. cbv zeta in Hrun.
  destruct (List.find _ (users w)) as [x|]; [discriminate|].
  injection Hrun as <- <-.
  set (newUser := registeredUser e pw dn (uuid (idsDrawn w)) (clock (clockReads w))).
  set (w1 := setCache _ _).
  assert (cache w1 !! cacheKeys_allUsers = None) as Hgone.
  { unfold w1. world_fields. apply lookup_delete_eq. }
  assert (~ freshEntry cacheKeys_allUsers w1) as Hstale.
  { intros (item & Hitem & _). rewrite Hgone in Hitem. discriminate. }
  assert (users w1 = users w ++ [newUser]) as Hu by reflexivity.
  assert (posts w1 = posts w) as Hp by reflexivity.
  exists (toPublicProfile newUser). eexists. split; [|split; [reflexivity|split; [reflexivity|]]].
  - unfold UserModel_getAll. rewrite (cacheAside_miss _ _ w1 Hstale).
    unfold afterMiss. rewrite Hgone. unfold bind.
    rewrite DB_findAllUsers_seeded by (rewrite Hu; by destruct (users w)).
    rewrite Hu, List.filter_app, map_app. unfold ret, storeLoaded. reflexivity.
  - split; reflexivity.
Qed.

(** *** Ordered reads after a rollback *)

(** The filters of [DB.findPosts], as one test. *)
Lemma findPosts_selection (o : FindPostsOptions) (ps : list Post) :
  (if whereDeletedAtNull o
   then List.filter notDeleted
          match whereUserId o with
          | Some uid =>
              if String.eqb uid "" then ps
              else List.filter (fun p => String.eqb (postUserId p) uid) ps
          | None => ps
          end
   else match whereUserId o with
        | Some uid =>
            if String.eqb uid "" then ps
            else List.filter (fun p => String.eqb (postUserId p) uid) ps
        | None => ps
        end) = List.filter (matchesOptions o) ps.
Proof.
  unfold matchesOptions.
  destruct (whereUserId o) as [uid|]; [destruct (String.eqb uid "")|];
    destruct (whereDeletedAtNull o); simpl;
    rewrite ?filter_filter_andb; try done;
    try (by rewrite filter_all);
    apply filter_ext; intros p; by rewrite ?andb_true_r.
Qed.

(** With an order, and two or more selected posts none of which carries
    a [Date], the comparator throws. *)
Lemma DB_findPosts_no_dates (o : FindPostsOptions) (order : string) (w : World) :
  users w <> [] ->
  orderByCreatedAt o = Some order ->
  order <> "" ->
  Forall (fun p => isDate (postCreatedAt p) = false) (posts w) ->
  (2 <= List.length (List.filter (matchesOptions o) (posts w)))%nat ->
  DB_findPosts o w
  = (Thrown (ETypeError "a.createdAt.getTime is not a function"), addCall CallFindPosts w).
Proof.
  intros Hseed Horder Hne Hdates Hlen.
  unfold DB_findPosts, bind, modify, getWorld.
  rewrite initializeData_seeded by done. simpl. rewrite Horder.
  assert (String.eqb order "" = false) as -> by by apply String.eqb_neq.
  rewrite findPosts_selection.
  destruct (List.filter (matchesOptions o) (posts w)) as [|p l] eqn:Hsel;
    [simpl in Hlen; lia|].
  assert ((2 <=? Z.of_nat (List.length (p :: l))) = true) as ->.
  { apply Z.leb_le. simpl List.length in *. lia. }
  assert (isDate (postCreatedAt p) = false) as Hp.
  { rewrite List.Forall_forall in Hdates. apply Hdates.
    assert (In p (List.filter (matchesOptions o) (posts w))) as Hin
      by (rewrite Hsel; by left).
    by apply filter_In in Hin as [Hin _]. }
  cbn [existsb]. rewrite Hp. reflexivity.
Qed.

Lemma timeIsNull_jsonTime (t : JsTime) : timeIsNull (jsonTime t) = timeIsNull t.
Proof. by destruct t. Qed.

Lemma filter_map_jsonPost (f : Post -> bool) (ps : list Post) :
  (forall p, f (jsonPost p) = f p) ->
  List.filter f (map jsonPost ps) = map jsonPost (List.filter f ps).
Proof.
  intros Hf. induction ps as [|p ps IH]; [done|]. simpl. rewrite Hf.
  destruct (f p); simpl; by rewrite IH.
Qed.

(** No post of a rolled-back store carries a [Date]. *)
Lemma rolledBack_no_dates (w0 w : World) :
  rolledBack w0 w -> Forall (fun p => isDate (postCreatedAt p) = false) (posts w).
Proof.
  intros [_ ->]. apply List.Forall_forall. intros p Hp.
  apply in_map_iff in Hp as (q & <- & _). unfold jsonPost. simpl.
  by destruct (postCreatedAt q).
Qed.

Lemma rolledBack_selection (o : FindPostsOptions) (w0 w : World) :
  rolledBack w0 w ->
  List.length (List.filter (matchesOptions o) (posts w))
  = List.length (List.filter (matchesOptions o) (posts w0)).
Proof.
  intros [_ ->]. rewrite filter_map_jsonPost; [by rewrite length_map|].
  intros p. unfold matchesOptions, notDeleted, jsonPost. simpl.
  by rewrite timeIsNull_jsonTime.
Qed.

(** A write that throws inside its transaction leaves the JSON copies,
    and neither reads the clock, draws an id nor touches the cache. *)
Lemma failed_write_rolled_back (w w1 : World) :
  users w <> [] ->
  (exists userId_ c e,
      Validators.isValidId (JStr userId_) = true
      /\ Validators.validatePostContent c = Returned tt
      /\ PostModel_create userId_ c w = (Thrown e, w1))
  \/ (exists postId_ userId_ e,
         Validators.isValidId (JStr postId_) = true
         /\ Validators.isValidId (JStr userId_) = true
         /\ PostModel_deleteOwned postId_ userId_ w = (Thrown e, w1)) ->
  rolledBack w w1
  /\ clockReads w1 = clockReads w /\ idsDrawn w1 = idsDrawn w /\ cache w1 = cache w.
Proof.
  intros Hseed [(uid & c & e & Hid & Hc & Hrun)|(pid & uid & e & Hpid & Huid & Hrun)].
  - rewrite (PostModel_create_run uid c w Hseed Hid Hc) in Hrun.
    destruct (existsb _ (users w)); [discriminate|]. injection Hrun as _ <-.
    by repeat split.
  - revert Hrun. unfold PostModel_deleteOwned. rewrite Hpid, Huid. cbn [negb orb].
    unfold bind at 1.
    unfold DB_transaction, theTx. cbn [tx_findPostByIdForUpdate tx_softDeletePost].
    unfold bind, modify, tryCatch, getWorld, throwApp, throw.
    rewrite initializeData_seeded by done.
    rewrite DB_findPostById_seeded by done. cbn [users posts addCall].
    destruct (List.find (hasPostId pid) (posts w)) as [post|] eqn:Hfind.
    2:{ intros [= _ <-]. by repeat split. }
    destruct (timeTruthy (postDeletedAt post)).
    { intros [= _ <-]. by repeat split. }
    destruct (negb (String.eqb (postUserId post) uid)).
    { intros [= _ <-]. by repeat split. }
    destruct (DB_softDeletePost_seeded pid post
                (addCall (CallFindPostById pid) (addCall CallTransaction w)) Hseed Hfind)
      as (i & Hi & Hp & Hdel).
    rewrite Hdel. unfold ret, cache_delete, modify.
    rewrite deleteUserPostsPattern by done. rewrite deleteFeedPattern. discriminate.
Qed.

(** An ordered read whose selection holds two or more posts, on a miss,
    in a store where no post carries a [Date]. *)
Lemma ordered_read_no_dates (key : string) (o : FindPostsOptions) (order : string)
    (k : list Post -> M CVal) (w : World) :
  users w <> [] ->
  orderByCreatedAt o = Some order ->
  order <> "" ->
  Forall (fun p => isDate (postCreatedAt p) = false) (posts w) ->
  (2 <= List.length (List.filter (matchesOptions o) (posts w)))%nat ->
  ~ freshEntry key w ->
  exists w2,
    cacheAside key (ps <- DB_findPosts o ;; k ps) w
    = (Thrown (ETypeError "a.createdAt.getTime is not a function"), w2)
    /\ users w2 = users w /\ posts w2 = posts w /\ cache w2 !! key = None.
Proof.
  intros Hseed Horder Hne Hdates Hlen Hstale.
  assert (users (afterMiss key w) = users w /\ posts (afterMiss key w) = posts w
          /\ cache (afterMiss key w) !! key = None) as (Hu & Hp & Hc).
  { unfold afterMiss. destruct (cache w !! key) eqn:Hk; [|done].
    repeat split. world_fields. apply lookup_delete_eq. }
  eexists. split.
  - rewrite (cacheAside_miss key _ w Hstale). unfold bind.
    rewrite (DB_findPosts_no_dates o order (afterMiss key w));
      [|by rewrite Hu|done|done|by rewrite Hp|by rewrite Hp].
    unfold storeLoaded. reflexivity.
  - done.
Qed.

(** X23: one failed write takes the ordered reads down.  After a
    [create] or a [deleteOwned] that throws inside its transaction
    (valid ids and content, seeded store), a feed read that misses the
    cache throws a [TypeError] if the store held two or more live posts,
    and so does a read of the posts of a user who had two or more live
    posts, whatever the limit, the order and the offset, a safe
    integer.  Nothing is cached for the page and the posts stay as the
    rollback left them, so the same read fails again. *)
Theorem failed_write_disables_ordered_reads (w w1 : World) :
  users w <> [] ->
  (exists userId_ c e,
      Validators.isValidId (JStr userId_) = true
      /\ Validators.validatePostContent c = Returned tt
      /\ PostModel_create userId_ c w = (Thrown e, w1))
  \/ (exists postId_ userId_ e,
         Validators.isValidId (JStr postId_) = true
         /\ Validators.isValidId (JStr userId_) = true
         /\ PostModel_deleteOwned postId_ userId_ w = (Thrown e, w1)) ->
  (forall limit offset order pg,
      Validators.validatePagination limit offset order = Returned pg ->
      Validators.pgOffset pg <= MAX_SAFE_INTEGER ->
      (2 <= List.length (List.filter notDeleted (posts w)))%nat ->
      ~ freshEntry (cacheKeys_feed (Validators.pgOffset pg / Validators.pgLimit pg)) w1 ->
      exists w2,
        PostModel_getAllWithAuthors limit offset order w1
        = (Thrown (ETypeError "a.createdAt.getTime is not a function"), w2)
        /\ posts w2 = posts w1
        /\ cache w2 !! cacheKeys_feed (Validators.pgOffset pg / Validators.pgLimit pg) = None)
  /\ (forall userId_ limit offset order pg,
         Validators.isValidId (JStr userId_) = true ->
         Validators.validatePagination limit offset order = Returned pg ->
         Validators.pgOffset pg <= MAX_SAFE_INTEGER ->
         (2 <= List.length
                 (List.filter (fun p => String.eqb (postUserId p) userId_ && notDeleted p)
                    (posts w)))%nat ->
         ~ freshEntry (cacheKeys_userPosts userId_
                         (Validators.pgOffset pg / Validators.pgLimit pg)) w1 ->
         exists w2,
           PostModel_getByUserId userId_ limit offset order w1
           = (Thrown (ETypeError "a.createdAt.getTime is not a function"), w2)
           /\ posts w2 = posts w1
           /\ cache w2 !! cacheKeys_userPosts userId_
                            (Validators.pgOffset pg / Validators.pgLimit pg) = None).
Proof.
  intros Hseed Hfail.
  destruct (failed_write_rolled_back w w1 Hseed Hfail) as (Hrb & _).
  pose proof (rolledBack_no_dates w w1 Hrb) as Hdates.
  assert (users w1 <> []) as Hseed1.
  { destruct Hrb as [-> _]. by destruct (users w). }
  split.
  - intros limit offset order pg Hpg _ Hlen Hstale.
    destruct (validatePagination_bounds _ _ _ _ Hpg) as (_ & _ & Hord).
    set (o := mkFindPostsOptions None true (Some (Validators.pgOrder pg))
                (Some (Validators.pgLimit pg)) (Some (Validators.pgOffset pg))).
    destruct (ordered_read_no_dates
                (cacheKeys_feed (Validators.pgOffset pg / Validators.pgLimit pg)) o
                (Validators.pgOrder pg)
                (fun ps =>
                   postsWithAuthors <-
                     mapM (fun post =>
                             tryCatch
                               (author <- UserModel_getById (postUserId post) ;;
                                ret (Some (post, author)))
                               (fun _ => ret None))
                          ps ;;
                   ret (VFeed (omap id postsWithAuthors)))
                w1 Hseed1 eq_refl) as (w2 & Hrun & _ & Hp & Hc);
      [by destruct Hord as [-> | ->]|done| |done|].
    { rewrite (rolledBack_selection o w w1 Hrb).
      erewrite filter_ext; [exact Hlen|]. intros p. reflexivity. }
    exists w2. split; [|done].
    unfold PostModel_getAllWithAuthors, bind at 1, liftOutcome. rewrite Hpg. exact Hrun.
  - intros uid limit offset order pg Hid Hpg _ Hlen Hstale.
    destruct (validatePagination_bounds _ _ _ _ Hpg) as (_ & _ & Hord).
    assert (String.eqb uid "" = false) as Hne.
    { apply String.eqb_neq. intros ->. by vm_compute in Hid. }
    set (o := mkFindPostsOptions (Some uid) true (Some (Validators.pgOrder pg))
                (Some (Validators.pgLimit pg)) (Some (Validators.pgOffset pg))).
    destruct (ordered_read_no_dates
                (cacheKeys_userPosts uid (Validators.pgOffset pg / Validators.pgLimit pg)) o
                (Validators.pgOrder pg) (fun ps => ret (VPosts ps))
                w1 Hseed1 eq_refl) as (w2 & Hrun & _ & Hp & Hc);
      [by destruct Hord as [-> | ->]|done| |done|].
    { rewrite (rolledBack_selection o w w1 Hrb).
      erewrite filter_ext; [exact Hlen|]. intros p. unfold matchesOptions, o. simpl.
      by rewrite Hne. }
    exists w2. split; [|done].
    unfold PostModel_getByUserId. rewrite Hid. cbn [negb].
    unfold bind at 1, liftOutcome. rewrite Hpg. exact Hrun.
Qed.

(** *** Accounts after a rollback *)

Lemma find_matchesEmail_json (e : string) (us : list User) :
  List.find (matchesEmail e) (map jsonUser us)
  = option_map jsonUser (List.find (matchesEmail e) us).
Proof.
  induction us as [|u us IH]; [done|]. simpl.
  assert (matchesEmail e (jsonUser u) = matchesEmail e u) as ->.
  { unfold matchesEmail, jsonUser. simpl. by rewrite timeTruthy_jsonTime. }
  by destruct (matchesEmail e u).
Qed.

Lemma lockedAt_json (now : Z) (u : User) : lockedAt now (jsonUser u) = lockedAt now u.
Proof. unfold lockedAt, jsonUser. simpl. by destruct (lockedUntil u). Qed.

(** X24: a failed write does not change who can log in or register.
    After a [create] or a [deleteOwned] that throws inside its
    transaction (valid ids and content, seeded store), [authenticate]
    answers every input as it would have answered it before the write:
    the same session or the same error, so a lock in force stays in
    force although [lockedUntil] is now an ISO string.  [register] too
    answers as before: the same conflict, or the same new id and
    token. *)
Theorem failed_write_invisible_to_accounts (w w1 : World) :
  users w <> [] ->
  (exists userId_ c e,
      Validators.isValidId (JStr userId_) = true
      /\ Validators.validatePostContent c = Returned tt
      /\ PostModel_create userId_ c w = (Thrown e, w1))
  \/ (exists postId_ userId_ e,
         Validators.isValidId (JStr postId_) = true
         /\ Validators.isValidId (JStr userId_) = true
         /\ PostModel_deleteOwned postId_ userId_ w = (Thrown e, w1)) ->
  (forall email_ password,
      fst (authenticate email_ password w1) = fst (authenticate email_ password w))
  /\ (forall email_ password displayName_,
         fst (register email_ password displayName_ w1)
         = fst (register email_ password displayName_ w)).
Proof.
  intros Hseed Hfail.
  destruct (failed_write_rolled_back w w1 Hseed Hfail) as ([Hu Hp] & Hclock & Hids & _).
  assert (users w1 <> []) as Hseed1.
  { rewrite Hu. by destruct (users w). }
  split.
  - intros e pw.
    destruct (Validators.isValidEmail e) eqn:He.
    2:{ by rewrite !authenticate_invalid_input by by left. }
    destruct (Validators.isNonEmptyString pw) eqn:Hpw.
    2:{ by rewrite !authenticate_invalid_input by by right. }
    destruct e as [e|]; [|discriminate]. destruct pw as [pw|]; [|discriminate].
    rewrite !authenticate_outcome by done.
    rewrite Hu, find_matchesEmail_json, Hclock.
    destruct (List.find _ (users w)) as [u|]; [|reflexivity]. simpl option_map. cbv iota.
    rewrite lockedAt_json. reflexivity.
  - intros e pw dn.
    destruct (Validators.validateRegistration e pw dn) as [[]|err] eqn:Hv.
    2:{ unfold register, bind, liftOutcome. by rewrite Hv. }
    destruct e as [e|], pw as [pw|], dn as [dn|];
      try (unfold register, bind, liftOutcome; rewrite Hv; reflexivity).
    rewrite !register_run by done. cbv zeta.
    rewrite Hu, find_matchesEmail_json, Hclock, Hids.
    destruct (List.find _ (users w)) as [u|]; reflexivity.
Qed.

(** *** The feed on a miss *)

Lemma profilesCoherent_frame (w w' : World) :
  users w' = users w ->
  (forall k item, cache w' !! k = Some item -> cache w !! k = Some item) ->
  profilesCoherent w -> profilesCoherent w'.
Proof.
  intros Hu Hc Hw id item Hitem Hid. rewrite Hu. by apply Hw; [apply Hc|].
Qed.

Lemma profilesCoherent_afterMiss (key : string) (w : World) :
  profilesCoherent w -> profilesCoherent (afterMiss key w).
Proof.
  apply profilesCoherent_frame; unfold afterMiss; destruct (cache w !! key) eqn:Hk;
    try done.
  intros k item. world_fields. intros H. by apply lookup_delete_Some in H as [_ H].
Qed.

Lemma find_same_test {A} (f g : A -> bool) (l : list A) :
  (forall x, f x = g x) -> List.find f l = List.find g l.
Proof.
  intros Hfg. induction l as [|a l IH]; [done|]. simpl. by rewrite Hfg, IH.
Qed.

Lemma cacheKeys_user_inj (id id' : string) :
  cacheKeys_user id = cacheKeys_user id' -> id = id'.
Proof. unfold cacheKeys_user. intros H. by simplify_eq/=. Qed.

(** [UserModel.getById] on a store whose cached profiles are coherent:
    the author the store gives, or an error where it gives none. *)
Lemma UserModel_getById_coherent (id : string) (w : World) :
  users w <> [] ->
  profilesCoherent w ->
  exists w',
    users w' = users w /\ posts w' = posts w /\ profilesCoherent w'
    /\ match authorOf (users w) id with
       | Some a => UserModel_getById id w = (Returned a, w')
       | None => UserModel_getById id w = (Thrown (authorError id), w')
       end.
Proof.
  intros Hseed Hcoh. unfold UserModel_getById.
  destruct (Validators.isValidId (JStr id)) eqn:Hid; cbn [negb].
  2:{ exists w. unfold authorOf, authorError. rewrite Hid. by repeat split. }
  set (key := cacheKeys_user id).
  destruct (cache w !! key) as [item|] eqn:Hk.
  - destruct (Z_le_gt_dec (clock (clockReads w)) (expiresAt item)) as [Hfresh|Hold].
    + exists (tickClock w).
      split; [done|split; [done|split; [by apply (profilesCoherent_frame w)|]]].
      rewrite (Hcoh id item Hk Hid). by apply cacheAside_hit.
    + assert (~ freshEntry key w) as Hstale.
      { intros (item' & Hitem' & Hle). rewrite Hk in Hitem'. injection Hitem' as <-. lia. }
      rewrite (cacheAside_miss key _ w Hstale).
      pose proof (profilesCoherent_afterMiss key w Hcoh) as Hcoh'.
      assert (users (afterMiss key w) = users w /\ posts (afterMiss key w) = posts w)
        as [Hu Hp] by (unfold afterMiss; by rewrite Hk).
      revert Hcoh' Hu Hp. generalize (afterMiss key w). intros wm Hcoh' Hu Hp.
      unfold bind. rewrite DB_findUserById_seeded by by rewrite Hu.
      erewrite (find_same_test _ (liveWithId id)).
      2:{ intros u. unfold liveWithId. destruct (hasUserId id u); simpl; [|done].
          by destruct (timeIsNull (userDeletedAt u)). }
      unfold authorOf. rewrite Hid, Hu.
      destruct (List.find (liveWithId id) (users w)) as [u|] eqn:Hfind; cbn [option_map].
      * eexists. split; [|split; [|split; [|unfold ret, storeLoaded; reflexivity]]];
          [by rewrite <- Hu|by rewrite <- Hp|].
        intros id' item' Hitem' Hid'. world_fields.
        revert Hitem'. world_fields. intros Hitem'.
        destruct (decide (cacheKeys_user id' = key)) as [Heq|Hne].
        -- apply cacheKeys_user_inj in Heq as ->. fold key in Hitem'.
           rewrite lookup_insert_eq in Hitem'. injection Hitem' as <-.
           unfold authorOf. rewrite Hid, Hu, Hfind. reflexivity.
        -- rewrite lookup_insert_ne in Hitem' by done.
           by apply (Hcoh' id' item').
      * eexists. split; [|split; [|split; [|unfold throwApp, throw, storeLoaded, authorError;
                                              rewrite Hid; reflexivity]]];
          [by rewrite <- Hu|by rewrite <- Hp|].
        by apply (profilesCoherent_frame wm).
  - assert (~ freshEntry key w) as Hstale.
    { intros (item' & Hitem' & _). by rewrite Hk in Hitem'. }
    rewrite (cacheAside_miss key _ w Hstale).
    assert (afterMiss key w = w) as -> by (unfold afterMiss; by rewrite Hk).
    unfold bind. rewrite DB_findUserById_seeded by done.
    erewrite (find_same_test _ (liveWithId id)).
    2:{ intros u. unfold liveWithId. destruct (hasUserId id u); simpl; [|done].
        by destruct (timeIsNull (userDeletedAt u)). }
    unfold authorOf. rewrite Hid.
    destruct (List.find (liveWithId id) (users w)) as [u|] eqn:Hfind; cbn [option_map].
    * eexists. split; [|split; [|split; [|unfold ret, storeLoaded; reflexivity]]];
        [done|done|].
      intros id' item' Hitem' Hid'. world_fields.
      revert Hitem'. world_fields. intros Hitem'.
      destruct (decide (cacheKeys_user id' = key)) as [Heq|Hne].
      -- apply cacheKeys_user_inj in Heq as ->. fold key in Hitem'.
         rewrite lookup_insert_eq in Hitem'. injection Hitem' as <-.
         unfold authorOf. rewrite Hid, Hfind. reflexivity.
      -- rewrite lookup_insert_ne in Hitem' by done.
         by apply (Hcoh id' item').
    * eexists. split; [|split; [|split; [|unfold throwApp, throw, storeLoaded, authorError;
                                            rewrite Hid; reflexivity]]];
        [done|done|].
      by apply (profilesCoherent_frame w).
Qed.

Lemma mapM_cons_run {A B} (f : A -> M B) (a : A) (l : list A) (b : B) (bs : list B)
    (w w1 w2 : World) :
  f a w = (Returned b, w1) ->
  mapM f l w1 = (Returned bs, w2) ->
  mapM f (a :: l) w = (Returned (b :: bs), w2).
Proof. intros Ha Hl. simpl. unfold bind. by rewrite Ha, Hl. Qed.

(** The author look-ups of the feed, on coherent cached profiles. *)
Lemma feed_authors_run (ps : list Post) (w : World) :
  users w <> [] ->
  profilesCoherent w ->
  exists w',
    mapM (fun post =>
            tryCatch
              (author <- UserModel_getById (postUserId post) ;;
               ret (Some (post, author)))
              (fun _ => ret None))
         ps w
    = (Returned (map (withAuthor (users w)) ps), w')
    /\ users w' = users w /\ posts w' = posts w /\ profilesCoherent w'.
Proof.
  revert w. induction ps as [|p ps IH]; intros w Hseed Hcoh.
  - exists w. by repeat split.
  - destruct (UserModel_getById_coherent (postUserId p) w Hseed Hcoh)
      as (w1 & Hu1 & Hp1 & Hcoh1 & Hrun).
    destruct (IH w1) as (w2 & Hrest & Hu2 & Hp2 & Hcoh2); [by rewrite Hu1|done|].
    exists w2. split; [|by rewrite Hu2, Hp2].
    rewrite Hu1 in Hrest.
    eapply mapM_cons_run; [|exact Hrest].
    unfold tryCatch, bind, ret, withAuthor.
    destruct (authorOf (users w) (postUserId p)) as [a|].
    + by rewrite Hrun.
    + by rewrite Hrun.
Qed.

Lemma In_window {A} (n k : nat) (x : A) (l : list A) :
  In x (take n (drop k l)) -> In x l.
Proof.
  intros H. apply list_elem_of_In in H. apply list_elem_of_In.
  by eapply subseteq_drop, subseteq_take.
Qed.

Lemma omap_id_map {A B} (f : A -> option B) (l : list A) : omap id (map f l) = omap f l.
Proof.
  induction l as [|a l IH]; [done|]. cbn [map]. change (omap id (f a :: map f l))
    with (match f a with Some y => y :: omap id (map f l) | None => omap id (map f l) end).
  rewrite IH. reflexivity.
Qed.

Lemma withAuthor_all (us : list User) (l : list Post) :
  Forall (fun p => authorOf us (postUserId p) <> None) l ->
  map fst (omap (withAuthor us) l) = l.
Proof.
  induction 1 as [|p l Hp _ IH]; [done|]. cbn [omap list_omap]. unfold withAuthor at 1.
  destruct (authorOf us (postUserId p)); [|done]. simpl. by rewrite IH.
Qed.

(** X25: the feed on a miss.  With valid pagination whose offset is a
    safe integer, on a seeded store whose posts all carry a [Date] and
    whose cached profiles are coherent, and with no unexpired entry
    under the page's key,
    [getAllWithAuthors] takes the window [offset, offset + limit) of the
    live posts ordered by [createdAt], pairs every post of the window
    with what the store gives for its author, and drops the posts whose
    author has a malformed id or no live record: the page can hold fewer
    than [limit] posts although more exist.  The result is cached under
    the page's key; users and posts are untouched and the cached
    profiles stay coherent.  If every live post has an author, the feed
    lists exactly the window. *)
Theorem feed_pairs_window_with_authors
    (limit offset : JsNum) (order : option JsVal)
    (pg : Validators.Pagination) (w : World) :
  users w <> [] ->
  Validators.validatePagination limit offset order = Returned pg ->
  Validators.pgOffset pg <= MAX_SAFE_INTEGER ->
  Forall (fun p => isDate (postCreatedAt p) = true) (posts w) ->
  profilesCoherent w ->
  ~ freshEntry (cacheKeys_feed (Validators.pgOffset pg / Validators.pgLimit pg)) w ->
  exists listing w',
    let window := take (Z.to_nat (Validators.pgLimit pg))
                    (drop (Z.to_nat (Validators.pgOffset pg)) listing) in
    let feed := omap (withAuthor (users w)) window in
    Permutation listing (List.filter notDeleted (posts w))
    /\ StronglySorted (inOrder (Validators.pgOrder pg)) listing
    /\ PostModel_getAllWithAuthors limit offset order w = (Returned (VFeed feed), w')
    /\ (exists item,
           cache w' !! cacheKeys_feed (Validators.pgOffset pg / Validators.pgLimit pg)
           = Some item
           /\ value item = VFeed feed)
    /\ users w' = users w /\ posts w' = posts w
    /\ profilesCoherent w'
    /\ (Forall (fun p => notDeleted p = true -> authorOf (users w) (postUserId p) <> None)
          (posts w) ->
        map fst feed = window).
Proof.
  intros Hseed Hpg _ Hdates Hcoh Hstale.
  destruct (validatePagination_bounds _ _ _ _ Hpg) as (Hlim & Hoff & Hord).
  set (key := cacheKeys_feed (Validators.pgOffset pg / Validators.pgLimit pg)) in *.
  set (o := mkFindPostsOptions None true (Some (Validators.pgOrder pg))
              (Some (Validators.pgLimit pg)) (Some (Validators.pgOffset pg))).
  set (listing := sortBy (compareCreatedAt (Validators.pgOrder pg))
                    (List.filter notDeleted (posts w))).
  set (window := take (Z.to_nat (Validators.pgLimit pg))
                   (drop (Z.to_nat (Validators.pgOffset pg)) listing)).
  assert (users (afterMiss key w) = users w /\ posts (afterMiss key w) = posts w)
    as [Hu Hp].
  { unfold afterMiss. by destruct (cache w !! key). }
  pose proof (profilesCoherent_afterMiss key w Hcoh) as Hcoh1.
  destruct (feed_authors_run window (addCall CallFindPosts (afterMiss key w)))
    as (w2 & Hauthors & Hu2 & Hp2 & Hcoh2);
    [by rewrite <- Hu in Hseed|by apply (profilesCoherent_frame (afterMiss key w))|].
  change (users (addCall CallFindPosts (afterMiss key w))) with (users (afterMiss key w))
    in Hauthors, Hu2.
  change (posts (addCall CallFindPosts (afterMiss key w))) with (posts (afterMiss key w))
    in Hp2.
  rewrite Hu in Hauthors, Hu2. rewrite Hp in Hp2.
  assert (PostModel_getAllWithAuthors limit offset order w
          = storeLoaded key (Returned (VFeed (omap (withAuthor (users w)) window)), w2))
    as Hrun.
  { unfold PostModel_getAllWithAuthors, bind at 1, liftOutcome. rewrite Hpg. fold key.
    rewrite (cacheAside_miss key _ w Hstale). f_equal. unfold bind at 1. fold o.
    rewrite (DB_findPosts_sorted_run o (Validators.pgOrder pg) (afterMiss key w));
      [|by rewrite Hu|done|by destruct Hord as [-> | ->]|by rewrite Hp].
    rewrite Hp.
    assert (List.filter (matchesOptions o) (posts w) = List.filter notDeleted (posts w))
      as -> by (apply filter_ext; intros p; reflexivity).
    change (default 0 (optOffset o)) with (Validators.pgOffset pg).
    change (default 20 (optLimit o)) with (Validators.pgLimit pg).
    rewrite jsSlice_window by lia. fold listing window. cbv beta iota.
    unfold bind at 1. rewrite Hauthors. unfold ret. by rewrite omap_id_map. }
  exists listing. eexists. cbv zeta. fold window.
  split; [apply sortBy_Permutation|]. split; [apply sortBy_sorted|].
  split; [rewrite Hrun; unfold storeLoaded; reflexivity|].
  split; [eexists; split; [apply lookup_insert_eq|reflexivity]|].
  split; [done|]. split; [done|]. split.
  - intros id item. world_fields. intros Hitem Hid.
    destruct (decide (cacheKeys_user id = key)) as [Heq|Hne].
    + exfalso. unfold cacheKeys_user, key, cacheKeys_feed in Heq. discriminate.
    + rewrite lookup_insert_ne in Hitem by done. by apply Hcoh2.
  - intros Hall. apply withAuthor_all. apply List.Forall_forall. intros p Hin.
    apply In_window in Hin.
    assert (In p (List.filter notDeleted (posts w))) as Hlive.
    { eapply Permutation_in; [apply sortBy_Permutation|exact Hin]. }
    apply filter_In in Hlive as [Hp' Hlive].
    rewrite List.Forall_forall in Hall. by apply Hall.
Qed.

(** *** One post on a miss *)

(** X26: [PostModel.getById] on a miss.  For a well-formed id with no
    unexpired entry under the post's key, on a seeded store whose cached
    profiles are coherent: an id that no post has, or whose first post
    is deleted, gets [NotFound] for the post; a live post whose author
    the store cannot give gets the error of the author look-up
    ([Validation] for a malformed author id, [NotFound] for the user
    otherwise); any other post is returned with its author and cached
    under its key. *)
Theorem getById_returns_live_post_with_author (postId_ : string) (w : World) :
  users w <> [] ->
  profilesCoherent w ->
  Validators.isValidId (JStr postId_) = true ->
  ~ freshEntry (cacheKeys_post postId_) w ->
  (List.find (hasPostId postId_) (posts w) = None
   \/ (exists post, List.find (hasPostId postId_) (posts w) = Some post
                    /\ postDeletedAt post <> TNull) ->
   exists w', PostModel_getById postId_ w = (Thrown (EApp (NotFoundError "Post")), w'))
  /\ (forall post,
         List.find (hasPostId postId_) (posts w) = Some post ->
         postDeletedAt post = TNull ->
         match authorOf (users w) (postUserId post) with
         | Some author =>
             exists w',
               PostModel_getById postId_ w = (Returned (VPostWithAuthor post author), w')
               /\ (exists item,
                      cache w' !! cacheKeys_post postId_ = Some item
                      /\ value item = VPostWithAuthor post author)
               /\ users w' = users w /\ posts w' = posts w
         | None =>
             exists w',
               PostModel_getById postId_ w = (Thrown (authorError (postUserId post)), w')
         end).
Proof.
  intros Hseed Hcoh Hid Hstale.
  set (key := cacheKeys_post postId_) in *.
  assert (users (afterMiss key w) = users w /\ posts (afterMiss key w) = posts w)
    as [Hu Hp].
  { unfold afterMiss. by destruct (cache w !! key). }
  assert (PostModel_getById postId_ w
          = storeLoaded key
              (match List.find (hasPostId postId_) (posts w) with
               | None => (Thrown (EApp (NotFoundError "Post")),
                          addCall (CallFindPostById postId_) (afterMiss key w))
               | Some post =>
                   if timeTruthy (postDeletedAt post)
                   then (Thrown (EApp (NotFoundError "Post")),
                         addCall (CallFindPostById postId_) (afterMiss key w))
                   else (author <- UserModel_getById (postUserId post) ;;
                         ret (VPostWithAuthor post author))
                          (addCall (CallFindPostById postId_) (afterMiss key w))
               end)) as Hrun.
  { unfold PostModel_getById. rewrite Hid. cbn [negb]. fold key.
    rewrite (cacheAside_miss key _ w Hstale). f_equal. unfold bind at 1.
    rewrite DB_findPostById_seeded by by rewrite Hu. rewrite Hp.
    destruct (List.find _ (posts w)) as [post|]; [|reflexivity].
    by destruct (timeTruthy (postDeletedAt post)). }
  split.
  - intros [Hnone|(post & Hfind & Hdel)]; rewrite Hrun.
    + rewrite Hnone. by eexists.
    + rewrite Hfind. destruct (postDeletedAt post); [done|by eexists..].
  - intros post Hfind Hlive. rewrite Hrun, Hfind, Hlive. cbn [timeTruthy].
    set (wa := addCall (CallFindPostById postId_) (afterMiss key w)).
    destruct (UserModel_getById_coherent (postUserId post) wa)
      as (w1 & Hu1 & Hp1 & _ & Hauthor);
      [by rewrite <- Hu in Hseed
      |apply (profilesCoherent_frame (afterMiss key w)); [done|done|];
       by apply profilesCoherent_afterMiss|].
    change (users wa) with (users (afterMiss key w)) in Hauthor, Hu1.
    change (posts wa) with (posts (afterMiss key w)) in Hp1.
    rewrite Hu in Hauthor, Hu1. rewrite Hp in Hp1.
    destruct (authorOf (users w) (postUserId post)) as [a|].
    + eexists. unfold bind. rewrite Hauthor. unfold ret, storeLoaded.
      split; [reflexivity|]. split; [eexists; split; [apply lookup_insert_eq|done]|].
      by split.
    + eexists. unfold bind. rewrite Hauthor. unfold storeLoaded. reflexivity.
Qed.



End Backend.

(** ** Closed instances

    The theorems applied to the data of [Demo], with the default
    configuration. *)

Ltac concrete :=
  first [ vm_compute; reflexivity
        | vm_compute; discriminate
        | apply (bool_decide_unpack _); vm_compute; exact I ].


Lemma unknown_email_same_as_wrong_password_witness :
  fst (authenticate Demo.clock Demo.uuid Demo.bcryptCompare Demo.bcryptHash Demo.jwtSign
         Env.default (JStr "nobody@example.com") (JStr "guess") Demo.world)
  = fst (authenticate Demo.clock Demo.uuid Demo.bcryptCompare Demo.bcryptHash Demo.jwtSign
           Env.default (JStr "alice@example.com") (JStr "guess") Demo.world)
  /\ fst (authenticate Demo.clock Demo.uuid Demo.bcryptCompare Demo.bcryptHash Demo.jwtSign
            Env.default (JStr "nobody@example.com") (JStr "guess") Demo.world)
     = Thrown (EApp (mkAppError CInvalidCredentialsError "Invalid email or password"
                       "INVALID_CREDENTIALS" 401 true)).
Proof.
  apply (unknown_email_same_as_wrong_password Demo.clock Demo.uuid Demo.bcryptCompare
           Demo.bcryptHash Demo.jwtSign Env.default
           "nobody@example.com" "alice@example.com" "guess" Demo.alice Demo.world Demo.world);
    concrete.
Defined.

(** C2 as stated fails on a locked account: with the same wrong
    password the unknown address is answered with [InvalidCredentials]
    and Alice's address, whose record is ACTIVE, with [AccountLocked]. *)
Lemma locked_account_reveals_existing_email :
  List.find (matchesEmail "nobody@example.com") (users Demo.lockedWorld) = None
  /\ List.find (matchesEmail "alice@example.com") (users Demo.lockedWorld)
     = Some Demo.aliceLocked
  /\ status Demo.aliceLocked = "ACTIVE"
  /\ Demo.bcryptCompare "guess" (passwordHash Demo.aliceLocked) = false
  /\ fst (authenticate Demo.clock Demo.uuid Demo.bcryptCompare Demo.bcryptHash Demo.jwtSign
            Env.default (JStr "nobody@example.com") (JStr "guess") Demo.lockedWorld)
     = Thrown (EApp InvalidCredentialsError_default)
  /\ fst (authenticate Demo.clock Demo.uuid Demo.bcryptCompare Demo.bcryptHash Demo.jwtSign
            Env.default (JStr "alice@example.com") (JStr "guess") Demo.lockedWorld)
     = Thrown (EApp AccountLockedError_default)
  /\ fst (authenticate Demo.clock Demo.uuid Demo.bcryptCompare Demo.bcryptHash Demo.jwtSign
            Env.default (JStr "nobody@example.com") (JStr "guess") Demo.lockedWorld)
     <> fst (authenticate Demo.clock Demo.uuid Demo.bcryptCompare Demo.bcryptHash Demo.jwtSign
               Env.default (JStr "alice@example.com") (JStr "guess") Demo.lockedWorld).
Proof. repeat split; concrete. Qed.


Lemma writes_invalidate_cache_keys_witness :
  cache
    (snd (PostModel_create Demo.clock Demo.uuid Demo.bcryptHash Demo.aliceId
            (JStr "hello") Demo.feedCachedWorld))
    !! "posts:feed:page:0" = None.
Proof.
  eapply (proj1 (writes_invalidate_cache_keys Demo.clock Demo.uuid Demo.bcryptHash
                   Demo.jwtSign Demo.encodeURIComponent)
            Demo.aliceId (JStr "hello") Demo.feedCachedWorld).
  - vm_compute. reflexivity.
  - left. by exists "page:0".
Defined.

Lemma deleteOwned_authorization_and_soft_delete_witness :
  let w :=
    snd (runReads Demo.clock Demo.uuid Demo.bcryptHash Env.default
           [ReadFeed NUndefined NUndefined None; ReadPost Demo.post1Id;
            ReadUserPosts Demo.aliceId NUndefined NUndefined None]
           Demo.world) in
  (exists item, cache w !! "posts:feed:page:0" = Some item
                /\ mentions Demo.post1Id (value item))
  /\ exists w',
       PostModel_deleteOwned Demo.clock Demo.uuid Demo.bcryptHash Demo.post1Id Demo.aliceId w
       = (Returned true, w')
       /\ forall rs,
            Forall (fun o => forall v, o = Returned v -> ~ mentions Demo.post1Id v)
              (fst (runReads Demo.clock Demo.uuid Demo.bcryptHash Env.default rs w')).
Proof.
  intros w. split.
  { eexists. split; [vm_compute; reflexivity|]. right. left. reflexivity. }
  assert (CacheCoherent w) as Hcoh.
  { unfold w. apply CacheCoherent_runReads; [concrete|by apply CacheCoherent_empty]. }
  destruct (deleteOwned_authorization_and_soft_delete Demo.clock Demo.uuid Demo.bcryptCompare
              Demo.bcryptHash Demo.jwtSign Demo.encodeURIComponent Env.default
              Demo.post1Id Demo.aliceId w) as (_ & _ & _ & Hown);
    [concrete|concrete|concrete|].
  destruct (Hown Demo.post1) as (w' & Hrun & _ & _ & _ & Hreads);
    [concrete|concrete|concrete|concrete|exact Hcoh|].
  exists w'. split; [exact Hrun|exact Hreads].
Defined.

(** C5 as stated fails on an id that is not a UUID: no post has the id,
    yet the call throws a [ValidationError], status 400, before the
    store is asked, and not [NotFound]. *)
Lemma deleteOwned_malformed_id_is_refused_as_invalid :
  List.find (hasPostId "no-such-post") (posts Demo.world) = None
  /\ Validators.isValidId (JStr "no-such-post") = false
  /\ PostModel_deleteOwned Demo.clock Demo.uuid Demo.bcryptHash
       "no-such-post" Demo.aliceId Demo.world
     = (Thrown (EApp (mkAppError CValidationError "Invalid post or user ID"
                        "VALIDATION_ERROR" 400 true)), Demo.world)
  /\ fst (PostModel_deleteOwned Demo.clock Demo.uuid Demo.bcryptHash
            "no-such-post" Demo.aliceId Demo.world)
     <> Thrown (EApp (NotFoundError "Post")).
Proof. repeat split; concrete. Qed.

Lemma invalid_login_input_rejected_before_lookup_witness :
  authenticate Demo.clock Demo.uuid Demo.bcryptCompare Demo.bcryptHash Demo.jwtSign
    Env.default (JStr "not-an-email") (JStr "password1") Demo.world
  = (Thrown (EApp (mkAppError CValidationError "Invalid email or password"
                     "VALIDATION_ERROR" 400 true)), Demo.world)
  /\ dbLog (snd (authenticate Demo.clock Demo.uuid Demo.bcryptCompare Demo.bcryptHash
                   Demo.jwtSign Env.default (JStr "not-an-email") (JStr "password1")
                   Demo.world))
     = dbLog Demo.world
  /\ fst (authenticate Demo.clock Demo.uuid Demo.bcryptCompare Demo.bcryptHash Demo.jwtSign
            Env.default (JStr "not-an-email") (JStr "password1") Demo.world)
     <> Thrown (EApp InvalidCredentialsError_default).
Proof.
  apply (invalid_login_input_rejected_before_lookup Demo.clock Demo.uuid Demo.bcryptCompare
           Demo.bcryptHash Demo.jwtSign Env.default).
  left. concrete.
Defined.

Lemma validatePagination_accepts_in_range_only_witness :
  Validators.validatePagination (NInt 50) (NInt 40) (Some (JStr "asc"))
  = Returned (Validators.mkPagination 50 40 "ASC").
Proof.
  apply (proj1 (validatePagination_accepts_in_range_only
                  (NInt 50) (NInt 40) (Some (JStr "asc")))).
  concrete.
Defined.

(** C8 as stated fails on a limit above the range: 150 is not clamped
    to 100, the call throws. *)
Lemma limit_above_range_is_refused :
  Validators.clamp 150 1 100 = 100
  /\ Validators.validatePagination (NInt 150) NUndefined None
     = Thrown (EApp (ValidationError "Limit must be an integer between 1 and 100"))
  /\ ~ (exists pg, Validators.validatePagination (NInt 150) NUndefined None = Returned pg
                   /\ Validators.pgLimit pg = 100).
Proof.
  split; [concrete|]. split; [concrete|].
  intros (pg & Hpg & _). vm_compute in Hpg. discriminate.
Qed.

Lemma locked_attempt_leaves_record_unchanged_witness :
  exists w',
    authenticate Demo.clock Demo.uuid Demo.bcryptCompare Demo.bcryptHash Demo.jwtSign
      Env.default (JStr "alice@example.com") (JStr "password123") Demo.lockedWorld
    = (Thrown (EApp AccountLockedError_default), w')
    /\ users w' = users Demo.lockedWorld.
Proof.
  destruct (locked_attempt_leaves_record_unchanged Demo.clock Demo.uuid Demo.bcryptCompare
              Demo.bcryptHash Demo.jwtSign Env.default
              "alice@example.com" "password123" Demo.aliceLocked Demo.lockedWorld)
    as (w' & Hrun & Husers & _); [concrete|concrete|concrete|concrete|concrete|].
  exists w'. split; [exact Hrun|exact Husers].
Defined.

(** ** Closed instances of the further properties *)

Lemma isValidEmail_shape_witness :
  count_occ ascii_dec (JsStr.chars "alice@example.com") "@"%char = 1%nat
  /\ Forall (fun c => JsStr.is_space c = false) (JsStr.chars "alice@example.com").
Proof.
  apply (proj2 (isValidEmail_shape "alice@example.com")). concrete.
Defined.

Lemma isValidId_shape_witness : String.length Demo.aliceId = 36%nat.
Proof.
  apply (proj2 (isValidId_shape Demo.aliceId)). concrete.
Defined.

Lemma deletePattern_removes_keys_containing_witness :
  exists w',
    cache_deletePattern "user:*" Demo.busyWorld = (Returned tt, w')
    /\ cache w' !! ("posts:user:" +:+ Demo.bobId +:+ ":page:0") = None
    /\ cache w' !! ("user:" +:+ Demo.bobId) = None
    /\ cache w' !! "users:all" = cache Demo.busyWorld !! "users:all".
Proof.
  destruct (deletePattern_removes_keys_containing "user:*" (JsStr.chars "user:")
              Demo.busyWorld) as (w' & Hrun & _ & _ & _ & Hgone & Hkept);
    [reflexivity|repeat constructor|].
  exists w'. split; [exact Hrun|]. split; [|split].
  - apply Hgone. exists (JsStr.chars "posts:"), (JsStr.chars (Demo.bobId +:+ ":page:0")).
    reflexivity.
  - apply Hgone. exists [], (JsStr.chars Demo.bobId). reflexivity.
  - apply Hkept. intros H. apply containsL_occursInL in H. cbn in H.
    repeat (destruct H as [H|H]; [intuition discriminate|]). exact H.
Defined.
Lemma post_writes_keep_unrelated_cache_entries_witness :
  let w' := snd (PostModel_create Demo.clock Demo.uuid Demo.bcryptHash Demo.aliceId
                   (JStr "hello") Demo.busyWorld) in
  cache w' !! ("posts:user:" +:+ Demo.bobId +:+ ":page:0")
  = cache Demo.busyWorld !! ("posts:user:" +:+ Demo.bobId +:+ ":page:0")
  /\ cache w' !! "users:all" = cache Demo.busyWorld !! "users:all".
Proof.
  cbv zeta. split.
  - eapply (proj1 (post_writes_keep_unrelated_cache_entries Demo.clock Demo.uuid
                     Demo.bcryptHash)
              Demo.aliceId (JStr "hello") Demo.busyWorld).
    + concrete.
    + vm_compute. reflexivity.
    + right. right. right. exists Demo.bobId, 0. split; [concrete|]. split; [concrete|].
      reflexivity.
  - eapply (proj1 (post_writes_keep_unrelated_cache_entries Demo.clock Demo.uuid
                     Demo.bcryptHash)
              Demo.aliceId (JStr "hello") Demo.busyWorld).
    + concrete.
    + vm_compute. reflexivity.
    + right. left. reflexivity.
Defined.

Lemma DB_findPosts_window_of_ordered_listing_witness :
  exists listing,
    StronglySorted (inOrder "DESC") listing
    /\ DB_findPosts Demo.clock Demo.uuid Demo.bcryptHash
         (mkFindPostsOptions None true (Some "DESC") (Some 1) (Some 1)) Demo.world
       = (Returned (take 1 (drop 1 listing)), addCall CallFindPosts Demo.world).
Proof.
  destruct (DB_findPosts_window_of_ordered_listing Demo.clock Demo.uuid Demo.bcryptHash
              (mkFindPostsOptions None true (Some "DESC") (Some 1) (Some 1)) "DESC"
              Demo.world) as (listing & _ & Hsorted & Hrun);
    [concrete|reflexivity|concrete|repeat constructor|simpl; lia|simpl; lia|].
  exists listing. split; [exact Hsorted|exact Hrun].
Defined.

Lemma successful_login_clears_failures_witness :
  exists w',
    authenticate Demo.clock Demo.uuid Demo.bcryptCompare Demo.bcryptHash Demo.jwtSign
      Env.default (JStr "alice@example.com") (JStr "password123") Demo.expiredWorld
    = (Returned (mkAuthResult (toSafeUser Demo.aliceExpired)
                   (generateToken Demo.jwtSign Demo.aliceId "alice@example.com")), w')
    /\ List.find (matchesEmail "alice@example.com") (users w') = Some Demo.alice.
Proof.
  destruct (successful_login_clears_failures Demo.clock Demo.uuid Demo.bcryptCompare
              Demo.bcryptHash Demo.jwtSign Demo.encodeURIComponent Env.default
              "alice@example.com" "password123" Demo.aliceExpired Demo.expiredWorld)
    as (w' & Hrun & Hfind & _);
    [concrete|concrete|concrete|concrete|concrete|concrete|concrete|].
  exists w'. split; [exact Hrun|exact Hfind].
Defined.

Lemma email_case_is_ignored_witness :
  authenticate Demo.clock Demo.uuid Demo.bcryptCompare Demo.bcryptHash Demo.jwtSign
    Env.default (JStr "Alice@Example.COM") (JStr "password123") Demo.world
  = authenticate Demo.clock Demo.uuid Demo.bcryptCompare Demo.bcryptHash Demo.jwtSign
      Env.default (JStr "alice@example.com") (JStr "password123") Demo.world.
Proof.
  apply (proj1 (email_case_is_ignored Demo.clock Demo.uuid Demo.bcryptCompare
                  Demo.bcryptHash Demo.jwtSign Demo.encodeURIComponent Env.default
                  "Alice@Example.COM" "alice@example.com"
                  (JStr "password123") JOther Demo.world eq_refl)).
Defined.

Lemma register_outcome_witness :
  (exists w',
      register Demo.clock Demo.uuid Demo.bcryptHash Demo.jwtSign Demo.encodeURIComponent
        (JStr "ALICE@example.com") (JStr "password123") (JStr "Alice") Demo.world
      = (Thrown (EApp (mkAppError CConflictError "Email already registered"
                         "CONFLICT" 409 true)), w')
      /\ users w' = users Demo.world)
  /\ (exists w',
        register Demo.clock Demo.uuid Demo.bcryptHash Demo.jwtSign Demo.encodeURIComponent
          (JStr "Carol@Example.com") (JStr "password123") (JStr " Carol ") Demo.world
        = (Returned (mkAuthResult
                       (mkSafeUser (Demo.uuid 0) "carol@example.com" "Carol"
                          "https://api.dicebear.com/7.x/avataaars/svg?seed= Carol ")
                       (Demo.jwtSign (Demo.uuid 0) "carol@example.com")), w')
        /\ List.length (users w') = 3%nat).
Proof.
  split.
  - destruct (register_outcome Demo.clock Demo.uuid Demo.bcryptHash Demo.jwtSign
                Demo.encodeURIComponent "ALICE@example.com" "password123" "Alice" Demo.world)
      as [_ Hvalid]; [concrete|].
    destruct (Hvalid eq_refl) as [Hconflict _].
    destruct (Hconflict Demo.alice eq_refl) as (w' & Hrun & Hu & _).
    exists w'. split; [exact Hrun|exact Hu].
  - destruct (register_outcome Demo.clock Demo.uuid Demo.bcryptHash Demo.jwtSign
                Demo.encodeURIComponent "Carol@Example.com" "password123" " Carol "
                Demo.world) as [_ Hvalid]; [concrete|].
    destruct (Hvalid eq_refl) as [_ Hnew].
    destruct (Hnew eq_refl) as (w' & Hrun & Hu & _).
    exists w'. split; [exact Hrun|]. by rewrite Hu.
Defined.

Lemma login_after_register_witness :
  exists session,
    fst (authenticate Demo.clock Demo.uuid Demo.bcryptCompare Demo.bcryptHash Demo.jwtSign
           Env.default (JStr "Carol@Example.com") (JStr "password123")
           (snd (register Demo.clock Demo.uuid Demo.bcryptHash Demo.jwtSign
                   Demo.encodeURIComponent
                   (JStr "Carol@Example.com") (JStr "password123") (JStr "Carol")
                   Demo.world)))
    = Returned session
    /\ arUser session
       = mkSafeUser (Demo.uuid 0) "carol@example.com" "Carol"
           "https://api.dicebear.com/7.x/avataaars/svg?seed=Carol".
Proof.
  destruct (register Demo.clock Demo.uuid Demo.bcryptHash Demo.jwtSign
              Demo.encodeURIComponent
              (JStr "Carol@Example.com") (JStr "password123") (JStr "Carol") Demo.world)
    as [o w1] eqn:Hreg.
  assert (exists r, o = Returned r
                    /\ arUser r
                       = mkSafeUser (Demo.uuid 0) "carol@example.com" "Carol"
                           "https://api.dicebear.com/7.x/avataaars/svg?seed=Carol")
    as (r & -> & Hr).
  { vm_compute in Hreg. injection Hreg as <- _. eexists. split; reflexivity. }
  destruct (login_after_register Demo.clock Demo.uuid Demo.bcryptCompare Demo.bcryptHash
              Demo.jwtSign Demo.encodeURIComponent Env.default
              "Carol@Example.com" "password123" "Carol" r Demo.world w1)
    as (session & Hlogin & Huser & _).
  - intros p. apply String.eqb_refl.
  - discriminate.
  - exact Hreg.
  - exists session. cbn [snd]. split; [exact Hlogin|]. by rewrite Huser.
Defined.

Lemma cache_set_get_round_trip_witness :
  (exists w',
      bind (cache_set Demo.clock Env.default "k" (VProfiles []) (Some 0))
        (fun _ => cache_get Demo.clock "k") Demo.world
      = (Returned (Some (VProfiles [])), w'))
  /\ (exists w',
        bind (cache_set Demo.clock Env.default "k" (VProfiles []) (Some (-1)))
          (fun _ => cache_get Demo.clock "k") Demo.world
        = (Returned None, w')
        /\ cache w' = delete "k" (cache Demo.world)).
Proof.
  split.
  - destruct (cache_set_get_round_trip Demo.clock Env.default "k" (VProfiles []) (Some 0)
                Demo.world) as (Hfresh & _).
    destruct Hfresh as (w' & Hrun & _); [vm_compute; discriminate|].
    exists w'. exact Hrun.
  - destruct (cache_set_get_round_trip Demo.clock Env.default "k" (VProfiles []) (Some (-1))
                Demo.world) as (_ & Hstale & _).
    destruct Hstale as (w' & Hrun & Hcache); [vm_compute; reflexivity|].
    exists w'. split; [exact Hrun|exact Hcache].
Defined.

Lemma cached_page_ignores_limit_and_order_witness :
  let first := PostModel_getAllWithAuthors Demo.clock Demo.uuid Demo.bcryptHash Env.default
                 (NInt 1) NUndefined None Demo.world in
  (exists feed, fst first = Returned (VFeed feed) /\ List.length feed = 1%nat)
  /\ fst (PostModel_getAllWithAuthors Demo.clock Demo.uuid Demo.bcryptHash Env.default
            (NInt 50) (NInt 7) (Some (JStr "asc")) (snd first))
     = fst first.
Proof.
  cbv zeta. split; [eexists; split; [vm_compute; reflexivity|reflexivity]|].
  destruct (PostModel_getAllWithAuthors Demo.clock Demo.uuid Demo.bcryptHash Env.default
              (NInt 1) NUndefined None Demo.world) as [o w1] eqn:Hrun.
  assert (exists v, o = Returned v) as [v ->].
  { vm_compute in Hrun. injection Hrun as <- _. by eexists. }
  cbn [fst snd].
  rewrite (proj1 (cached_page_ignores_limit_and_order Demo.clock Demo.uuid Demo.bcryptHash
                    Env.default (NInt 1) NUndefined (NInt 50) (NInt 7) None (Some (JStr "asc"))
                    (Validators.mkPagination 1 0 "DESC") (Validators.mkPagination 50 7 "ASC")
                    eq_refl eq_refl ltac:(by vm_compute) ltac:(by vm_compute) eq_refl)
             v Demo.world w1 Hrun); [reflexivity|].
  intros item Hitem. vm_compute in Hrun. injection Hrun as _ <-.
  vm_compute in Hitem. injection Hitem as <-. vm_compute. discriminate.
Defined.

Lemma initializeData_seeds_once_witness :
  exists w',
    initializeData Demo.clock Demo.uuid Demo.bcryptHash Demo.emptyWorld = (Returned tt, w')
    /\ map email (users w') = ["alice@example.com"; "bob@example.com"; "charlie@example.com"]
    /\ List.length (posts w') = 5%nat
    /\ initializeData Demo.clock Demo.uuid Demo.bcryptHash w' = (Returned tt, w').
Proof.
  destruct (initializeData_seeds_once Demo.clock Demo.uuid Demo.bcryptHash Demo.emptyWorld
              eq_refl) as (w' & Hrun & Hemails & _ & Hposts & _ & _ & _ & _ & _ & Hagain).
  exists w'. split; [exact Hrun|]. split; [exact Hemails|]. split; [exact Hposts|exact Hagain].
Defined.
Lemma create_needs_live_active_author_witness :
  (exists w',
      PostModel_create Demo.clock Demo.uuid Demo.bcryptHash Demo.aliceId
        (JStr "  <b>hello</b>   world ") Demo.world
      = (Returned (mkPost (Demo.uuid 0) Demo.aliceId "bhello/b world"
                     (TDate (Demo.clock 0)) TNull), w')
      /\ List.length (posts w') = 3%nat)
  /\ (exists w',
        PostModel_create Demo.clock Demo.uuid Demo.bcryptHash Demo.post1Id (JStr "hello")
          Demo.world
        = (Thrown (EApp (mkAppError CNotFoundError "User not found" "NOT_FOUND" 404 true)),
           w')
        /\ List.length (posts w') = 2%nat).
Proof.
  split.
  - destruct (create_needs_live_active_author Demo.clock Demo.uuid Demo.bcryptHash
                Demo.aliceId (JStr "  <b>hello</b>   world ") Demo.world)
      as [Hok _]; [concrete|concrete|concrete|].
    destruct Hok as (w' & Hrun & Hposts & _).
    { exists Demo.alice. split; [by left|]. by repeat split. }
    exists w'. split; [exact Hrun|]. by rewrite Hposts.
  - destruct (create_needs_live_active_author Demo.clock Demo.uuid Demo.bcryptHash
                Demo.post1Id (JStr "hello") Demo.world)
      as [_ Hno]; [concrete|concrete|concrete|].
    destruct Hno as (w' & Hrun & [_ Hposts] & _).
    { intros u [<-|[<-|[]]]; discriminate. }
    exists w'. split; [exact Hrun|]. by rewrite Hposts.
Defined.

Lemma getDbStats_tracks_post_writes_witness :
  fst (getDbStats Demo.world) = Returned (mkDbStats 2 2 2)
  /\ fst (getDbStats
            (snd (PostModel_deleteOwned Demo.clock Demo.uuid Demo.bcryptHash
                    Demo.post1Id Demo.aliceId Demo.world)))
     = Returned (mkDbStats 2 2 1)
  /\ fst (getDbStats
            (snd (PostModel_deleteOwned Demo.clock Demo.uuid Demo.bcryptHash
                    Demo.post1Id Demo.bobId Demo.world)))
     = Returned (mkDbStats 2 2 2).
Proof.
  destruct (getDbStats_tracks_post_writes Demo.clock Demo.uuid Demo.bcryptHash Demo.world)
    as (_ & Hdel & _ & Hdelfail); [concrete|].
  split; [reflexivity|]. split.
  - destruct (PostModel_deleteOwned Demo.clock Demo.uuid Demo.bcryptHash
                Demo.post1Id Demo.aliceId Demo.world) as [o w'] eqn:Hrun.
    assert (o = Returned true) as -> by (vm_compute in Hrun; by injection Hrun as <- _).
    exact (Hdel _ _ _ _ Hrun).
  - destruct (PostModel_deleteOwned Demo.clock Demo.uuid Demo.bcryptHash
                Demo.post1Id Demo.bobId Demo.world) as [o w'] eqn:Hrun.
    assert (exists e, o = Thrown e) as [e ->].
    { vm_compute in Hrun. injection Hrun as <- _. by eexists. }
    exact (Hdelfail _ _ _ _ Hrun).
Defined.

Lemma DB_findOnePost_returns_first_in_order_witness :
  DB_findOnePost Demo.clock Demo.uuid Demo.bcryptHash
    (mkFindPostsOptions None true (Some "DESC") None None) Demo.world
  = (Returned (Some Demo.post2), addCall CallFindPosts Demo.world).
Proof.
  destruct (DB_findOnePost_returns_first_in_order Demo.clock Demo.uuid Demo.bcryptHash
              (mkFindPostsOptions None true (Some "DESC") None None) "DESC" Demo.world)
    as (r & Hrun & _ & _);
    [concrete|reflexivity|concrete|repeat constructor|reflexivity|].
  rewrite Hrun. vm_compute in Hrun. by injection Hrun as <-.
Defined.

Lemma reachable_live_addresses_are_distinct_witness :
  let w := handleAll Demo.clock Demo.uuid Demo.bcryptCompare Demo.bcryptHash Demo.jwtSign
             Demo.encodeURIComponent Env.default
             [ReqRegister (JStr "Carol@Example.com") (JStr "password123") (JStr "Carol");
              ReqRegister (JStr "carol@example.com") (JStr "password456") (JStr "Carol 2")]
             Demo.emptyWorld in
  liveEmails (users w)
  = ["alice@example.com"; "bob@example.com"; "charlie@example.com"; "carol@example.com"]
  /\ NoDup (liveEmails (users w)).
Proof.
  cbv zeta. split; [vm_compute; reflexivity|].
  apply (reachable_live_addresses_are_distinct Demo.clock Demo.uuid Demo.bcryptCompare
           Demo.bcryptHash Demo.jwtSign Demo.encodeURIComponent Env.default
           [ReqRegister (JStr "Carol@Example.com") (JStr "password123") (JStr "Carol");
            ReqRegister (JStr "carol@example.com") (JStr "password456") (JStr "Carol 2")]
           ∅ [] 0%nat 0%nat).
Defined.

Lemma reachable_ids_are_distinct_draws_witness :
  let w := handleAll Demo.clock Demo.serial Demo.bcryptCompare Demo.bcryptHash Demo.jwtSign
             Demo.encodeURIComponent Env.default
             [ReqLogin (JStr "alice@example.com") (JStr "password123");
              ReqRegister (JStr "carol@example.com") (JStr "password123") (JStr "Carol")]
             Demo.emptyWorld in
  List.length (users w) = 4%nat
  /\ NoDup (map userId (users w) ++ map postId (posts w)).
Proof.
  cbv zeta. split; [vm_compute; reflexivity|].
  apply (reachable_ids_are_distinct_draws Demo.clock Demo.serial Demo.bcryptCompare
           Demo.bcryptHash Demo.jwtSign Demo.encodeURIComponent Env.default
           [ReqLogin (JStr "alice@example.com") (JStr "password123");
            ReqRegister (JStr "carol@example.com") (JStr "password123") (JStr "Carol")]
           ∅ [] 0%nat 0%nat).
  intros i j H. unfold Demo.serial in H.
  apply (inj (String.app "id-")) in H. by apply (inj pretty) in H.
Defined.

Lemma getByUserId_loads_window_of_live_posts_witness :
  exists listing w',
    Permutation listing
      (List.filter (fun p => String.eqb (postUserId p) Demo.aliceId && notDeleted p)
                   (posts Demo.world))
    /\ StronglySorted (inOrder "DESC") listing
    /\ PostModel_getByUserId Demo.clock Demo.uuid Demo.bcryptHash Env.default
         Demo.aliceId (NInt 1) NUndefined None Demo.world
       = (Returned (VPosts (take 1 (drop 0 listing))), w')
    /\ (exists item,
           cache w' !! cacheKeys_userPosts Demo.aliceId 0 = Some item
           /\ value item = VPosts (take 1 (drop 0 listing)))
    /\ users w' = users Demo.world /\ posts w' = posts Demo.world
    /\ ((forall p, In p (posts Demo.world) -> postUserId p <> Demo.aliceId) -> listing = []).
Proof.
  apply (getByUserId_loads_window_of_live_posts Demo.clock Demo.uuid Demo.bcryptHash
           Env.default Demo.aliceId (NInt 1) NUndefined None
           (Validators.mkPagination 1 0 "DESC") Demo.world).
  - discriminate.
  - reflexivity.
  - reflexivity.
  - by vm_compute.
  - repeat constructor.
  - intros (item & Hitem & _). change (cache Demo.world) with (∅ : gmap string CacheItem) in Hitem.
    by rewrite lookup_empty in Hitem.
Defined.

Lemma register_then_getAll_lists_newcomer_witness :
  exists newcomer w2,
    UserModel_getAll Demo.clock Demo.uuid Demo.bcryptHash Env.default
      (snd (register Demo.clock Demo.uuid Demo.bcryptHash Demo.jwtSign
              Demo.encodeURIComponent
              (JStr "Carol@Example.com") (JStr "password123") (JStr " Carol ")
              Demo.cachedWorld))
    = (Returned (VProfiles [toPublicProfile Demo.alice; toPublicProfile Demo.bob; newcomer]),
       w2)
    /\ ppId newcomer = Demo.uuid 0
    /\ ppDisplayName newcomer = "Carol".
Proof.
  destruct (register Demo.clock Demo.uuid Demo.bcryptHash Demo.jwtSign
              Demo.encodeURIComponent
              (JStr "Carol@Example.com") (JStr "password123") (JStr " Carol ")
              Demo.cachedWorld) as [o w1] eqn:Hrun.
  assert (exists r, o = Returned r /\ suId (arUser r) = Demo.uuid 0) as (r & -> & Hr).
  { vm_compute in Hrun. injection Hrun as <- _. eexists. split; reflexivity. }
  destruct (register_then_getAll_lists_newcomer Demo.clock Demo.uuid Demo.bcryptHash
              Demo.jwtSign Demo.encodeURIComponent Env.default
              "Carol@Example.com" "password123" " Carol " r Demo.cachedWorld w1)
    as (newcomer & w2 & Hall & Hid & Hname & _); [discriminate|exact Hrun|].
  exists newcomer, w2. cbn [snd]. split; [exact Hall|]. split; [by rewrite Hid|exact Hname].
Defined.

Lemma failed_write_disables_ordered_reads_witness :
  exists w2,
    PostModel_getAllWithAuthors Demo.clock Demo.uuid Demo.bcryptHash Env.default
      (NInt 1) NUndefined None
      (snd (PostModel_deleteOwned Demo.clock Demo.uuid Demo.bcryptHash
              Demo.post1Id Demo.bobId Demo.world))
    = (Thrown (ETypeError "a.createdAt.getTime is not a function"), w2).
Proof.
  destruct (PostModel_deleteOwned Demo.clock Demo.uuid Demo.bcryptHash
              Demo.post1Id Demo.bobId Demo.world) as [o w1] eqn:Hrun.
  assert (exists e, o = Thrown e) as [e ->].
  { vm_compute in Hrun. injection Hrun as <- _. by eexists. }
  assert (cache w1 = ∅) as Hcache.
  { vm_compute in Hrun. by injection Hrun as _ <-. }
  destruct (failed_write_disables_ordered_reads Demo.clock Demo.uuid Demo.bcryptHash
              Env.default Demo.world w1) as [Hfeed _]; [discriminate| |].
  { right. exists Demo.post1Id, Demo.bobId, e. split; [reflexivity|].
    split; [reflexivity|exact Hrun]. }
  destruct (Hfeed (NInt 1) NUndefined None (Validators.mkPagination 1 0 "DESC") eq_refl)
    as (w2 & Hread & _).
  - by vm_compute.
  - simpl. lia.
  - intros (item & Hitem & _). rewrite Hcache in Hitem. by rewrite lookup_empty in Hitem.
  - exists w2. exact Hread.
Defined.

Lemma failed_write_invisible_to_accounts_witness :
  fst (authenticate Demo.clock Demo.uuid Demo.bcryptCompare Demo.bcryptHash Demo.jwtSign
         Env.default (JStr "alice@example.com") (JStr "password123")
         (snd (PostModel_deleteOwned Demo.clock Demo.uuid Demo.bcryptHash
                 Demo.post1Id Demo.bobId Demo.lockedWorld)))
  = Thrown (EApp AccountLockedError_default).
Proof.
  destruct (PostModel_deleteOwned Demo.clock Demo.uuid Demo.bcryptHash
              Demo.post1Id Demo.bobId Demo.lockedWorld) as [o w1] eqn:Hrun.
  assert (exists e, o = Thrown e) as [e ->].
  { vm_compute in Hrun. injection Hrun as <- _. by eexists. }
  destruct (failed_write_invisible_to_accounts Demo.clock Demo.uuid Demo.bcryptCompare
              Demo.bcryptHash Demo.jwtSign Demo.encodeURIComponent Env.default
              Demo.lockedWorld w1) as [Hlogin _]; [discriminate| |].
  { right. exists Demo.post1Id, Demo.bobId, e. split; [reflexivity|].
    split; [reflexivity|exact Hrun]. }
  cbn [snd]. rewrite Hlogin. vm_compute. reflexivity.
Defined.

Lemma feed_pairs_window_with_authors_witness :
  exists feed w',
    PostModel_getAllWithAuthors Demo.clock Demo.uuid Demo.bcryptHash Env.default
      (NInt 5) NUndefined None Demo.world
    = (Returned (VFeed feed), w')
    /\ Permutation (map fst feed) [Demo.post1; Demo.post2].
Proof.
  destruct (feed_pairs_window_with_authors Demo.clock Demo.uuid Demo.bcryptHash Env.default
              (NInt 5) NUndefined None (Validators.mkPagination 5 0 "DESC") Demo.world)
    as (listing & w' & Hperm & _ & Hrun & _ & _ & _ & _ & Hall).
  - discriminate.
  - reflexivity.
  - by vm_compute.
  - repeat constructor.
  - intros id item Hitem.
    change (cache Demo.world) with (∅ : gmap string CacheItem) in Hitem.
    by rewrite lookup_empty in Hitem.
  - intros (item & Hitem & _).
    change (cache Demo.world) with (∅ : gmap string CacheItem) in Hitem.
    by rewrite lookup_empty in Hitem.
  - eexists. exists w'. split; [exact Hrun|].
    rewrite Hall by (repeat constructor; intros _; vm_compute; discriminate).
    change (Z.to_nat (Validators.pgOffset (Validators.mkPagination 5 0 "DESC")))
      with 0%nat.
    change (Z.to_nat (Validators.pgLimit (Validators.mkPagination 5 0 "DESC")))
      with 5%nat.
    rewrite drop_0, take_ge; [exact Hperm|].
    rewrite (Permutation_length Hperm). simpl. lia.
Defined.

Lemma getById_returns_live_post_with_author_witness :
  exists w',
    PostModel_getById Demo.clock Demo.uuid Demo.bcryptHash Env.default
      Demo.post1Id Demo.world
    = (Returned (VPostWithAuthor Demo.post1 (VProfile (toPublicProfile Demo.alice))), w').
Proof.
  destruct (getById_returns_live_post_with_author Demo.clock Demo.uuid Demo.bcryptHash
              Env.default Demo.post1Id Demo.world) as [_ Hlive].
  - discriminate.
  - intros id item Hitem.
    change (cache Demo.world) with (∅ : gmap string CacheItem) in Hitem.
    by rewrite lookup_empty in Hitem.
  - reflexivity.
  - intros (item & Hitem & _).
    change (cache Demo.world) with (∅ : gmap string CacheItem) in Hitem.
    by rewrite lookup_empty in Hitem.
  - specialize (Hlive Demo.post1 eq_refl eq_refl).
    assert (authorOf (users Demo.world) (postUserId Demo.post1)
            = Some (VProfile (toPublicProfile Demo.alice))) as Ha
      by (vm_compute; reflexivity).
    rewrite Ha in Hlive. destruct Hlive as (w' & Hrun & _). by exists w'.
Defined.
